(** * ha-flow: fail-over of an elastic IP between compute instances

    A shallow embedding of the three entry points of the repository:
    - [InstanceIDs] : [main.go], candidates given as a list of instance IDs;
    - [PrivateIP]   : the variant taking one target private address ([-ip]);
    - [Peers]       : the variant taking a list of peer private addresses
                      ([-peers]).

    The provider's REST client ([goclient]) and Go's standard library
    ([net], [strconv]) are not part of the repository: they are interfaces
    here ([Provider], [GoLib]).  The programs run in a small monad that
    threads the provider's state, the sequence of provider calls issued
    and the records written by [slog], and that can stop with [os.Exit]. *)

From Stdlib Require Import ZArith List String Ascii Bool Lia DecimalString.
Import ListNotations.

Local Open Scope string_scope.
Local Open Scope list_scope.
Local Open Scope Z_scope.

(** ** Data of the [compute] package, restricted to the fields the code reads *)

Record ElasticIPAttachment := {
  att_ID : Z;
  att_Name : string
}.

Record ElasticIP := {
  eip_ID : Z;
  eip_PublicIP : string;
  eip_PrivateIP : string;
  eip_Attachment : ElasticIPAttachment
}.

(** [compute.ElasticIP{}], Go's zero value. *)
Definition zeroElasticIP : ElasticIP :=
  {| eip_ID := 0; eip_PublicIP := ""; eip_PrivateIP := "";
     eip_Attachment := {| att_ID := 0; att_Name := "" |} |}.

Record NetworkInterface := {
  nic_ID : Z;
  nic_PrivateIP : string;
  nic_CIDR : string;                      (* nic.Network.CIDR *)
  nic_AttachedElasticIP : ElasticIP
}.

Record Server := {
  srv_ID : Z;
  srv_Name : string;
  srv_Status : Z                          (* server.Status.ID *)
}.

(** [type Target struct] of the two address-based variants. *)
Record Target := {
  InstanceID : Z;
  InstanceName : string;
  NetworkInterfaceID : Z;
  AttachedEIP : ElasticIP
}.

(** ** Errors

    One constructor per [errors.New] / [fmt.Errorf] site, and one for an
    error value handed back by the provider's client. *)

Inductive error :=
| ErrMissingToken
| ErrMissingEIP
| ErrInvalidEIP (v : string)
| ErrMissingInstanceIDs
| ErrInvalidInstanceID (v : string)
| ErrInvalidIPNil
| ErrInvalidIP (v : string)
| ErrEIPNotFound
| ErrNoAvailableInstance
| ErrInvalidPrivateIP
| ErrInvalidCIDR
| ErrNoNICInNetwork
| ErrFailOverNotFound (privateIP : string)
| ErrProvider (msg : string).

(** [err.Error()]. *)
Definition Error (e : error) : string :=
  match e with
  | ErrMissingToken => "missing required flag: --token"
  | ErrMissingEIP => "missing required flag: --eip"
  | ErrInvalidEIP v => "invalid eip: " ++ v
  | ErrMissingInstanceIDs => "missing required flag: --instance_ids"
  | ErrInvalidInstanceID v => "invalid instance_id: " ++ v
  | ErrInvalidIPNil => "invalid ip: <nil>"
  | ErrInvalidIP v => "invalid ip: " ++ v
  | ErrEIPNotFound => "elastic ip not found"
  | ErrNoAvailableInstance => "no available instance found"
  | ErrInvalidPrivateIP => "invalid private IP"
  | ErrInvalidCIDR => "invalid CIDR"
  | ErrNoNICInNetwork =>
      "no network interface in same network as previous private ip found"
  | ErrFailOverNotFound ip =>
      "fail over instance with private ip " ++ ip ++ " not found"
  | ErrProvider msg => msg
  end.

(** Go's [(value, error)] pair: the value is meaningful only without error. *)
Inductive result (A : Type) :=
| Ok (a : A)
| Err (e : error).
Arguments Ok {A} a.
Arguments Err {A} e.

Definition isOk {A} (r : result A) : bool :=
  match r with Ok _ => true | Err _ => false end.

(** ** The interfaces the programs are written against *)

(** The functions of Go's [net] and [strconv] packages that are called.
    [ParseIP] and [ParseCIDR] return [None] where Go returns nil or an
    error; [ParseCIDR] gives the network (its second result in Go). *)
Class GoLib := {
  IP : Type;
  IPNet : Type;
  ParseIP : string -> option IP;
  IPString : IP -> string;
  ParseCIDR : string -> option IPNet;
  Contains : IPNet -> IP -> bool;
  Atoi : string -> option Z;
  ParseIP_empty : ParseIP "" = None
}.

(** The provider's API as the client exposes it.  Listing and get calls
    read the provider's state; detach and attach may change it.  A failing
    call returns the provider's message. *)
Class Provider := {
  PState : Type;
  ServerStatusRunning : Z;
  ListElasticIPs : PState -> string + list ElasticIP;
  ListServers : PState -> string + list Server;
  GetServer : Z -> PState -> string + Server;
  ListNetworkInterfaces : Z -> PState -> string + list NetworkInterface;
  DetachElasticIP : Z -> Z -> PState -> option string * PState;
  AttachElasticIP : Z -> Z -> Z -> PState -> (string + ElasticIP) * PState
}.

(** ** What a run leaves behind: provider calls and log records *)

Inductive call :=
| CListElasticIPs
| CListServers
| CGetServer (instanceID : Z)
| CListNetworkInterfaces (instanceID : Z)
| CDetach (instanceID elasticIPID : Z)
| CAttach (instanceID elasticIPID networkInterfaceID : Z).

Definition isMutation (c : call) : bool :=
  match c with
  | CDetach _ _ | CAttach _ _ _ => true
  | _ => false
  end.

Definition isAttach (c : call) : bool :=
  match c with CAttach _ _ _ => true | _ => false end.

Inductive level := INFO | ERROR.

(** One constructor per [slog.Info] site; [MsgError] carries the text
    given to [slog.Error]. *)
Inductive message :=
| MsgFoundEIP (publicIP name : string) (id : Z)
| MsgAlreadyAttached
| MsgDetached (name : string) (id : Z)
| MsgPickedInstance (id : Z)
| MsgPickedNIC (nicID : Z)
| MsgDetachedExisting (publicIP : string) (nicID : Z)
| MsgFoundTarget (name : string) (id : Z)
| MsgPickedTarget (name : string) (id : Z)
| MsgPreparedTarget (publicIP name : string) (id : Z)
| MsgAttachedNIC (publicIP : string) (nicID : Z)
| MsgAttachedTarget (publicIP name : string) (id nicID : Z)
| MsgError (text : string).

(** What the process does that can be seen from outside, in the order it
    happens: a call to the provider with whether it succeeded, or a record
    written by [slog] (the handler writes every level to the error
    stream). *)
Inductive action :=
| ACall (c : call) (ok : bool)
| ALog (l : level) (m : message).

(** The provider calls of a trace, in order. *)
Fixpoint callsOf (tr : list action) : list call :=
  match tr with
  | [] => []
  | ACall c _ :: rest => c :: callsOf rest
  | ALog _ _ :: rest => callsOf rest
  end.

(** The detach and attach calls of a trace, in order. *)
Definition mutations (tr : list action) : list call :=
  filter isMutation (callsOf tr).

(** [strings.Split(s, sep)] for a separator of one byte. *)
Fixpoint splitOn (sep : ascii) (s : string) : list string :=
  match s with
  | EmptyString => [EmptyString]
  | String c rest =>
      if Ascii.eqb c sep then EmptyString :: splitOn sep rest
      else match splitOn sep rest with
           | h :: t => String c h :: t
           | [] => [String c EmptyString]
           end
  end.

(** [strings.Split(s, ",")]. *)
Definition splitComma (s : string) : list string := splitOn ","%char s.

(** ** The monad of a run *)

Record RunState {prov : Provider} := {
  pst : PState;
  trace : list action
}.

Definition initial {prov : Provider} (s : PState) : RunState :=
  {| pst := s; trace := [] |}.

(** A computation either goes on with a value or ends the process. *)
Inductive outcome (A : Type) :=
| Ret (a : A)
| Exit (code : Z).
Arguments Ret {A} a.
Arguments Exit {A} code.

Definition M {prov : Provider} (A : Type) : Type :=
  RunState -> outcome A * RunState.

Definition ret {prov : Provider} {A} (a : A) : M A := fun st => (Ret a, st).

Definition bind {prov : Provider} {A B} (m : M A) (k : A -> M B) : M B :=
  fun st =>
    match m st with
    | (Ret a, st') => k a st'
    | (Exit c, st') => (Exit c, st')
    end.

Notation "x <- m ;; k" := (bind m (fun x => k))
  (at level 61, m at next level, right associativity).
Notation "m ;;; k" := (bind m (fun _ => k))
  (at level 61, right associativity).

(** The exit status of the process: [main] returning is status 0. *)
Definition exitCode {prov : Provider} (r : outcome unit * RunState) : Z :=
  match fst r with
  | Ret _ => 0
  | Exit c => c
  end.

Section Run.
Context {lib : GoLib} {prov : Provider}.

Definition record (a : action) (st : RunState) : RunState :=
  {| pst := pst st; trace := trace st ++ [a] |}.

Definition slogInfo (m : message) : M unit :=
  fun st => (Ret tt, record (ALog INFO m) st).

Definition slogError (text : string) : M unit :=
  fun st => (Ret tt, record (ALog ERROR (MsgError text)) st).

Definition osExit {A} (code : Z) : M A :=
  fun st => (Exit code, st).

Definition wrap {A} (r : string + A) : result A :=
  match r with
  | inl msg => Err (ErrProvider msg)
  | inr a => Ok a
  end.

(** A listing or get call: it reads the provider's state. *)
Definition read {A} (c : call) (f : PState -> string + A) : M (result A) :=
  fun st =>
    let r := wrap (f (pst st)) in
    (Ret r, record (ACall c (isOk r)) st).

(** [service.List(ctx, goclient.Cursor{NoFilter: 1})] on the elastic IP
    service. *)
Definition serviceList : M (result (list ElasticIP)) :=
  read CListElasticIPs ListElasticIPs.

(** [service.List(ctx, goclient.Cursor{NoFilter: 1})] on the server service. *)
Definition serverList : M (result (list Server)) :=
  read CListServers ListServers.

(** [service.Get(ctx, instanceID)]. *)
Definition serverGet (instanceID : Z) : M (result Server) :=
  read (CGetServer instanceID) (GetServer instanceID).

(** [service.NetworkInterfaces(instanceID).List(ctx, goclient.Cursor{NoFilter: 1})]. *)
Definition networkInterfacesList (instanceID : Z)
  : M (result (list NetworkInterface)) :=
  read (CListNetworkInterfaces instanceID) (ListNetworkInterfaces instanceID).

(** [compute.NewServerElasticIPService(client, instanceID).Detach(ctx, id)]:
    Go's nil error is [None]. *)
Definition Detach (instanceID elasticIPID : Z) : M (option error) :=
  fun st =>
    let r := DetachElasticIP instanceID elasticIPID (pst st) in
    (Ret (option_map ErrProvider (fst r)),
     {| pst := snd r;
        trace := trace st ++
                 [ACall (CDetach instanceID elasticIPID)
                    (match fst r with None => true | Some _ => false end)] |}).

(** [compute.NewServerElasticIPService(client, instanceID).Attach(ctx, body)]. *)
Definition Attach (instanceID elasticIPID networkInterfaceID : Z)
  : M (result ElasticIP) :=
  fun st =>
    let r := AttachElasticIP instanceID elasticIPID networkInterfaceID (pst st) in
    (Ret (wrap (fst r)),
     {| pst := snd r;
        trace := trace st ++
                 [ACall (CAttach instanceID elasticIPID networkInterfaceID)
                    (isOk (wrap (fst r)))] |}).

(** ** Functions shared, word for word, by the three entry points *)

(** [failOnErr]: nothing on a nil error; otherwise one [slog.Error] record
    and [os.Exit(1)]. *)
Definition failOnErr (err : option error) : M unit :=
  match err with
  | None => ret tt
  | Some e => slogError (Error e) ;;; osExit 1
  end.

(** The idiom [v, err := f(...); failOnErr(err)]: the value is used only
    when [failOnErr] returns. *)
Definition must {A} (r : result A) : M A :=
  match r with
  | Ok a => ret a
  | Err e => slogError (Error e) ;;; osExit 1
  end.

Definition checkFlagToken (flagToken : string) : result string :=
  if (flagToken =? "")%string then Err ErrMissingToken else Ok flagToken.

Definition checkFlagEIP (flagEIP : string) : result string :=
  if (flagEIP =? "")%string then Err ErrMissingEIP
  else match ParseIP flagEIP with
       | None => Err (ErrInvalidEIP flagEIP)
       | Some _ => Ok flagEIP
       end.

(** The loop of [findElasticIPID] over [eips.Items]. *)
Fixpoint findElasticIPID_loop (items : list ElasticIP) (eip : string)
  : result ElasticIP :=
  match items with
  | [] => Err ErrEIPNotFound
  | item :: rest =>
      if (eip_PublicIP item =? eip)%string then Ok item
      else findElasticIPID_loop rest eip
  end.

Definition findElasticIPID (eip : string) : M (result ElasticIP) :=
  eips <- serviceList ;;
  match eips with
  | Err e => ret (Err e)
  | Ok items => ret (findElasticIPID_loop items eip)
  end.

Fixpoint filterPeers (peersPrivateIPs : list string) (bannedIP : string)
  : list string :=
  match peersPrivateIPs with
  | [] => []
  | ip :: rest =>
      if (ip =? bannedIP)%string then filterPeers rest bannedIP
      else ip :: filterPeers rest bannedIP
  end.

(** [prepareTarget]; [serviceInstanceID] is the instance the caller bound
    the attachment service to. *)
Definition prepareTarget (target : Target) (serviceInstanceID : Z)
  : M (option error) :=
  if (eip_PublicIP (AttachedEIP target) =? "")%string then ret None
  else
    err <- Detach serviceInstanceID (eip_ID (AttachedEIP target)) ;;
    match err with
    | Some e => ret (Some e)
    | None =>
        slogInfo (MsgPreparedTarget (eip_PublicIP (AttachedEIP target))
                    (InstanceName target) (InstanceID target)) ;;;
        ret None
    end.

End Run.

(** ** Vocabulary of the statements *)

Section Vocabulary.
Context {prov : Provider}.

(** Weakest precondition of a computation, for a normal and an exit
    postcondition. *)
Definition wp {A} (m : M A) (Q : A -> RunState -> Prop)
  (E : Z -> RunState -> Prop) (st : RunState) : Prop :=
  match m st with
  | (Ret a, st') => Q a st'
  | (Exit c, st') => E c st'
  end.

Definition issues (st : RunState) (evs : list action) : RunState :=
  {| pst := pst st; trace := trace st ++ evs |}.

Definition isRead (a : action) : bool :=
  match a with
  | ACall c _ => negb (isMutation c)
  | ALog _ _ => false
  end.

(** A successful call that is not an attach, or an informational record. *)
Definition smooth (a : action) : bool :=
  match a with
  | ACall c ok => ok && negb (isAttach c)
  | ALog INFO _ => true
  | ALog ERROR _ => false
  end.

(** The calls of a stage that only reads and that stops at its first
    failing call, returning that call's error. *)
Definition readTrace {A} (r : result A) (evs : list action) : Prop :=
  Forall (fun a => isRead a = true) evs /\
  (Forall (fun a => smooth a = true) evs \/
   exists pre c msg,
     evs = pre ++ [ACall c false] /\ Forall (fun a => smooth a = true) pre /\
     r = Err (ErrProvider msg)).

(** From provider state [s], whatever was traced before, [m] returns [r]
    after the calls [evs], and leaves the provider's state as it is. *)
Definition Stage {A} (m : M (result A)) (s : PState) (r : result A)
  (evs : list action) : Prop :=
  (forall st, pst st = s -> m st = (Ret r, issues st evs)) /\ readTrace r evs.

(** The trace of a run that failed: one error record, the last action;
    a failed call, if any, right before it; before that only successful
    calls, none of them an attach, and informational records. *)
Definition aborted (tr : list action) : Prop :=
  exists pre text,
    tr = pre ++ [ALog ERROR (MsgError text)] /\
    (Forall (fun a => smooth a = true) pre \/
     exists pre' c,
       pre = pre' ++ [ACall c false] /\ Forall (fun a => smooth a = true) pre').

(** The trace of a run that attached the elastic IP: the successful attach
    call and its informational record end the trace. *)
Definition attached (tr : list action) : Prop :=
  exists pre i e n m,
    tr = pre ++ [ACall (CAttach i e n) true; ALog INFO m] /\
    Forall (fun a => smooth a = true) pre.

(** The trace of a run that found nothing to do. *)
Definition noop (tr : list action) : Prop :=
  exists pre,
    tr = pre ++ [ALog INFO MsgAlreadyAttached] /\
    Forall (fun a => smooth a = true) pre /\ mutations tr = [].

(** Fail-fast behaviour of a whole run. *)
Definition failFast (r : outcome unit * RunState) : Prop :=
  (exitCode r = 1 /\ aborted (trace (snd r))) \/
  (exitCode r = 0 /\ (attached (trace (snd r)) \/ noop (trace (snd r)))).

Definition found (eip : ElasticIP) : action :=
  ALog INFO (MsgFoundEIP (eip_PublicIP eip) (att_Name (eip_Attachment eip))
               (att_ID (eip_Attachment eip))).

Definition detachCall (eip : ElasticIP) : call :=
  CDetach (att_ID (eip_Attachment eip)) (eip_ID eip).

Definition detachedLog (eip : ElasticIP) : action :=
  ALog INFO (MsgDetached (att_Name (eip_Attachment eip))
               (att_ID (eip_Attachment eip))).

Definition failure (e : error) : action := ALog ERROR (MsgError (Error e)).

(** The elastic IP the locator finds in provider state [s]. *)
Definition Located (s : PState) (haEIP : string) (eip : ElasticIP) : Prop :=
  exists items,
    ListElasticIPs s = inr items /\ findElasticIPID_loop items haEIP = Ok eip.

(** The step that frees the target interface: nothing when it is free,
    else a successful detach of the occupant through [inst], followed by
    the record [m]. *)
Inductive Prepared (inst : Z) (occupant : ElasticIP) (m : message)
  (s1 : PState) : list action -> PState -> Prop :=
| PreparedFree :
    eip_PublicIP occupant = "" ->
    Prepared inst occupant m s1 [] s1
| PreparedDetached s2 :
    eip_PublicIP occupant <> "" ->
    DetachElasticIP inst (eip_ID occupant) s1 = (None, s2) ->
    Prepared inst occupant m s1
      [ACall (CDetach inst (eip_ID occupant)) true; ALog INFO m] s2.


(** The call of the step that frees the target interface. *)
Definition prepareCalls (inst : Z) (occupant : ElasticIP) : list call :=
  if (eip_PublicIP occupant =? "")%string then []
  else [CDetach inst (eip_ID occupant)].

End Vocabulary.

(** ** [main.go]: candidates given as instance IDs *)

Module InstanceIDs.

Record Flags := {
  flagToken : string;
  flagInstances : string;
  flagEIP : string
}.

Section Variant.
Context {lib : GoLib} {prov : Provider}.

(** The loop of [checkFlagInstances] over [idVals]. *)
Fixpoint checkFlagInstances_loop (idVals : list string) : result (list Z) :=
  match idVals with
  | [] => Ok []
  | val :: rest =>
      match Atoi val with
      | None => Err (ErrInvalidInstanceID val)
      | Some intValue =>
          match checkFlagInstances_loop rest with
          | Ok ids => Ok (intValue :: ids)
          | Err e => Err e
          end
      end
  end.

Definition checkFlagInstances (flagInstances : string) : result (list Z) :=
  if (flagInstances =? "")%string then Err ErrMissingInstanceIDs
  else checkFlagInstances_loop (splitComma flagInstances).

Fixpoint pickNextInstance (haInstanceIDs : list Z) (unavailableInstanceID : Z)
  : M (result Z) :=
  match haInstanceIDs with
  | [] => ret (Err ErrNoAvailableInstance)
  | instanceID :: rest =>
      if instanceID =? unavailableInstanceID
      then pickNextInstance rest unavailableInstanceID
      else
        r <- serverGet instanceID ;;
        match r with
        | Err e => ret (Err e)
        | Ok server =>
            if negb (srv_Status server =? ServerStatusRunning)
            then pickNextInstance rest unavailableInstanceID
            else ret (Ok instanceID)
        end
  end.

(** The loop of [pickNetworkInterface] over [networkInterfaces.Items]. *)
Fixpoint pickNetworkInterface_loop (items : list NetworkInterface)
  (previousIP : IP) : result NetworkInterface :=
  match items with
  | [] => Err ErrNoNICInNetwork
  | nic :: rest =>
      match ParseCIDR (nic_CIDR nic) with
      | None => Err ErrInvalidCIDR
      | Some ipNet =>
          if Contains ipNet previousIP then Ok nic
          else pickNetworkInterface_loop rest previousIP
      end
  end.

Definition pickNetworkInterface (instanceID : Z) (previousPrivateIP : string)
  : M (result NetworkInterface) :=
  networkInterfaces <- networkInterfacesList instanceID ;;
  match networkInterfaces with
  | Err e => ret (Err e)
  | Ok items =>
      match ParseIP previousPrivateIP with
      | None => ret (Err ErrInvalidPrivateIP)
      | Some previousIP => ret (pickNetworkInterface_loop items previousIP)
      end
  end.

(** [main], from the parsed flags on.  The attach call goes through
    [serverAttachmentService], the service bound to
    [elasticIP.Attachment.ID]. *)
Definition main (flags : Flags) : M unit :=
  token <- must (checkFlagToken (flagToken flags)) ;;
  haEIP <- must (checkFlagEIP (flagEIP flags)) ;;
  haInstanceIDs <- must (checkFlagInstances (flagInstances flags)) ;;
  r <- findElasticIPID haEIP ;;
  elasticIP <- must r ;;
  slogInfo (MsgFoundEIP (eip_PublicIP elasticIP)
              (att_Name (eip_Attachment elasticIP))
              (att_ID (eip_Attachment elasticIP))) ;;;
  err <- Detach (att_ID (eip_Attachment elasticIP)) (eip_ID elasticIP) ;;
  failOnErr err ;;;
  slogInfo (MsgDetached (att_Name (eip_Attachment elasticIP))
              (att_ID (eip_Attachment elasticIP))) ;;;
  r <- pickNextInstance haInstanceIDs (att_ID (eip_Attachment elasticIP)) ;;
  instanceID <- must r ;;
  slogInfo (MsgPickedInstance instanceID) ;;;
  r <- pickNetworkInterface instanceID (eip_PrivateIP elasticIP) ;;
  networkInterface <- must r ;;
  slogInfo (MsgPickedNIC (nic_ID networkInterface)) ;;;
  (if negb (eip_PublicIP (nic_AttachedElasticIP networkInterface) =? "")%string
   then
     err <- Detach instanceID
              (eip_ID (nic_AttachedElasticIP networkInterface)) ;;
     failOnErr err ;;;
     slogInfo (MsgDetachedExisting
                 (eip_PublicIP (nic_AttachedElasticIP networkInterface))
                 (nic_ID networkInterface))
   else ret tt) ;;;
  r <- Attach (att_ID (eip_Attachment elasticIP)) (eip_ID elasticIP)
         (nic_ID networkInterface) ;;
  _ <- must r ;;
  slogInfo (MsgAttachedNIC (eip_PublicIP elasticIP) (nic_ID networkInterface)).

(** Candidates the loop of [pickNextInstance] passes over, and the one it
    stops at, as the provider reports them in state [s]. *)
Definition skipped (unavailableInstanceID : Z) (s : PState) (i : Z) : Prop :=
  i = unavailableInstanceID \/
  exists server,
    GetServer i s = inr server /\ srv_Status server <> ServerStatusRunning.

Definition runningAt (s : PState) (i : Z) : Prop :=
  exists server,
    GetServer i s = inr server /\ srv_Status server = ServerStatusRunning.

Definition firstRunning (haInstanceIDs : list Z) (unavailableInstanceID : Z)
  (s : PState) (instanceID : Z) : Prop :=
  exists pre post,
    haInstanceIDs = pre ++ instanceID :: post /\
    Forall (skipped unavailableInstanceID s) pre /\
    instanceID <> unavailableInstanceID /\
    runningAt s instanceID.

(** An interface whose subnet parses and does not, or does, contain the
    address. *)
Definition outside (previousIP : IP) (nic : NetworkInterface) : Prop :=
  exists ipNet,
    ParseCIDR (nic_CIDR nic) = Some ipNet /\ Contains ipNet previousIP = false.

Definition inside (previousIP : IP) (nic : NetworkInterface) : Prop :=
  exists ipNet,
    ParseCIDR (nic_CIDR nic) = Some ipNet /\ Contains ipNet previousIP = true.

Definition firstInside (items : list NetworkInterface) (previousIP : IP)
  (nic : NetworkInterface) : Prop :=
  exists pre post,
    items = pre ++ nic :: post /\ Forall (outside previousIP) pre /\
    inside previousIP nic.

(** The target as the specification's testable property words it: the
    first list entry, excluding the failed instance, that is running and
    has an interface sharing a subnet with the previously attached
    address. *)
Definition isRunning (s : PState) (i : Z) : bool :=
  match GetServer i s with
  | inr server => srv_Status server =? ServerStatusRunning
  | inl _ => false
  end.

Definition sharesSubnet (previousIP : IP) (nic : NetworkInterface) : bool :=
  match ParseCIDR (nic_CIDR nic) with
  | Some ipNet => Contains ipNet previousIP
  | None => false
  end.

Definition hasInterfaceInSubnet (s : PState) (previousPrivateIP : string)
  (i : Z) : bool :=
  match ParseIP previousPrivateIP, ListNetworkInterfaces i s with
  | Some previousIP, inr items => existsb (sharesSubnet previousIP) items
  | _, _ => false
  end.

Definition specifiedTarget (haInstanceIDs : list Z) (unavailableInstanceID : Z)
  (previousPrivateIP : string) (s : PState) : option Z :=
  find (fun i => negb (i =? unavailableInstanceID) && isRunning s i
                 && hasInterfaceInSubnet s previousPrivateIP i)
    haInstanceIDs.

(** The flag checks at the head of [main], in their order. *)
Definition validated (flags : Flags) : result (string * list Z) :=
  match checkFlagToken (flagToken flags) with
  | Err e => Err e
  | Ok _ =>
      match checkFlagEIP (flagEIP flags) with
      | Err e => Err e
      | Ok haEIP =>
          match checkFlagInstances (flagInstances flags) with
          | Err e => Err e
          | Ok ids => Ok (haEIP, ids)
          end
      end
  end.

(** The runs of [main], one constructor per place where it can end. *)
Inductive Run (flags : Flags) (s : PState) : outcome unit -> RunState -> Prop :=
| RunBadFlags e :
    validated flags = Err e ->
    Run flags s (Exit 1) {| pst := s; trace := [failure e] |}
| RunListFailed haEIP ids msg :
    validated flags = Ok (haEIP, ids) ->
    ListElasticIPs s = inl msg ->
    Run flags s (Exit 1)
      {| pst := s;
         trace := [ACall CListElasticIPs false; failure (ErrProvider msg)] |}
| RunNotFound haEIP ids items e :
    validated flags = Ok (haEIP, ids) ->
    ListElasticIPs s = inr items ->
    findElasticIPID_loop items haEIP = Err e ->
    Run flags s (Exit 1)
      {| pst := s; trace := [ACall CListElasticIPs true; failure e] |}
| RunDetachFailed haEIP ids eip msg s1 :
    validated flags = Ok (haEIP, ids) ->
    Located s haEIP eip ->
    DetachElasticIP (att_ID (eip_Attachment eip)) (eip_ID eip) s = (Some msg, s1) ->
    Run flags s (Exit 1)
      {| pst := s1;
         trace := [ACall CListElasticIPs true; found eip;
                   ACall (detachCall eip) false; failure (ErrProvider msg)] |}
| RunNoInstance haEIP ids eip s1 e evs :
    validated flags = Ok (haEIP, ids) ->
    Located s haEIP eip ->
    DetachElasticIP (att_ID (eip_Attachment eip)) (eip_ID eip) s = (None, s1) ->
    Stage (pickNextInstance ids (att_ID (eip_Attachment eip))) s1 (Err e) evs ->
    Run flags s (Exit 1)
      {| pst := s1;
         trace := [ACall CListElasticIPs true; found eip;
                   ACall (detachCall eip) true; detachedLog eip]
                  ++ evs ++ [failure e] |}
| RunNoInterface haEIP ids eip s1 instanceID evs e evs2 :
    validated flags = Ok (haEIP, ids) ->
    Located s haEIP eip ->
    DetachElasticIP (att_ID (eip_Attachment eip)) (eip_ID eip) s = (None, s1) ->
    Stage (pickNextInstance ids (att_ID (eip_Attachment eip))) s1
      (Ok instanceID) evs ->
    Stage (pickNetworkInterface instanceID (eip_PrivateIP eip)) s1 (Err e) evs2 ->
    Run flags s (Exit 1)
      {| pst := s1;
         trace := [ACall CListElasticIPs true; found eip;
                   ACall (detachCall eip) true; detachedLog eip]
                  ++ evs ++ [ALog INFO (MsgPickedInstance instanceID)]
                  ++ evs2 ++ [failure e] |}
| RunPrepareFailed haEIP ids eip s1 instanceID evs nic evs2 msg s2 :
    validated flags = Ok (haEIP, ids) ->
    Located s haEIP eip ->
    DetachElasticIP (att_ID (eip_Attachment eip)) (eip_ID eip) s = (None, s1) ->
    Stage (pickNextInstance ids (att_ID (eip_Attachment eip))) s1
      (Ok instanceID) evs ->
    Stage (pickNetworkInterface instanceID (eip_PrivateIP eip)) s1 (Ok nic) evs2 ->
    eip_PublicIP (nic_AttachedElasticIP nic) <> "" ->
    DetachElasticIP instanceID (eip_ID (nic_AttachedElasticIP nic)) s1
      = (Some msg, s2) ->
    Run flags s (Exit 1)
      {| pst := s2;
         trace := [ACall CListElasticIPs true; found eip;
                   ACall (detachCall eip) true; detachedLog eip]
                  ++ evs ++ [ALog INFO (MsgPickedInstance instanceID)]
                  ++ evs2 ++ [ALog INFO (MsgPickedNIC (nic_ID nic))]
                  ++ [ACall (CDetach instanceID
                               (eip_ID (nic_AttachedElasticIP nic))) false;
                      failure (ErrProvider msg)] |}
| RunAttachFailed haEIP ids eip s1 instanceID evs nic evs2 pevs s2 msg s3 :
    validated flags = Ok (haEIP, ids) ->
    Located s haEIP eip ->
    DetachElasticIP (att_ID (eip_Attachment eip)) (eip_ID eip) s = (None, s1) ->
    Stage (pickNextInstance ids (att_ID (eip_Attachment eip))) s1
      (Ok instanceID) evs ->
    Stage (pickNetworkInterface instanceID (eip_PrivateIP eip)) s1 (Ok nic) evs2 ->
    Prepared instanceID (nic_AttachedElasticIP nic)
      (MsgDetachedExisting (eip_PublicIP (nic_AttachedElasticIP nic)) (nic_ID nic))
      s1 pevs s2 ->
    AttachElasticIP (att_ID (eip_Attachment eip)) (eip_ID eip) (nic_ID nic) s2
      = (inl msg, s3) ->
    Run flags s (Exit 1)
      {| pst := s3;
         trace := [ACall CListElasticIPs true; found eip;
                   ACall (detachCall eip) true; detachedLog eip]
                  ++ evs ++ [ALog INFO (MsgPickedInstance instanceID)]
                  ++ evs2 ++ [ALog INFO (MsgPickedNIC (nic_ID nic))]
                  ++ pevs
                  ++ [ACall (CAttach (att_ID (eip_Attachment eip)) (eip_ID eip)
                               (nic_ID nic)) false;
                      failure (ErrProvider msg)] |}
| RunAttached haEIP ids eip s1 instanceID evs nic evs2 pevs s2 res s3 :
    validated flags = Ok (haEIP, ids) ->
    Located s haEIP eip ->
    DetachElasticIP (att_ID (eip_Attachment eip)) (eip_ID eip) s = (None, s1) ->
    Stage (pickNextInstance ids (att_ID (eip_Attachment eip))) s1
      (Ok instanceID) evs ->
    Stage (pickNetworkInterface instanceID (eip_PrivateIP eip)) s1 (Ok nic) evs2 ->
    Prepared instanceID (nic_AttachedElasticIP nic)
      (MsgDetachedExisting (eip_PublicIP (nic_AttachedElasticIP nic)) (nic_ID nic))
      s1 pevs s2 ->
    AttachElasticIP (att_ID (eip_Attachment eip)) (eip_ID eip) (nic_ID nic) s2
      = (inr res, s3) ->
    Run flags s (Ret tt)
      {| pst := s3;
         trace := [ACall CListElasticIPs true; found eip;
                   ACall (detachCall eip) true; detachedLog eip]
                  ++ evs ++ [ALog INFO (MsgPickedInstance instanceID)]
                  ++ evs2 ++ [ALog INFO (MsgPickedNIC (nic_ID nic))]
                  ++ pevs
                  ++ [ACall (CAttach (att_ID (eip_Attachment eip)) (eip_ID eip)
                               (nic_ID nic)) true;
                      ALog INFO (MsgAttachedNIC (eip_PublicIP eip) (nic_ID nic))] |}.

End Variant.
End InstanceIDs.

(** ** The variant taking the target's private address ([-ip]) *)

Module PrivateIP.

Record Flags := {
  flagToken : string;
  flagIP : string;
  flagEIP : string
}.

Section Variant.
Context {lib : GoLib} {prov : Provider}.

Definition checkFlagIP (flagIP : string) : result string :=
  match ParseIP flagIP with
  | None => Err ErrInvalidIPNil
  | Some ip => Ok (IPString ip)
  end.

(** The inner loop of [findFailOverTarget], over one instance's interfaces. *)
Fixpoint findFailOverTarget_interfaces (instance : Server)
  (items : list NetworkInterface) (privateIP : string) : option Target :=
  match items with
  | [] => None
  | networkInterface :: rest =>
      if (nic_PrivateIP networkInterface =? privateIP)%string
      then Some {| InstanceID := srv_ID instance;
                   InstanceName := srv_Name instance;
                   NetworkInterfaceID := nic_ID networkInterface;
                   AttachedEIP := nic_AttachedElasticIP networkInterface |}
      else findFailOverTarget_interfaces instance rest privateIP
  end.

(** The outer loop of [findFailOverTarget], over [instances.Items]. *)
Fixpoint findFailOverTarget_loop (items : list Server) (privateIP : string)
  : M (result Target) :=
  match items with
  | [] => ret (Err (ErrFailOverNotFound privateIP))
  | instance :: rest =>
      if negb (srv_Status instance =? ServerStatusRunning)
      then findFailOverTarget_loop rest privateIP
      else
        networkInterfaces <- networkInterfacesList (srv_ID instance) ;;
        match networkInterfaces with
        | Err e => ret (Err e)
        | Ok nics =>
            match findFailOverTarget_interfaces instance nics privateIP with
            | Some target => ret (Ok target)
            | None => findFailOverTarget_loop rest privateIP
            end
        end
  end.

Definition findFailOverTarget (privateIP : string) : M (result Target) :=
  instances <- serverList ;;
  match instances with
  | Err e => ret (Err e)
  | Ok items => findFailOverTarget_loop items privateIP
  end.

Definition main (flags : Flags) : M unit :=
  token <- must (checkFlagToken (flagToken flags)) ;;
  haEIP <- must (checkFlagEIP (flagEIP flags)) ;;
  privateIP <- must (checkFlagIP (flagIP flags)) ;;
  r <- findElasticIPID haEIP ;;
  elasticIP <- must r ;;
  slogInfo (MsgFoundEIP (eip_PublicIP elasticIP)
              (att_Name (eip_Attachment elasticIP))
              (att_ID (eip_Attachment elasticIP))) ;;;
  if (eip_PrivateIP elasticIP =? privateIP)%string
  then slogInfo MsgAlreadyAttached
  else
    err <- Detach (att_ID (eip_Attachment elasticIP)) (eip_ID elasticIP) ;;
    failOnErr err ;;;
    slogInfo (MsgDetached (att_Name (eip_Attachment elasticIP))
                (att_ID (eip_Attachment elasticIP))) ;;;
    r <- findFailOverTarget privateIP ;;
    target <- must r ;;
    slogInfo (MsgFoundTarget (InstanceName target) (InstanceID target)) ;;;
    err <- prepareTarget target (InstanceID target) ;;
    failOnErr err ;;;
    r <- Attach (InstanceID target) (eip_ID elasticIP)
           (NetworkInterfaceID target) ;;
    _ <- must r ;;
    slogInfo (MsgAttachedTarget (eip_PublicIP elasticIP) (InstanceName target)
                (InstanceID target) (NetworkInterfaceID target)).

(** The flag checks at the head of [main], in their order. *)
Definition validated (flags : Flags) : result (string * string) :=
  match checkFlagToken (flagToken flags) with
  | Err e => Err e
  | Ok _ =>
      match checkFlagEIP (flagEIP flags) with
      | Err e => Err e
      | Ok haEIP =>
          match checkFlagIP (flagIP flags) with
          | Err e => Err e
          | Ok privateIP => Ok (haEIP, privateIP)
          end
      end
  end.

(** The runs of [main], one constructor per place where it can end. *)
Inductive Run (flags : Flags) (s : PState) : outcome unit -> RunState -> Prop :=
| RunBadFlags e :
    validated flags = Err e ->
    Run flags s (Exit 1) {| pst := s; trace := [failure e] |}
| RunListFailed haEIP privateIP msg :
    validated flags = Ok (haEIP, privateIP) ->
    ListElasticIPs s = inl msg ->
    Run flags s (Exit 1)
      {| pst := s;
         trace := [ACall CListElasticIPs false; failure (ErrProvider msg)] |}
| RunNotFound haEIP privateIP items e :
    validated flags = Ok (haEIP, privateIP) ->
    ListElasticIPs s = inr items ->
    findElasticIPID_loop items haEIP = Err e ->
    Run flags s (Exit 1)
      {| pst := s; trace := [ACall CListElasticIPs true; failure e] |}
| RunAlreadyAttached haEIP privateIP eip :
    validated flags = Ok (haEIP, privateIP) ->
    Located s haEIP eip ->
    eip_PrivateIP eip = privateIP ->
    Run flags s (Ret tt)
      {| pst := s;
         trace := [ACall CListElasticIPs true; found eip;
                   ALog INFO MsgAlreadyAttached] |}
| RunDetachFailed haEIP privateIP eip msg s1 :
    validated flags = Ok (haEIP, privateIP) ->
    Located s haEIP eip ->
    eip_PrivateIP eip <> privateIP ->
    DetachElasticIP (att_ID (eip_Attachment eip)) (eip_ID eip) s = (Some msg, s1) ->
    Run flags s (Exit 1)
      {| pst := s1;
         trace := [ACall CListElasticIPs true; found eip;
                   ACall (detachCall eip) false; failure (ErrProvider msg)] |}
| RunNoTarget haEIP privateIP eip s1 e evs :
    validated flags = Ok (haEIP, privateIP) ->
    Located s haEIP eip ->
    eip_PrivateIP eip <> privateIP ->
    DetachElasticIP (att_ID (eip_Attachment eip)) (eip_ID eip) s = (None, s1) ->
    Stage (findFailOverTarget privateIP) s1 (Err e) evs ->
    Run flags s (Exit 1)
      {| pst := s1;
         trace := [ACall CListElasticIPs true; found eip;
                   ACall (detachCall eip) true; detachedLog eip]
                  ++ evs ++ [failure e] |}
| RunPrepareFailed haEIP privateIP eip s1 target evs msg s2 :
    validated flags = Ok (haEIP, privateIP) ->
    Located s haEIP eip ->
    eip_PrivateIP eip <> privateIP ->
    DetachElasticIP (att_ID (eip_Attachment eip)) (eip_ID eip) s = (None, s1) ->
    Stage (findFailOverTarget privateIP) s1 (Ok target) evs ->
    eip_PublicIP (AttachedEIP target) <> "" ->
    DetachElasticIP (InstanceID target) (eip_ID (AttachedEIP target)) s1
      = (Some msg, s2) ->
    Run flags s (Exit 1)
      {| pst := s2;
         trace := [ACall CListElasticIPs true; found eip;
                   ACall (detachCall eip) true; detachedLog eip]
                  ++ evs
                  ++ [ALog INFO (MsgFoundTarget (InstanceName target) (InstanceID target))]
                  ++ [ACall (CDetach (InstanceID target)
                               (eip_ID (AttachedEIP target))) false;
                      failure (ErrProvider msg)] |}
| RunAttachFailed haEIP privateIP eip s1 target evs pevs s2 msg s3 :
    validated flags = Ok (haEIP, privateIP) ->
    Located s haEIP eip ->
    eip_PrivateIP eip <> privateIP ->
    DetachElasticIP (att_ID (eip_Attachment eip)) (eip_ID eip) s = (None, s1) ->
    Stage (findFailOverTarget privateIP) s1 (Ok target) evs ->
    Prepared (InstanceID target) (AttachedEIP target)
      (MsgPreparedTarget (eip_PublicIP (AttachedEIP target))
         (InstanceName target) (InstanceID target))
      s1 pevs s2 ->
    AttachElasticIP (InstanceID target) (eip_ID eip) (NetworkInterfaceID target) s2
      = (inl msg, s3) ->
    Run flags s (Exit 1)
      {| pst := s3;
         trace := [ACall CListElasticIPs true; found eip;
                   ACall (detachCall eip) true; detachedLog eip]
                  ++ evs
                  ++ [ALog INFO (MsgFoundTarget (InstanceName target) (InstanceID target))]
                  ++ pevs
                  ++ [ACall (CAttach (InstanceID target) (eip_ID eip)
                               (NetworkInterfaceID target)) false;
                      failure (ErrProvider msg)] |}
| RunAttached haEIP privateIP eip s1 target evs pevs s2 res s3 :
    validated flags = Ok (haEIP, privateIP) ->
    Located s haEIP eip ->
    eip_PrivateIP eip <> privateIP ->
    DetachElasticIP (att_ID (eip_Attachment eip)) (eip_ID eip) s = (None, s1) ->
    Stage (findFailOverTarget privateIP) s1 (Ok target) evs ->
    Prepared (InstanceID target) (AttachedEIP target)
      (MsgPreparedTarget (eip_PublicIP (AttachedEIP target))
         (InstanceName target) (InstanceID target))
      s1 pevs s2 ->
    AttachElasticIP (InstanceID target) (eip_ID eip) (NetworkInterfaceID target) s2
      = (inr res, s3) ->
    Run flags s (Ret tt)
      {| pst := s3;
         trace := [ACall CListElasticIPs true; found eip;
                   ACall (detachCall eip) true; detachedLog eip]
                  ++ evs
                  ++ [ALog INFO (MsgFoundTarget (InstanceName target) (InstanceID target))]
                  ++ pevs
                  ++ [ACall (CAttach (InstanceID target) (eip_ID eip)
                               (NetworkInterfaceID target)) true;
                      ALog INFO (MsgAttachedTarget (eip_PublicIP eip)
                                   (InstanceName target) (InstanceID target)
                                   (NetworkInterfaceID target))] |}.

End Variant.
End PrivateIP.

(** ** The variant taking the peers' private addresses ([-peers]) *)

Module Peers.

Record Flags := {
  flagToken : string;
  flagIPs : string;
  flagEIP : string
}.

Section Variant.
Context {lib : GoLib} {prov : Provider}.

(** The loop of [checkFlagIPs] over [ipVals]. *)
Fixpoint checkFlagIPs_loop (ipVals : list string) : result (list string) :=
  match ipVals with
  | [] => Ok []
  | val :: rest =>
      match ParseIP val with
      | None => Err (ErrInvalidIP val)
      | Some ip =>
          match checkFlagIPs_loop rest with
          | Ok ips => Ok (IPString ip :: ips)
          | Err e => Err e
          end
      end
  end.

Definition checkFlagIPs (flagIPs : string) : result (list string) :=
  checkFlagIPs_loop (splitComma flagIPs).

(** [slices.ContainsFunc(peersPrivateIPs, func(ip) { return nic.PrivateIP == ip })]. *)
Definition inPeers (peersPrivateIPs : list string)
  (networkInterface : NetworkInterface) : bool :=
  existsb (fun ip => (nic_PrivateIP networkInterface =? ip)%string)
    peersPrivateIPs.

(** The inner loop of [pickFailOverTarget], over one instance's interfaces. *)
Fixpoint pickFailOverTarget_interfaces (instance : Server)
  (items : list NetworkInterface) (peersPrivateIPs : list string)
  : option Target :=
  match items with
  | [] => None
  | networkInterface :: rest =>
      if inPeers peersPrivateIPs networkInterface
      then Some {| InstanceID := srv_ID instance;
                   InstanceName := srv_Name instance;
                   NetworkInterfaceID := nic_ID networkInterface;
                   AttachedEIP := nic_AttachedElasticIP networkInterface |}
      else pickFailOverTarget_interfaces instance rest peersPrivateIPs
  end.

(** The outer loop of [pickFailOverTarget], over [instances.Items]. *)
Fixpoint pickFailOverTarget_loop (items : list Server)
  (peersPrivateIPs : list string) : M (result Target) :=
  match items with
  | [] => ret (Err ErrNoAvailableInstance)
  | instance :: rest =>
      if negb (srv_Status instance =? ServerStatusRunning)
      then pickFailOverTarget_loop rest peersPrivateIPs
      else
        networkInterfaces <- networkInterfacesList (srv_ID instance) ;;
        match networkInterfaces with
        | Err e => ret (Err e)
        | Ok nics =>
            match pickFailOverTarget_interfaces instance nics peersPrivateIPs with
            | Some target => ret (Ok target)
            | None => pickFailOverTarget_loop rest peersPrivateIPs
            end
        end
  end.

Definition pickFailOverTarget (peersPrivateIPs : list string)
  : M (result Target) :=
  instances <- serverList ;;
  match instances with
  | Err e => ret (Err e)
  | Ok items => pickFailOverTarget_loop items peersPrivateIPs
  end.

Definition main (flags : Flags) : M unit :=
  token <- must (checkFlagToken (flagToken flags)) ;;
  haEIP <- must (checkFlagEIP (flagEIP flags)) ;;
  haPeerIPs <- must (checkFlagIPs (flagIPs flags)) ;;
  r <- findElasticIPID haEIP ;;
  elasticIP <- must r ;;
  slogInfo (MsgFoundEIP (eip_PublicIP elasticIP)
              (att_Name (eip_Attachment elasticIP))
              (att_ID (eip_Attachment elasticIP))) ;;;
  err <- Detach (att_ID (eip_Attachment elasticIP)) (eip_ID elasticIP) ;;
  failOnErr err ;;;
  slogInfo (MsgDetached (att_Name (eip_Attachment elasticIP))
              (att_ID (eip_Attachment elasticIP))) ;;;
  let candidatePrivateIPs := filterPeers haPeerIPs (eip_PrivateIP elasticIP) in
  r <- pickFailOverTarget candidatePrivateIPs ;;
  target <- must r ;;
  slogInfo (MsgPickedTarget (InstanceName target) (InstanceID target)) ;;;
  err <- prepareTarget target (InstanceID target) ;;
  failOnErr err ;;;
  r <- Attach (InstanceID target) (eip_ID elasticIP)
         (NetworkInterfaceID target) ;;
  _ <- must r ;;
  slogInfo (MsgAttachedTarget (eip_PublicIP elasticIP) (InstanceName target)
              (InstanceID target) (NetworkInterfaceID target)).

(** The target built from an instance and one of its interfaces. *)
Definition targetOf (instance : Server) (networkInterface : NetworkInterface)
  : Target :=
  {| InstanceID := srv_ID instance;
     InstanceName := srv_Name instance;
     NetworkInterfaceID := nic_ID networkInterface;
     AttachedEIP := nic_AttachedElasticIP networkInterface |}.

(** An instance the loop of [pickFailOverTarget] passes over in provider
    state [s]: it is not running, or its interfaces are listed and none
    has an address of the peer list. *)
Definition passedOver (peersPrivateIPs : list string) (s : PState)
  (instance : Server) : Prop :=
  srv_Status instance <> ServerStatusRunning \/
  exists nics,
    ListNetworkInterfaces (srv_ID instance) s = inr nics /\
    Forall (fun n => ~ In (nic_PrivateIP n) peersPrivateIPs) nics.

(** The first interface, in the provider's listing order of running
    instances and then of their interfaces, whose private address is in
    the peer list. *)
Definition firstPeerInterface (peersPrivateIPs : list string) (s : PState)
  (instance : Server) (nic : NetworkInterface) : Prop :=
  exists pre post npre npost,
    ListServers s = inr (pre ++ instance :: post) /\
    Forall (passedOver peersPrivateIPs s) pre /\
    srv_Status instance = ServerStatusRunning /\
    ListNetworkInterfaces (srv_ID instance) s = inr (npre ++ nic :: npost) /\
    Forall (fun n => ~ In (nic_PrivateIP n) peersPrivateIPs) npre /\
    In (nic_PrivateIP nic) peersPrivateIPs.

(** The flag checks at the head of [main], in their order. *)
Definition validated (flags : Flags) : result (string * list string) :=
  match checkFlagToken (flagToken flags) with
  | Err e => Err e
  | Ok _ =>
      match checkFlagEIP (flagEIP flags) with
      | Err e => Err e
      | Ok haEIP =>
          match checkFlagIPs (flagIPs flags) with
          | Err e => Err e
          | Ok haPeerIPs => Ok (haEIP, haPeerIPs)
          end
      end
  end.

(** The runs of [main], one constructor per place where it can end. *)
Inductive Run (flags : Flags) (s : PState) : outcome unit -> RunState -> Prop :=
| RunBadFlags e :
    validated flags = Err e ->
    Run flags s (Exit 1) {| pst := s; trace := [failure e] |}
| RunListFailed haEIP haPeerIPs msg :
    validated flags = Ok (haEIP, haPeerIPs) ->
    ListElasticIPs s = inl msg ->
    Run flags s (Exit 1)
      {| pst := s;
         trace := [ACall CListElasticIPs false; failure (ErrProvider msg)] |}
| RunNotFound haEIP haPeerIPs items e :
    validated flags = Ok (haEIP, haPeerIPs) ->
    ListElasticIPs s = inr items ->
    findElasticIPID_loop items haEIP = Err e ->
    Run flags s (Exit 1)
      {| pst := s; trace := [ACall CListElasticIPs true; failure e] |}
| RunDetachFailed haEIP haPeerIPs eip msg s1 :
    validated flags = Ok (haEIP, haPeerIPs) ->
    Located s haEIP eip ->
    DetachElasticIP (att_ID (eip_Attachment eip)) (eip_ID eip) s = (Some msg, s1) ->
    Run flags s (Exit 1)
      {| pst := s1;
         trace := [ACall CListElasticIPs true; found eip;
                   ACall (detachCall eip) false; failure (ErrProvider msg)] |}
| RunNoTarget haEIP haPeerIPs eip s1 e evs :
    validated flags = Ok (haEIP, haPeerIPs) ->
    Located s haEIP eip ->
    DetachElasticIP (att_ID (eip_Attachment eip)) (eip_ID eip) s = (None, s1) ->
    Stage (pickFailOverTarget (filterPeers haPeerIPs (eip_PrivateIP eip))) s1 (Err e) evs ->
    Run flags s (Exit 1)
      {| pst := s1;
         trace := [ACall CListElasticIPs true; found eip;
                   ACall (detachCall eip) true; detachedLog eip]
                  ++ evs ++ [failure e] |}
| RunPrepareFailed haEIP haPeerIPs eip s1 target evs msg s2 :
    validated flags = Ok (haEIP, haPeerIPs) ->
    Located s haEIP eip ->
    DetachElasticIP (att_ID (eip_Attachment eip)) (eip_ID eip) s = (None, s1) ->
    Stage (pickFailOverTarget (filterPeers haPeerIPs (eip_PrivateIP eip))) s1 (Ok target) evs ->
    eip_PublicIP (AttachedEIP target) <> "" ->
    DetachElasticIP (InstanceID target) (eip_ID (AttachedEIP target)) s1
      = (Some msg, s2) ->
    Run flags s (Exit 1)
      {| pst := s2;
         trace := [ACall CListElasticIPs true; found eip;
                   ACall (detachCall eip) true; detachedLog eip]
                  ++ evs
                  ++ [ALog INFO (MsgPickedTarget (InstanceName target) (InstanceID target))]
                  ++ [ACall (CDetach (InstanceID target)
                               (eip_ID (AttachedEIP target))) false;
                      failure (ErrProvider msg)] |}
| RunAttachFailed haEIP haPeerIPs eip s1 target evs pevs s2 msg s3 :
    validated flags = Ok (haEIP, haPeerIPs) ->
    Located s haEIP eip ->
    DetachElasticIP (att_ID (eip_Attachment eip)) (eip_ID eip) s = (None, s1) ->
    Stage (pickFailOverTarget (filterPeers haPeerIPs (eip_PrivateIP eip))) s1 (Ok target) evs ->
    Prepared (InstanceID target) (AttachedEIP target)
      (MsgPreparedTarget (eip_PublicIP (AttachedEIP target))
         (InstanceName target) (InstanceID target))
      s1 pevs s2 ->
    AttachElasticIP (InstanceID target) (eip_ID eip) (NetworkInterfaceID target) s2
      = (inl msg, s3) ->
    Run flags s (Exit 1)
      {| pst := s3;
         trace := [ACall CListElasticIPs true; found eip;
                   ACall (detachCall eip) true; detachedLog eip]
                  ++ evs
                  ++ [ALog INFO (MsgPickedTarget (InstanceName target) (InstanceID target))]
                  ++ pevs
                  ++ [ACall (CAttach (InstanceID target) (eip_ID eip)
                               (NetworkInterfaceID target)) false;
                      failure (ErrProvider msg)] |}
| RunAttached haEIP haPeerIPs eip s1 target evs pevs s2 res s3 :
    validated flags = Ok (haEIP, haPeerIPs) ->
    Located s haEIP eip ->
    DetachElasticIP (att_ID (eip_Attachment eip)) (eip_ID eip) s = (None, s1) ->
    Stage (pickFailOverTarget (filterPeers haPeerIPs (eip_PrivateIP eip))) s1 (Ok target) evs ->
    Prepared (InstanceID target) (AttachedEIP target)
      (MsgPreparedTarget (eip_PublicIP (AttachedEIP target))
         (InstanceName target) (InstanceID target))
      s1 pevs s2 ->
    AttachElasticIP (InstanceID target) (eip_ID eip) (NetworkInterfaceID target) s2
      = (inr res, s3) ->
    Run flags s (Ret tt)
      {| pst := s3;
         trace := [ACall CListElasticIPs true; found eip;
                   ACall (detachCall eip) true; detachedLog eip]
                  ++ evs
                  ++ [ALog INFO (MsgPickedTarget (InstanceName target) (InstanceID target))]
                  ++ pevs
                  ++ [ACall (CAttach (InstanceID target) (eip_ID eip)
                               (NetworkInterfaceID target)) true;
                      ALog INFO (MsgAttachedTarget (eip_PublicIP eip)
                                   (InstanceName target) (InstanceID target)
                                   (NetworkInterfaceID target))] |}.

End Variant.
End Peers.

(** ** A dotted-decimal IPv4 instance of [GoLib]

    Used to run the programs on concrete inputs.  Addresses are four
    decimal octets without leading zeros, networks are [a.b.c.d/n] with
    [0 <= n <= 32], integers are an optional sign and decimal digits within
    the range of a 64-bit [int]. *)

Module IPv4.

Definition digit (c : ascii) : option Z :=
  let n := Z.of_nat (nat_of_ascii c) in
  if (48 <=? n) && (n <=? 57) then Some (n - 48) else None.

Fixpoint digits (s : string) (acc : Z) : option Z :=
  match s with
  | EmptyString => Some acc
  | String c rest =>
      match digit c with
      | None => None
      | Some d => digits rest (10 * acc + d)
      end
  end.

(** A non-empty run of decimal digits. *)
Definition decimal (s : string) : option Z :=
  match s with
  | EmptyString => None
  | _ => digits s 0
  end.

Definition leadingZero (s : string) : bool :=
  match s with
  | String "0"%char (String _ _) => true
  | _ => false
  end.

Definition octet (s : string) : option Z :=
  if leadingZero s then None
  else match decimal s with
       | Some n => if (String.length s <=? 3)%nat && (n <=? 255)
                   then Some n else None
       | None => None
       end.

Definition parseIP (s : string) : option Z :=
  match map octet (splitOn "."%char s) with
  | [Some a; Some b; Some c; Some d] =>
      Some (((a * 256 + b) * 256 + c) * 256 + d)
  | _ => None
  end.

Definition showDecimal (n : Z) : string :=
  DecimalString.NilZero.string_of_uint (N.to_uint (Z.to_N n)).

Definition ipString (ip : Z) : string :=
  showDecimal (ip / 16777216) ++ "." ++
  showDecimal ((ip / 65536) mod 256) ++ "." ++
  showDecimal ((ip / 256) mod 256) ++ "." ++
  showDecimal (ip mod 256).

(** A network is its base address and its mask. *)
Definition mask (prefix : Z) : Z :=
  Z.shiftl (Z.ones prefix) (32 - prefix).

Definition parseCIDR (s : string) : option (Z * Z) :=
  match splitOn "/"%char s with
  | [addr; len] =>
      match parseIP addr, decimal len with
      | Some ip, Some n =>
          if (n <=? 32) && negb (leadingZero len)
          then Some (Z.land ip (mask n), mask n)
          else None
      | _, _ => None
      end
  | _ => None
  end.

Definition contains (net : Z * Z) (ip : Z) : bool :=
  Z.land ip (snd net) =? fst net.

Definition atoi (s : string) : option Z :=
  let signed :=
    match s with
    | String "-"%char rest => option_map Z.opp (decimal rest)
    | String "+"%char rest => decimal rest
    | _ => decimal s
    end in
  match signed with
  | Some n =>
      if (- 9223372036854775808 <=? n) && (n <=? 9223372036854775807)
      then Some n else None
  | None => None
  end.

Definition lib : GoLib :=
  {| IP := Z;
     IPNet := Z * Z;
     ParseIP := parseIP;
     IPString := ipString;
     ParseCIDR := parseCIDR;
     Contains := contains;
     Atoi := atoi;
     ParseIP_empty := eq_refl |}.

End IPv4.

(** ** An in-memory provider

    A test double of the provider's API, used to run the programs on
    concrete inputs.  It keeps the elastic IPs, the servers and the
    network interfaces with their owning instance.  Detaching an IP from the
    instance it is attached to clears the attachment on both sides.
    Detaching an IP that is not attached is an error, or does nothing when
    [tolerant] is set.  Attaching needs an unattached IP and a free
    interface, through whichever instance's endpoint the call is made. *)

Module Fake.

Record World := {
  eips : list ElasticIP;
  servers : list Server;
  nics : list (Z * NetworkInterface);
  tolerant : bool
}.

Definition running : Z := 1.
Definition stopped : Z := 2.

Definition getServer (id : Z) (w : World) : string + Server :=
  match find (fun s => srv_ID s =? id) (servers w) with
  | Some s => inr s
  | None => inl "server not found"
  end.

Definition listNetworkInterfaces (id : Z) (w : World)
  : string + list NetworkInterface :=
  match find (fun s => srv_ID s =? id) (servers w) with
  | Some _ => inr (map snd (filter (fun p => fst p =? id) (nics w)))
  | None => inl "server not found"
  end.

Definition released (e : ElasticIP) : ElasticIP :=
  {| eip_ID := eip_ID e; eip_PublicIP := eip_PublicIP e;
     eip_PrivateIP := "";
     eip_Attachment := {| att_ID := 0; att_Name := "" |} |}.

Definition withOccupant (n : NetworkInterface) (e : ElasticIP)
  : NetworkInterface :=
  {| nic_ID := nic_ID n; nic_PrivateIP := nic_PrivateIP n;
     nic_CIDR := nic_CIDR n; nic_AttachedElasticIP := e |}.

Definition occupiedBy (eid : Z) (n : NetworkInterface) : bool :=
  negb (eip_PublicIP (nic_AttachedElasticIP n) =? "")%string
  && (eip_ID (nic_AttachedElasticIP n) =? eid).

Definition detach (inst eid : Z) (w : World) : option string * World :=
  match find (fun e => eip_ID e =? eid) (eips w) with
  | None => (Some "elastic ip not found", w)
  | Some e =>
      if att_ID (eip_Attachment e) =? 0 then
        if tolerant w then (None, w)
        else (Some "elastic ip is not attached", w)
      else if att_ID (eip_Attachment e) =? inst then
        (None,
         {| eips := map (fun x => if eip_ID x =? eid then released x else x)
                      (eips w);
            servers := servers w;
            nics := map (fun p => if occupiedBy eid (snd p)
                                  then (fst p, withOccupant (snd p) zeroElasticIP)
                                  else p) (nics w);
            tolerant := tolerant w |})
      else (Some "elastic ip is attached to another instance", w)
  end.

Definition attach (inst eid nicid : Z) (w : World)
  : (string + ElasticIP) * World :=
  match find (fun e => eip_ID e =? eid) (eips w),
        find (fun p => nic_ID (snd p) =? nicid) (nics w) with
  | Some e, Some (owner, n) =>
      if (att_ID (eip_Attachment e) =? 0)
         && (eip_PublicIP (nic_AttachedElasticIP n) =? "")%string
      then
        let name := match getServer owner w with
                    | inr s => srv_Name s
                    | inl _ => ""
                    end in
        let e' := {| eip_ID := eip_ID e; eip_PublicIP := eip_PublicIP e;
                     eip_PrivateIP := nic_PrivateIP n;
                     eip_Attachment := {| att_ID := owner; att_Name := name |} |} in
        (inr e',
         {| eips := map (fun x => if eip_ID x =? eid then e' else x) (eips w);
            servers := servers w;
            nics := map (fun p => if nic_ID (snd p) =? nicid
                                  then (fst p, withOccupant (snd p) e')
                                  else p) (nics w);
            tolerant := tolerant w |})
      else (inl "elastic ip or network interface in use", w)
  | _, _ => (inl "elastic ip or network interface not found", w)
  end.

Definition prov : Provider :=
  {| PState := World;
     ServerStatusRunning := running;
     ListElasticIPs := fun w => inr (eips w);
     ListServers := fun w => inr (servers w);
     GetServer := getServer;
     ListNetworkInterfaces := listNetworkInterfaces;
     DetachElasticIP := detach;
     AttachElasticIP := attach |}.

(** The setting of the examples: elastic IP 7 (203.0.113.9) on instance
    1 at 10.0.0.1; instance 2 stopped; instance 3 running at 10.0.0.3;
    all three in 10.0.0.0/24. *)
Definition haEIP : ElasticIP :=
  {| eip_ID := 7; eip_PublicIP := "203.0.113.9"; eip_PrivateIP := "10.0.0.1";
     eip_Attachment := {| att_ID := 1; att_Name := "A" |} |}.

Definition nicA : NetworkInterface :=
  {| nic_ID := 11; nic_PrivateIP := "10.0.0.1"; nic_CIDR := "10.0.0.0/24";
     nic_AttachedElasticIP := haEIP |}.
Definition nicB : NetworkInterface :=
  {| nic_ID := 21; nic_PrivateIP := "10.0.0.2"; nic_CIDR := "10.0.0.0/24";
     nic_AttachedElasticIP := zeroElasticIP |}.
Definition nicC : NetworkInterface :=
  {| nic_ID := 31; nic_PrivateIP := "10.0.0.3"; nic_CIDR := "10.0.0.0/24";
     nic_AttachedElasticIP := zeroElasticIP |}.

Definition srvA : Server := {| srv_ID := 1; srv_Name := "A"; srv_Status := running |}.
Definition srvB : Server := {| srv_ID := 2; srv_Name := "B"; srv_Status := stopped |}.
Definition srvC : Server := {| srv_ID := 3; srv_Name := "C"; srv_Status := running |}.

Definition world : World :=
  {| eips := [haEIP];
     servers := [srvA; srvB; srvC];
     nics := [(1, nicA); (2, nicB); (3, nicC)];
     tolerant := false |}.

End Fake.

(** ** Settings the programs are run on below *)

Module Examples.
Import Fake.

Definition idsFlags (ids : string) : InstanceIDs.Flags :=
  {| InstanceIDs.flagToken := "secret";
     InstanceIDs.flagInstances := ids;
     InstanceIDs.flagEIP := "203.0.113.9" |}.

Definition ipFlags (ip : string) : PrivateIP.Flags :=
  {| PrivateIP.flagToken := "secret";
     PrivateIP.flagIP := ip;
     PrivateIP.flagEIP := "203.0.113.9" |}.

Definition peersFlags (ips : string) : Peers.Flags :=
  {| Peers.flagToken := "secret";
     Peers.flagIPs := ips;
     Peers.flagEIP := "203.0.113.9" |}.

(** The three programs on the IPv4 library and the in-memory provider. *)
Definition start (w : World) : RunState (prov := prov) :=
  initial (prov := prov) w.

Definition state (w : World) (tr : list action) : RunState (prov := prov) :=
  Build_RunState prov w tr.

Definition runIDs (ids : string) (w : World) :=
  InstanceIDs.main (lib := IPv4.lib) (prov := prov) (idsFlags ids) (start w).

Definition runIP (ip : string) (w : World) :=
  PrivateIP.main (lib := IPv4.lib) (prov := prov) (ipFlags ip) (start w).

Definition runPeers (ips : string) (w : World) :=
  Peers.main (lib := IPv4.lib) (prov := prov) (peersFlags ips) (start w).

(** The provider's state after the elastic IP 7 was detached from
    instance 1. *)
Definition afterDetach (w : World) : World := snd (detach 1 7 w).

(** The elastic IP sits on instance 1 at 10.0.0.3, and instance 3 has an
    interface with that same private address in its own 10.0.0.0/24. *)
Definition haEIPat3 : ElasticIP :=
  {| eip_ID := 7; eip_PublicIP := "203.0.113.9"; eip_PrivateIP := "10.0.0.3";
     eip_Attachment := {| att_ID := 1; att_Name := "A" |} |}.

Definition sameAddress : World :=
  {| eips := [haEIPat3];
     servers := [srvA; srvC];
     nics := [(1, {| nic_ID := 11; nic_PrivateIP := "10.0.0.3";
                     nic_CIDR := "10.0.0.0/24";
                     nic_AttachedElasticIP := haEIPat3 |});
              (3, nicC)];
     tolerant := false |}.

(** Instances 2 and 3 both run; only instance 3 has an interface in the
    subnet of 10.0.0.1. *)
Definition nicElsewhere : NetworkInterface :=
  {| nic_ID := 21; nic_PrivateIP := "192.168.0.2"; nic_CIDR := "192.168.0.0/24";
     nic_AttachedElasticIP := zeroElasticIP |}.

Definition srvBrunning : Server :=
  {| srv_ID := 2; srv_Name := "B"; srv_Status := running |}.

Definition laterEligible : World :=
  {| eips := [haEIP];
     servers := [srvA; srvBrunning; srvC];
     nics := [(1, nicA); (2, nicElsewhere); (3, nicC)];
     tolerant := false |}.

(** The elastic IP already sits on instance 3 at 10.0.0.3. *)
Definition haEIPonC : ElasticIP :=
  {| eip_ID := 7; eip_PublicIP := "203.0.113.9"; eip_PrivateIP := "10.0.0.3";
     eip_Attachment := {| att_ID := 3; att_Name := "C" |} |}.

Definition alreadyOnC : World :=
  {| eips := [haEIPonC];
     servers := [srvA; srvB; srvC];
     nics := [(1, withOccupant nicA zeroElasticIP); (2, nicB);
              (3, withOccupant nicC haEIPonC)];
     tolerant := false |}.

(** The interface of instance 3 holds another elastic IP. *)
Definition otherEIP : ElasticIP :=
  {| eip_ID := 8; eip_PublicIP := "203.0.113.10"; eip_PrivateIP := "10.0.0.3";
     eip_Attachment := {| att_ID := 3; att_Name := "C" |} |}.

Definition occupiedTarget : World :=
  {| eips := [haEIP; otherEIP];
     servers := [srvA; srvB; srvC];
     nics := [(1, nicA); (2, nicB); (3, withOccupant nicC otherEIP)];
     tolerant := false |}.

(** The elastic IP is attached nowhere, as after a run that died between
    its detach and its attach. *)
Definition unattached (tolerant : bool) : World :=
  {| eips := [released haEIP];
     servers := [srvA; srvB; srvC];
     nics := [(1, withOccupant nicA zeroElasticIP); (2, nicB); (3, nicC)];
     tolerant := tolerant |}.

(** Instance 3 has a first interface whose subnet does not parse, and a
    second one in the subnet of 10.0.0.1. *)
Definition nicMalformed : NetworkInterface :=
  {| nic_ID := 30; nic_PrivateIP := "10.0.0.4"; nic_CIDR := "10.0.0.0/33";
     nic_AttachedElasticIP := zeroElasticIP |}.

Definition malformedSubnet : World :=
  {| eips := [haEIP];
     servers := [srvA; srvB; srvC];
     nics := [(1, nicA); (2, nicB); (3, nicMalformed); (3, nicC)];
     tolerant := false |}.



End Examples.

(** ** Vocabulary of the further properties *)

(** [strings.Join(vals, sep)] for a separator of one byte. *)
Fixpoint joinOn (sep : ascii) (vals : list string) : string :=
  match vals with
  | [] => ""
  | v :: rest =>
      match rest with
      | [] => v
      | _ :: _ => v ++ String sep (joinOn sep rest)
      end
  end.

Fixpoint occurs (c : ascii) (s : string) : bool :=
  match s with
  | EmptyString => false
  | String x rest => Ascii.eqb x c || occurs c rest
  end.

Fixpoint countChar (c : ascii) (s : string) : nat :=
  match s with
  | EmptyString => O
  | String x rest => if Ascii.eqb x c then S (countChar c rest) else countChar c rest
  end.

Section Further.
Context {lib : GoLib} {prov : Provider}.

(** The outcome of [pickFailOverTarget] with its "no available instance"
    error replaced by the error of [findFailOverTarget]. *)
Definition notFoundAs (privateIP : string)
  (r : outcome (result Target) * RunState) : outcome (result Target) * RunState :=
  match r with
  | (Ret (Err ErrNoAvailableInstance), st) =>
      (Ret (Err (ErrFailOverNotFound privateIP)), st)
  | _ => r
  end.

(** An instance [findFailOverTarget] passes over in provider state [s]: it
    is not running, or its interfaces are listed and none has the
    address. *)
Definition hasNoInterfaceAt (privateIP : string) (s : PState)
  (instance : Server) : Prop :=
  srv_Status instance <> ServerStatusRunning \/
  exists nics,
    ListNetworkInterfaces (srv_ID instance) s = inr nics /\
    Forall (fun n => nic_PrivateIP n <> privateIP) nics.

(** The first interface with the address, in the provider's listing order
    of running instances and then of their interfaces. *)
Definition firstInterfaceAt (privateIP : string) (s : PState)
  (instance : Server) (nic : NetworkInterface) : Prop :=
  exists pre post npre npost,
    ListServers s = inr (pre ++ instance :: post) /\
    Forall (hasNoInterfaceAt privateIP s) pre /\
    srv_Status instance = ServerStatusRunning /\
    ListNetworkInterfaces (srv_ID instance) s = inr (npre ++ nic :: npost) /\
    Forall (fun n => nic_PrivateIP n <> privateIP) npre /\
    nic_PrivateIP nic = privateIP.

(** A status query of a candidate other than the failed instance. *)
Definition statusQuery (haInstanceIDs : list Z) (unavailableInstanceID : Z)
  (a : action) : Prop :=
  exists i ok,
    a = ACall (CGetServer i) ok /\ In i haInstanceIDs /\
    i <> unavailableInstanceID.

(** The status queries [pickNextInstance] makes for the candidates it
    goes through. *)
Definition statusQueries (unavailableInstanceID : Z) (candidates : list Z)
  : list action :=
  map (fun i => ACall (CGetServer i) true)
    (filter (fun i => negb (i =? unavailableInstanceID)) candidates).

(** The running instance the provider lists an interface under. *)
Definition listedUnder (s : PState) (instanceID : Z) (nicID : Z) : Prop :=
  exists items nic,
    ListNetworkInterfaces instanceID s = inr items /\ In nic items /\
    nic_ID nic = nicID.

End Further.

(** The detach and attach calls of a run, in their order: at most two
    detach calls, then at most one attach call, which is never the first
    call. *)
Definition detachesThenAttach (calls : list call) : Prop :=
  exists detaches attaches,
    calls = detaches ++ attaches /\
    Forall (fun c => exists i e, c = CDetach i e) detaches /\
    Forall (fun c => exists i e n, c = CAttach i e n) attaches /\
    (List.length detaches <= 2)%nat /\
    (List.length attaches <= 1)%nat /\
    (attaches <> [] -> detaches <> []).

(** ** The command line

    Each [main] first defines its three string flags on the default flag
    set of Go's [flag] package and calls [flag.Parse()].  That call
    parses [os.Args[1:]] and, the error handling of the default set being
    [flag.ExitOnError], ends the process itself when parsing fails: with
    status 0 when help was requested, with status 2 otherwise.  The
    package writes its error message and the usage text to the error
    stream directly, not through [slog]. *)

Module GoFlag.

(** The errors of [FlagSet.parseOne]. *)
Inductive parseError :=
| ErrHelp
| ErrBadSyntax (arg : string)
| ErrNotDefined (name : string)
| ErrNeedsArgument (name : string).

Definition message (e : parseError) : string :=
  match e with
  | ErrHelp => "flag: help requested"
  | ErrBadSyntax arg => "bad flag syntax: " ++ arg
  | ErrNotDefined name => "flag provided but not defined: -" ++ name
  | ErrNeedsArgument name => "flag needs an argument: -" ++ name
  end.

(** What the package writes to the error stream: the line of an error
    message, and the usage text ("Usage of ...:" followed by the defined
    flags), which takes several lines. *)
Inductive output :=
| Message (text : string)
| Usage.

(** The first ['='] of [s]: the text before it and the text after it. *)
Fixpoint cutAtEquals (s : string) : option (string * string) :=
  match s with
  | EmptyString => None
  | String c rest =>
      if Ascii.eqb c "="%char then Some (EmptyString, rest)
      else match cutAtEquals rest with
           | Some (name, value) => Some (String c name, value)
           | None => None
           end
  end.

(** The loop of [parseOne] that looks for ['='] from index 1 on. *)
Definition nameAndValue (name : string) : string * option string :=
  match name with
  | EmptyString => (name, None)
  | String c rest =>
      match cutAtEquals rest with
      | Some (n, value) => (String c n, Some value)
      | None => (name, None)
      end
  end.

(** A name that is not in [f.formal]. *)
Definition notFormal (name : string) : parseError :=
  if ((name =? "help") || (name =? "h"))%string then ErrHelp
  else ErrNotDefined name.

(** [FlagSet.Parse] for a set [formal] of string flags: [parseOne] is
    repeated until it reports the end of the flags or an error.  [actual]
    holds the values set so far, the latest first. *)
Fixpoint Parse (formal : list string) (args : list string)
  (actual : list (string * string)) : parseError + list (string * string) :=
  match args with
  | [] => inr actual
  | s :: rest =>
      match s with
      | String "-" (String c tail) =>
          if Ascii.eqb c "-"%char && (tail =? "")%string then inr actual
          else
            let name := if Ascii.eqb c "-"%char then tail else String c tail in
            match name with
            | EmptyString => inl (ErrBadSyntax s)
            | String c0 _ =>
                if Ascii.eqb c0 "-"%char || Ascii.eqb c0 "="%char
                then inl (ErrBadSyntax s)
                else
                  let (name, value) := nameAndValue name in
                  if existsb (String.eqb name) formal then
                    match value with
                    | Some v => Parse formal rest ((name, v) :: actual)
                    | None =>
                        match rest with
                        | [] => inl (ErrNeedsArgument name)
                        | v :: rest' => Parse formal rest' ((name, v) :: actual)
                        end
                    end
                  else inl (notFormal name)
            end
      | _ => inr actual
      end
  end.

(** The value of the variable bound to a flag: the latest value set, or
    the default, which is the empty string for every flag of the three
    programs. *)
Definition value (actual : list (string * string)) (name : string) : string :=
  match find (fun p => (fst p =? name)%string) actual with
  | Some p => snd p
  | None => ""
  end.

End GoFlag.

Section CommandLine.
Context {lib : GoLib} {prov : Provider}.

(** A program from its command line on: what the [flag] package wrote,
    the exit of the process and the state of the run.  [main] is the rest
    of the program, from the parsed flags on. *)
Definition fromCommandLine {F : Type} (formal : list string)
  (flagsOf : list (string * string) -> F) (main : F -> M unit)
  (args : list string) (s : PState)
  : list GoFlag.output * (outcome unit * RunState) :=
  match GoFlag.Parse formal args [] with
  | inl GoFlag.ErrHelp => ([GoFlag.Usage], (Exit 0, initial s))
  | inl e => ([GoFlag.Message (GoFlag.message e); GoFlag.Usage],
              (Exit 2, initial s))
  | inr actual => ([], main (flagsOf actual) (initial s))
  end.

Definition idsFormal : list string := ["token"; "eip"; "instance_ids"].
Definition ipFormal : list string := ["token"; "eip"; "ip"].
Definition peersFormal : list string := ["token"; "eip"; "peers"].

Definition idsFlagsOf (actual : list (string * string)) : InstanceIDs.Flags :=
  {| InstanceIDs.flagToken := GoFlag.value actual "token";
     InstanceIDs.flagInstances := GoFlag.value actual "instance_ids";
     InstanceIDs.flagEIP := GoFlag.value actual "eip" |}.

Definition ipFlagsOf (actual : list (string * string)) : PrivateIP.Flags :=
  {| PrivateIP.flagToken := GoFlag.value actual "token";
     PrivateIP.flagIP := GoFlag.value actual "ip";
     PrivateIP.flagEIP := GoFlag.value actual "eip" |}.

Definition peersFlagsOf (actual : list (string * string)) : Peers.Flags :=
  {| Peers.flagToken := GoFlag.value actual "token";
     Peers.flagIPs := GoFlag.value actual "peers";
     Peers.flagEIP := GoFlag.value actual "eip" |}.

(** [main] of [main.go], of the [-ip] program and of the [-peers]
    program, from [os.Args[1:]]. *)
Definition idsMain (args : list string) (s : PState) :=
  fromCommandLine idsFormal idsFlagsOf InstanceIDs.main args s.

Definition ipMain (args : list string) (s : PState) :=
  fromCommandLine ipFormal ipFlagsOf PrivateIP.main args s.

Definition peersMain (args : list string) (s : PState) :=
  fromCommandLine peersFormal peersFlagsOf Peers.main args s.













End CommandLine.

(** * Verification *)

(** ** The monad *)

Section MonadFacts.
Context {lib : GoLib} {prov : Provider}.

Lemma wp_run {A} (m : M A) (P : outcome A -> RunState -> Prop) st :
  wp m (fun a st' => P (Ret a) st') (fun c st' => P (Exit c) st') st ->
  P (fst (m st)) (snd (m st)).
Proof. unfold wp. destruct (m st) as [[a|c] st']; auto. Qed.

Lemma wp_bind {A B} (m : M A) (k : A -> M B) Q E st :
  wp m (fun a st' => wp (k a) Q E st') E st -> wp (bind m k) Q E st.
Proof. unfold wp, bind. destruct (m st) as [[a|c] st']; auto. Qed.

Lemma wp_ret {A} (a : A) (Q : A -> RunState -> Prop) E st :
  Q a st -> wp (ret a) Q E st.
Proof. auto. Qed.

Lemma wp_must {A} (r : result A) (Q : A -> RunState -> Prop) E st :
  (forall a, r = Ok a -> Q a st) ->
  (forall e, r = Err e -> E 1 (record (failure e) st)) ->
  wp (must r) Q E st.
Proof. destruct r; intros HQ HE; [apply HQ | apply HE]; reflexivity. Qed.

Lemma wp_failOnErr (err : option error) (Q : unit -> RunState -> Prop) E st :
  (err = None -> Q tt st) ->
  (forall e, err = Some e -> E 1 (record (failure e) st)) ->
  wp (failOnErr err) Q E st.
Proof. destruct err; intros HQ HE; [apply HE | apply HQ]; reflexivity. Qed.

Lemma wp_slogInfo m (Q : unit -> RunState -> Prop) E st :
  Q tt (record (ALog INFO m) st) -> wp (slogInfo m) Q E st.
Proof. auto. Qed.

Lemma wp_Detach i e (Q : option error -> RunState -> Prop) E st :
  (forall s', DetachElasticIP i e (pst st) = (None, s') ->
     Q None {| pst := s'; trace := trace st ++ [ACall (CDetach i e) true] |}) ->
  (forall msg s', DetachElasticIP i e (pst st) = (Some msg, s') ->
     Q (Some (ErrProvider msg))
       {| pst := s'; trace := trace st ++ [ACall (CDetach i e) false] |}) ->
  wp (Detach i e) Q E st.
Proof.
  intros Hok Hbad. unfold wp, Detach.
  destruct (DetachElasticIP i e (pst st)) as [[msg|] s'] eqn:HD; cbn.
  - now apply Hbad.
  - now apply Hok.
Qed.

Lemma wp_Attach i e n (Q : result ElasticIP -> RunState -> Prop) E st :
  (forall res s', AttachElasticIP i e n (pst st) = (inr res, s') ->
     Q (Ok res) {| pst := s'; trace := trace st ++ [ACall (CAttach i e n) true] |}) ->
  (forall msg s', AttachElasticIP i e n (pst st) = (inl msg, s') ->
     Q (Err (ErrProvider msg))
       {| pst := s'; trace := trace st ++ [ACall (CAttach i e n) false] |}) ->
  wp (Attach i e n) Q E st.
Proof.
  intros Hok Hbad. unfold wp, Attach.
  destruct (AttachElasticIP i e n (pst st)) as [[msg|res] s'] eqn:HA; cbn.
  - now apply Hbad.
  - now apply Hok.
Qed.

Lemma wp_stage {A} (m : M (result A)) r evs
  (Q : result A -> RunState -> Prop) E st :
  Stage m (pst st) r evs -> Q r (issues st evs) -> wp m Q E st.
Proof.
  intros [Hrun _] HQ. unfold wp. now rewrite (Hrun st eq_refl).
Qed.

Lemma wp_findElasticIPID eip (Q : result ElasticIP -> RunState -> Prop) E st :
  (forall msg, ListElasticIPs (pst st) = inl msg ->
     Q (Err (ErrProvider msg)) (record (ACall CListElasticIPs false) st)) ->
  (forall items, ListElasticIPs (pst st) = inr items ->
     Q (findElasticIPID_loop items eip) (record (ACall CListElasticIPs true) st)) ->
  wp (findElasticIPID eip) Q E st.
Proof.
  intros Hbad Hok. unfold wp, findElasticIPID, bind, serviceList, read.
  destruct (ListElasticIPs (pst st)) as [msg|items] eqn:HL; cbn.
  - now apply Hbad.
  - now apply Hok.
Qed.

Lemma issues_nil st : issues st [] = st.
Proof. destruct st. unfold issues. cbn. now rewrite app_nil_r. Qed.

Lemma issues_record a st evs :
  issues (record a st) evs = issues st (a :: evs).
Proof. unfold issues, record. cbn. now rewrite <- app_assoc. Qed.

Lemma Stage_ret {A} (r : result A) s : Stage (ret r) s r [].
Proof.
  split.
  - intros st _. now rewrite issues_nil.
  - split; [constructor | left; constructor].
Qed.

Lemma readTrace_cons {A} (r : result A) c evs :
  isMutation c = false -> isAttach c = false ->
  readTrace r evs -> readTrace r (ACall c true :: evs).
Proof.
  intros Hm Ha [Hread Hshape]. split.
  - constructor; [cbn; now rewrite Hm | exact Hread].
  - destruct Hshape as [Hall | (pre & c' & msg & -> & Hpre & ->)].
    + left. constructor; [cbn; now rewrite Ha | exact Hall].
    + right. exists (ACall c true :: pre), c', msg. repeat split.
      constructor; [cbn; now rewrite Ha | exact Hpre].
Qed.

Lemma readTrace_failed {A} c msg :
  isMutation c = false ->
  readTrace (A := A) (Err (ErrProvider msg)) [ACall c false].
Proof.
  intros Hm. split.
  - constructor; [cbn; now rewrite Hm | constructor].
  - right. exists [], c, msg. repeat split. constructor.
Qed.

(** A read followed by a continuation that is itself a stage. *)
Lemma Stage_read {A B} c (f : PState -> string + A) (k : result A -> M (result B)) s :
  isMutation c = false -> isAttach c = false ->
  (forall msg, k (Err (ErrProvider msg)) = ret (Err (ErrProvider msg))) ->
  (forall a, exists r evs, Stage (k (Ok a)) s r evs) ->
  exists r evs, Stage (bind (read c f) k) s r evs.
Proof.
  intros Hm Ha Hbad Hok.
  destruct (f s) as [msg|a] eqn:Hf.
  - exists (Err (ErrProvider msg)), [ACall c false]. split.
    + intros st <-. unfold bind, read. rewrite Hf. cbn. now rewrite Hbad.
    + now apply readTrace_failed.
  - destruct (Hok a) as (r & evs & Hrun & Htr).
    exists r, (ACall c true :: evs). split.
    + intros st <-. unfold bind, read. rewrite Hf. cbn.
      fold (record (ACall c true) st).
      rewrite (Hrun (record (ACall c true) st) eq_refl).
      now rewrite issues_record.
    + now apply readTrace_cons.
Qed.

(** What a stage returns when run from scratch. *)
Lemma Stage_initial {A} (m : M (result A)) s r evs :
  Stage m s r evs -> m (initial s) = (Ret r, {| pst := s; trace := evs |}).
Proof. intros [Hrun _]. now rewrite (Hrun (initial s) eq_refl). Qed.

Lemma Stage_fun {A} (m : M (result A)) s r evs r' evs' :
  Stage m s r evs -> Stage m s r' evs' -> r = r' /\ evs = evs'.
Proof.
  intros H1 H2. apply Stage_initial in H1, H2. rewrite H1 in H2.
  now inversion H2.
Qed.

End MonadFacts.

(** ** Traces *)

Section TraceFacts.
Context {lib : GoLib} {prov : Provider}.

Lemma callsOf_app tr1 tr2 : callsOf (tr1 ++ tr2) = callsOf tr1 ++ callsOf tr2.
Proof.
  induction tr1 as [|[c ok|l m] tr1 IH]; cbn; [reflexivity| |]; now rewrite IH.
Qed.

Lemma mutations_app tr1 tr2 :
  mutations (tr1 ++ tr2) = mutations tr1 ++ mutations tr2.
Proof. unfold mutations. now rewrite callsOf_app, filter_app. Qed.

Lemma mutations_reads evs :
  Forall (fun a => isRead a = true) evs -> mutations evs = [].
Proof.
  induction 1 as [|[c ok|l m] evs Ha _ IH]; [reflexivity| |discriminate].
  unfold mutations in *. cbn in *.
  apply negb_true_iff in Ha. now rewrite Ha.
Qed.

Lemma Stage_mutations {A} (m : M (result A)) s r evs :
  Stage m s r evs -> mutations evs = [].
Proof. intros [_ [Hread _]]. now apply mutations_reads. Qed.

Lemma Stage_result {A} (m : M (result A)) s r evs st :
  Stage m s r evs -> pst st = s -> fst (m st) = Ret r.
Proof. intros [Hrun _] Hs. now rewrite (Hrun st Hs). Qed.

Lemma Located_fun s haEIP e1 e2 : Located s haEIP e1 -> Located s haEIP e2 -> e1 = e2.
Proof.
  intros (items & HL & H1) (items' & HL' & H2). congruence.
Qed.

End TraceFacts.

(** ** The locator *)

Section LocatorFacts.
Context {lib : GoLib} {prov : Provider}.

Lemma findElasticIPID_loop_ok items eip item :
  findElasticIPID_loop items eip = Ok item <->
  exists pre post,
    items = pre ++ item :: post /\
    Forall (fun x => eip_PublicIP x <> eip) pre /\ eip_PublicIP item = eip.
Proof.
  induction items as [|x rest IH]; cbn.
  - split; [discriminate|]. intros (pre & post & H & _). now destruct pre.
  - destruct (eip_PublicIP x =? eip)%string eqn:Hx.
    + apply String.eqb_eq in Hx. split.
      * intros [= <-]. exists [], rest. auto.
      * intros ([|y pre] & post & H & Hpre & Hitem); cbn in H.
        -- now inversion H.
        -- inversion H; subst. now inversion Hpre.
    + apply String.eqb_neq in Hx. rewrite IH. split.
      * intros (pre & post & -> & Hpre & Hitem). exists (x :: pre), post. auto.
      * intros ([|y pre] & post & H & Hpre & Hitem); cbn in H; inversion H; subst.
        -- contradiction.
        -- inversion Hpre. eauto.
Qed.

Lemma findElasticIPID_loop_err items eip e :
  findElasticIPID_loop items eip = Err e <->
  e = ErrEIPNotFound /\ Forall (fun x => eip_PublicIP x <> eip) items.
Proof.
  induction items as [|x rest IH]; cbn.
  - split; [intros [= <-]; auto | now intros [-> _]].
  - destruct (eip_PublicIP x =? eip)%string eqn:Hx.
    + apply String.eqb_eq in Hx. split; [discriminate|].
      intros [_ H]. now inversion H.
    + apply String.eqb_neq in Hx. rewrite IH. split.
      * intros [-> H]. auto.
      * intros [-> H]. now inversion H.
Qed.

(** C7. The locator lists the elastic IPs once, unfiltered, and does
    nothing else: it returns the first entry whose public address is the
    given one; it reports [ErrEIPNotFound] exactly when the listing
    succeeded and no entry has that address; it hands back the provider's
    error exactly when the listing failed; the provider's state and the
    detach and attach calls of the trace are as before. *)
Theorem findElasticIPID_locates (eip : string) (st : RunState) :
  exists r,
    findElasticIPID eip st
      = (Ret r,
         record (ACall CListElasticIPs (isOk (wrap (ListElasticIPs (pst st))))) st)
    /\ (forall item,
          r = Ok item <->
          exists pre post,
            ListElasticIPs (pst st) = inr (pre ++ item :: post) /\
            Forall (fun x => eip_PublicIP x <> eip) pre /\
            eip_PublicIP item = eip)
    /\ (r = Err ErrEIPNotFound <->
        exists items,
          ListElasticIPs (pst st) = inr items /\
          Forall (fun x => eip_PublicIP x <> eip) items)
    /\ (forall msg, r = Err (ErrProvider msg) <-> ListElasticIPs (pst st) = inl msg)
    /\ pst (snd (findElasticIPID eip st)) = pst st
    /\ mutations (trace (snd (findElasticIPID eip st))) = mutations (trace st).
Proof.
  unfold findElasticIPID, bind, serviceList, read.
  destruct (ListElasticIPs (pst st)) as [msg|items] eqn:HL; cbn.
  - exists (Err (ErrProvider msg)). repeat split; try discriminate.
    + intros (pre & post & H & _). discriminate.
    + intros (items & H & _). discriminate.
    + now intros [= ->].
    + now intros [= ->].
    + unfold mutations. rewrite callsOf_app, filter_app. cbn.
      now rewrite app_nil_r.
  - exists (findElasticIPID_loop items eip). repeat split.
    + intros H. apply findElasticIPID_loop_ok in H.
      destruct H as (pre & post & -> & H). eauto.
    + intros (pre & post & [= ->] & H). apply findElasticIPID_loop_ok. eauto.
    + intros H. apply findElasticIPID_loop_err in H. exists items. tauto.
    + intros (items' & [= <-] & H). now apply findElasticIPID_loop_err.
    + intros H. apply findElasticIPID_loop_err in H. now destruct H.
    + discriminate.
    + unfold mutations. rewrite callsOf_app, filter_app. cbn.
      now rewrite app_nil_r.
Qed.

End LocatorFacts.

(** ** [main.go] *)

Module InstanceIDsFacts.
Import InstanceIDs.

Section Facts.
Context {lib : GoLib} {prov : Provider}.

Lemma ids_pickNextInstance_stage ids f s :
  exists r evs, Stage (pickNextInstance ids f) s r evs.
Proof.
  induction ids as [|i rest IH]; cbn [pickNextInstance].
  - eexists _, _. apply Stage_ret.
  - destruct (i =? f); [exact IH|].
    apply Stage_read; auto.
    intros server. destruct (negb (srv_Status server =? ServerStatusRunning)).
    + exact IH.
    + eexists _, _. apply Stage_ret.
Qed.

Lemma ids_pickNetworkInterface_stage instanceID previousPrivateIP s :
  exists r evs, Stage (pickNetworkInterface instanceID previousPrivateIP) s r evs.
Proof.
  unfold pickNetworkInterface. apply Stage_read; auto.
  intros items. destruct (ParseIP previousPrivateIP); eexists _, _; apply Stage_ret.
Qed.

Lemma ids_Run_trace flags s o p tr tr' :
  Run flags s o {| pst := p; trace := tr |} -> tr = tr' ->
  Run flags s o {| pst := p; trace := tr' |}.
Proof. now intros H <-. Qed.

Ltac norm_trace :=
  cbn [record issues pst trace initial app];
  rewrite <- ?app_assoc; cbn [app]; reflexivity.

Ltac valid Htok Heip Harg :=
  unfold validated; rewrite Htok, Heip, Harg; reflexivity.

Ltac finish C :=
  cbn [record issues pst trace initial];
  eapply ids_Run_trace; [ eapply C; eassumption | norm_trace ].

Lemma ids_main_run flags s :
  Run flags s (fst (main flags (initial s))) (snd (main flags (initial s))).
Proof.
  apply (wp_run (main flags) (Run flags s)).
  unfold main.
  apply wp_bind, wp_must; [intros token Htok | intros e He].
  2:{ assert (Hv : validated flags = Err e) by (unfold validated; now rewrite He).
      finish RunBadFlags. }
  cbv beta. apply wp_bind, wp_must; [intros haEIP Heip | intros e He].
  2:{ assert (Hv : validated flags = Err e)
        by (unfold validated; now rewrite Htok, He).
      finish RunBadFlags. }
  cbv beta. apply wp_bind, wp_must; [intros ids Hids | intros e He].
  2:{ assert (Hv : validated flags = Err e)
        by (unfold validated; now rewrite Htok, Heip, He).
      finish RunBadFlags. }
  assert (Hv : validated flags = Ok (haEIP, ids)) by valid Htok Heip Hids.
  cbv beta. apply wp_bind, wp_findElasticIPID; cbn [pst initial].
  { intros msg HL. cbv beta. apply wp_bind, wp_must; [discriminate|].
    intros e [= <-]. finish RunListFailed. }
  intros items HL. cbv beta. apply wp_bind, wp_must.
  2:{ intros e He. finish RunNotFound. }
  intros eip Hfind.
  assert (Hloc : Located s haEIP eip) by (exists items; auto).
  cbv beta. apply wp_bind, wp_slogInfo.
  apply wp_bind, wp_Detach; cbn [pst record initial];
    [intros s1 HD | intros msg s1 HD].
  2:{ apply wp_bind, wp_failOnErr; [discriminate|].
      intros e [= <-]. finish RunDetachFailed. }
  apply wp_bind, wp_failOnErr; [intros _ | discriminate].
  apply wp_bind, wp_slogInfo. apply wp_bind.
  destruct (ids_pickNextInstance_stage ids (att_ID (eip_Attachment eip)) s1)
    as (r & evs & Hpick).
  eapply wp_stage; [cbn [pst record]; exact Hpick|].
  apply wp_bind, wp_must.
  2:{ intros e ->. finish RunNoInstance. }
  intros instanceID ->. cbv beta. apply wp_bind, wp_slogInfo. apply wp_bind.
  destruct (ids_pickNetworkInterface_stage instanceID (eip_PrivateIP eip) s1)
    as (r & evs2 & Hnic).
  eapply wp_stage; [cbn [pst record issues]; exact Hnic|].
  apply wp_bind, wp_must.
  2:{ intros e ->. finish RunNoInterface. }
  intros nic ->. cbv beta. apply wp_bind, wp_slogInfo. apply wp_bind.
  destruct (eip_PublicIP (nic_AttachedElasticIP nic) =? "")%string eqn:Hocc;
    cbn [negb].
  - apply String.eqb_eq in Hocc. apply wp_ret.
    pose proof (PreparedFree instanceID _
                  (MsgDetachedExisting
                     (eip_PublicIP (nic_AttachedElasticIP nic)) (nic_ID nic))
                  s1 Hocc) as HP.
    apply wp_bind, wp_Attach; cbn [pst record issues];
      [intros res s3 HA | intros msg s3 HA].
    + apply wp_bind, wp_must; [intros _ _ | discriminate].
      apply wp_slogInfo. finish RunAttached.
    + apply wp_bind, wp_must; [discriminate|]. intros e [= <-].
      finish RunAttachFailed.
  - apply String.eqb_neq in Hocc.
    apply wp_bind, wp_Detach; cbn [pst record issues];
      [intros s2 HD2 | intros msg s2 HD2].
    2:{ apply wp_bind, wp_failOnErr; [discriminate|].
        intros e [= <-]. finish RunPrepareFailed. }
    apply wp_bind, wp_failOnErr; [intros _ | discriminate].
    apply wp_slogInfo.
    pose proof (PreparedDetached instanceID _
                  (MsgDetachedExisting
                     (eip_PublicIP (nic_AttachedElasticIP nic)) (nic_ID nic))
                  s1 s2 Hocc HD2) as HP.
    apply wp_bind, wp_Attach; cbn [pst record issues];
      [intros res s3 HA | intros msg s3 HA].
    + apply wp_bind, wp_must; [intros _ _ | discriminate].
      apply wp_slogInfo. finish RunAttached.
    + apply wp_bind, wp_must; [discriminate|]. intros e [= <-].
      finish RunAttachFailed.
Qed.

End Facts.
End InstanceIDsFacts.

(** ** The variant taking the target's private address *)

Module PrivateIPFacts.
Import PrivateIP.

Section Facts.
Context {lib : GoLib} {prov : Provider}.

Lemma ip_findFailOverTarget_loop_stage items arg s :
  exists r evs, Stage (findFailOverTarget_loop items arg) s r evs.
Proof.
  induction items as [|instance rest IH]; cbn [findFailOverTarget_loop].
  - eexists _, _. apply Stage_ret.
  - destruct (negb (srv_Status instance =? ServerStatusRunning)); [exact IH|].
    apply Stage_read; auto.
    intros nics. destruct (findFailOverTarget_interfaces instance nics arg).
    + eexists _, _. apply Stage_ret.
    + exact IH.
Qed.

Lemma ip_findFailOverTarget_stage arg s :
  exists r evs, Stage (findFailOverTarget arg) s r evs.
Proof.
  unfold findFailOverTarget. apply Stage_read; auto.
  intros items. apply ip_findFailOverTarget_loop_stage.
Qed.

Lemma ip_Run_trace flags s o p tr tr' :
  Run flags s o {| pst := p; trace := tr |} -> tr = tr' ->
  Run flags s o {| pst := p; trace := tr' |}.
Proof. now intros H <-. Qed.

Ltac norm_trace :=
  cbn [record issues pst trace initial app];
  rewrite <- ?app_assoc; cbn [app]; reflexivity.

Ltac finish C :=
  cbn [record issues pst trace initial];
  eapply ip_Run_trace; [ eapply C; eassumption | norm_trace ].

Lemma ip_main_run flags s :
  Run flags s (fst (main flags (initial s))) (snd (main flags (initial s))).
Proof.
  apply (wp_run (main flags) (Run flags s)).
  unfold main.
  apply wp_bind, wp_must; [intros token Htok | intros e He].
  2:{ assert (Hv : validated flags = Err e) by (unfold validated; now rewrite He).
      finish RunBadFlags. }
  cbv beta. apply wp_bind, wp_must; [intros haEIP Heip | intros e He].
  2:{ assert (Hv : validated flags = Err e)
        by (unfold validated; now rewrite Htok, He).
      finish RunBadFlags. }
  cbv beta. apply wp_bind, wp_must; [intros arg Harg | intros e He].
  2:{ assert (Hv : validated flags = Err e)
        by (unfold validated; now rewrite Htok, Heip, He).
      finish RunBadFlags. }
  assert (Hv : validated flags = Ok (haEIP, arg))
    by (unfold validated; rewrite Htok, Heip, Harg; reflexivity).
  cbv beta. apply wp_bind, wp_findElasticIPID; cbn [pst initial].
  { intros msg HL. cbv beta. apply wp_bind, wp_must; [discriminate|].
    intros e [= <-]. finish RunListFailed. }
  intros items HL. cbv beta. apply wp_bind, wp_must.
  2:{ intros e He. finish RunNotFound. }
  intros eip Hfind.
  assert (Hloc : Located s haEIP eip) by (exists items; auto).
  cbv beta. apply wp_bind, wp_slogInfo.
  destruct (eip_PrivateIP eip =? arg)%string eqn:Hsame.
  { apply String.eqb_eq in Hsame. apply wp_slogInfo. finish RunAlreadyAttached. }
  apply String.eqb_neq in Hsame.
  apply wp_bind, wp_Detach; cbn [pst record initial];
    [intros s1 HD | intros msg s1 HD].
  2:{ apply wp_bind, wp_failOnErr; [discriminate|].
      intros e [= <-]. finish RunDetachFailed. }
  apply wp_bind, wp_failOnErr; [intros _ | discriminate].
  apply wp_bind, wp_slogInfo. apply wp_bind.
  destruct (ip_findFailOverTarget_stage (arg) s1) as (r & evs & Hsel).
  eapply wp_stage; [cbn [pst record]; exact Hsel|].
  apply wp_bind, wp_must.
  2:{ intros e ->. finish RunNoTarget. }
  intros target ->. cbv beta. apply wp_bind, wp_slogInfo. apply wp_bind.
  unfold prepareTarget.
  destruct (eip_PublicIP (AttachedEIP target) =? "")%string eqn:Hocc.
  - apply String.eqb_eq in Hocc. apply wp_ret.
    pose proof (PreparedFree (InstanceID target) _
                  (MsgPreparedTarget (eip_PublicIP (AttachedEIP target))
                     (InstanceName target) (InstanceID target))
                  s1 Hocc) as HP.
    apply wp_bind, wp_failOnErr; [intros _ | discriminate].
    apply wp_bind, wp_Attach; cbn [pst record issues];
      [intros res s3 HA | intros msg s3 HA].
    + apply wp_bind, wp_must; [intros _ _ | discriminate].
      apply wp_slogInfo. finish RunAttached.
    + apply wp_bind, wp_must; [discriminate|]. intros e [= <-].
      finish RunAttachFailed.
  - apply String.eqb_neq in Hocc.
    apply wp_bind, wp_Detach; cbn [pst record issues];
      [intros s2 HD2 | intros msg s2 HD2].
    2:{ apply wp_ret. apply wp_bind, wp_failOnErr; [discriminate|].
        intros e [= <-]. finish RunPrepareFailed. }
    apply wp_bind, wp_slogInfo. apply wp_ret.
    pose proof (PreparedDetached (InstanceID target) _
                  (MsgPreparedTarget (eip_PublicIP (AttachedEIP target))
                     (InstanceName target) (InstanceID target))
                  s1 s2 Hocc HD2) as HP.
    apply wp_bind, wp_failOnErr; [intros _ | discriminate].
    apply wp_bind, wp_Attach; cbn [pst record issues];
      [intros res s3 HA | intros msg s3 HA].
    + apply wp_bind, wp_must; [intros _ _ | discriminate].
      apply wp_slogInfo. finish RunAttached.
    + apply wp_bind, wp_must; [discriminate|]. intros e [= <-].
      finish RunAttachFailed.
Qed.

End Facts.
End PrivateIPFacts.

(** ** The variant taking the peers' private addresses *)

Module PeersFacts.
Import Peers.

Section Facts.
Context {lib : GoLib} {prov : Provider}.

Lemma peers_pickFailOverTarget_loop_stage items arg s :
  exists r evs, Stage (pickFailOverTarget_loop items arg) s r evs.
Proof.
  induction items as [|instance rest IH]; cbn [pickFailOverTarget_loop].
  - eexists _, _. apply Stage_ret.
  - destruct (negb (srv_Status instance =? ServerStatusRunning)); [exact IH|].
    apply Stage_read; auto.
    intros nics. destruct (pickFailOverTarget_interfaces instance nics arg).
    + eexists _, _. apply Stage_ret.
    + exact IH.
Qed.

Lemma peers_pickFailOverTarget_stage arg s :
  exists r evs, Stage (pickFailOverTarget arg) s r evs.
Proof.
  unfold pickFailOverTarget. apply Stage_read; auto.
  intros items. apply peers_pickFailOverTarget_loop_stage.
Qed.

Lemma peers_Run_trace flags s o p tr tr' :
  Run flags s o {| pst := p; trace := tr |} -> tr = tr' ->
  Run flags s o {| pst := p; trace := tr' |}.
Proof. now intros H <-. Qed.

Ltac norm_trace :=
  cbn [record issues pst trace initial app];
  rewrite <- ?app_assoc; cbn [app]; reflexivity.

Ltac finish C :=
  cbn [record issues pst trace initial];
  eapply peers_Run_trace; [ eapply C; eassumption | norm_trace ].

Lemma peers_main_run flags s :
  Run flags s (fst (main flags (initial s))) (snd (main flags (initial s))).
Proof.
  apply (wp_run (main flags) (Run flags s)).
  unfold main.
  apply wp_bind, wp_must; [intros token Htok | intros e He].
  2:{ assert (Hv : validated flags = Err e) by (unfold validated; now rewrite He).
      finish RunBadFlags. }
  cbv beta. apply wp_bind, wp_must; [intros haEIP Heip | intros e He].
  2:{ assert (Hv : validated flags = Err e)
        by (unfold validated; now rewrite Htok, He).
      finish RunBadFlags. }
  cbv beta. apply wp_bind, wp_must; [intros arg Harg | intros e He].
  2:{ assert (Hv : validated flags = Err e)
        by (unfold validated; now rewrite Htok, Heip, He).
      finish RunBadFlags. }
  assert (Hv : validated flags = Ok (haEIP, arg))
    by (unfold validated; rewrite Htok, Heip, Harg; reflexivity).
  cbv beta. apply wp_bind, wp_findElasticIPID; cbn [pst initial].
  { intros msg HL. cbv beta. apply wp_bind, wp_must; [discriminate|].
    intros e [= <-]. finish RunListFailed. }
  intros items HL. cbv beta. apply wp_bind, wp_must.
  2:{ intros e He. finish RunNotFound. }
  intros eip Hfind.
  assert (Hloc : Located s haEIP eip) by (exists items; auto).
  cbv beta. apply wp_bind, wp_slogInfo.
  apply wp_bind, wp_Detach; cbn [pst record initial];
    [intros s1 HD | intros msg s1 HD].
  2:{ apply wp_bind, wp_failOnErr; [discriminate|].
      intros e [= <-]. finish RunDetachFailed. }
  apply wp_bind, wp_failOnErr; [intros _ | discriminate].
  apply wp_bind, wp_slogInfo. cbv zeta. apply wp_bind.
  destruct (peers_pickFailOverTarget_stage
              (filterPeers arg (eip_PrivateIP eip)) s1) as (r & evs & Hsel).
  eapply wp_stage; [cbn [pst record]; exact Hsel|].
  apply wp_bind, wp_must.
  2:{ intros e ->. finish RunNoTarget. }
  intros target ->. cbv beta. apply wp_bind, wp_slogInfo. apply wp_bind.
  unfold prepareTarget.
  destruct (eip_PublicIP (AttachedEIP target) =? "")%string eqn:Hocc.
  - apply String.eqb_eq in Hocc. apply wp_ret.
    pose proof (PreparedFree (InstanceID target) _
                  (MsgPreparedTarget (eip_PublicIP (AttachedEIP target))
                     (InstanceName target) (InstanceID target))
                  s1 Hocc) as HP.
    apply wp_bind, wp_failOnErr; [intros _ | discriminate].
    apply wp_bind, wp_Attach; cbn [pst record issues];
      [intros res s3 HA | intros msg s3 HA].
    + apply wp_bind, wp_must; [intros _ _ | discriminate].
      apply wp_slogInfo. finish RunAttached.
    + apply wp_bind, wp_must; [discriminate|]. intros e [= <-].
      finish RunAttachFailed.
  - apply String.eqb_neq in Hocc.
    apply wp_bind, wp_Detach; cbn [pst record issues];
      [intros s2 HD2 | intros msg s2 HD2].
    2:{ apply wp_ret. apply wp_bind, wp_failOnErr; [discriminate|].
        intros e [= <-]. finish RunPrepareFailed. }
    apply wp_bind, wp_slogInfo. apply wp_ret.
    pose proof (PreparedDetached (InstanceID target) _
                  (MsgPreparedTarget (eip_PublicIP (AttachedEIP target))
                     (InstanceName target) (InstanceID target))
                  s1 s2 Hocc HD2) as HP.
    apply wp_bind, wp_failOnErr; [intros _ | discriminate].
    apply wp_bind, wp_Attach; cbn [pst record issues];
      [intros res s3 HA | intros msg s3 HA].
    + apply wp_bind, wp_must; [intros _ _ | discriminate].
      apply wp_slogInfo. finish RunAttached.
    + apply wp_bind, wp_must; [discriminate|]. intros e [= <-].
      finish RunAttachFailed.
Qed.

End Facts.
End PeersFacts.

(** ** Runs are determined by the flags and the provider's state *)

Section RunFacts.
Context {lib : GoLib} {prov : Provider}.

Lemma Prepared_fun inst occupant m s1 pevs s2 pevs' s2' :
  Prepared inst occupant m s1 pevs s2 ->
  Prepared inst occupant m s1 pevs' s2' ->
  pevs = pevs' /\ s2 = s2'.
Proof.
  intros [H1 | s2a H1 HD1] [H2 | s2b H2 HD2]; try contradiction; auto.
  rewrite HD1 in HD2. now inversion HD2.
Qed.

Lemma Prepared_failed inst occupant m s1 pevs s2 msg s2' :
  Prepared inst occupant m s1 pevs s2 ->
  eip_PublicIP occupant <> "" ->
  DetachElasticIP inst (eip_ID occupant) s1 = (Some msg, s2') ->
  False.
Proof.
  intros [H1 | s2a H1 HD1] Hocc HD; [contradiction|].
  rewrite HD1 in HD. discriminate.
Qed.

End RunFacts.

Ltac same_run :=
  repeat match goal with
  | H1 : ?x = ?a, H2 : ?x = ?b |- _ =>
      first [ constr_eq a b; clear H2
            | rewrite H1 in H2; first [discriminate H2 | inversion H2; subst; clear H2] ]
  | H1 : Located ?s ?h ?e1, H2 : Located ?s ?h ?e2 |- _ =>
      first [ constr_eq e1 e2; clear H2
            | pose proof (Located_fun _ _ _ _ H1 H2); subst; clear H2 ]
  | H1 : Located ?s ?h ?e, H2 : ListElasticIPs ?s = _ |- _ =>
      let items := fresh "items" in
      let HL := fresh "HL" in
      let HF := fresh "HF" in
      destruct H1 as (items & HL & HF); rewrite HL in H2;
      first [discriminate H2 | inversion H2; subst; clear H2; congruence]
  | H1 : Stage ?m ?s ?r1 ?e1, H2 : Stage ?m ?s ?r2 ?e2 |- _ =>
      first [ constr_eq r1 r2; constr_eq e1 e2; clear H2
            | let Hr := fresh "Hr" in
              let He := fresh "He" in
              destruct (Stage_fun _ _ _ _ _ _ H1 H2) as [Hr He];
              first [discriminate Hr | inversion Hr; subst; clear H2] ]
  | H1 : Prepared ?i ?o ?m ?s ?p1 ?t1, H2 : Prepared ?i ?o ?m ?s ?p2 ?t2 |- _ =>
      first [ constr_eq p1 p2; constr_eq t1 t2; clear H2
            | let Hp := fresh "Hp" in
              let Ht := fresh "Ht" in
              destruct (Prepared_fun _ _ _ _ _ _ _ _ H1 H2) as [Hp Ht];
              subst; clear H2 ]
  | H1 : Prepared ?i ?o _ ?s _ _, H2 : eip_PublicIP ?o <> "",
    H3 : DetachElasticIP ?i (eip_ID ?o) ?s = (Some _, _) |- _ =>
      exfalso; exact (Prepared_failed _ _ _ _ _ _ _ _ H1 H2 H3)
  end.

Module InstanceIDsRunFacts.
Import InstanceIDs InstanceIDsFacts.

Section Facts.
Context {lib : GoLib} {prov : Provider}.

Lemma ids_Run_fun flags s o st o' st' :
  Run flags s o st -> Run flags s o' st' -> o = o' /\ st = st'.
Proof.
  intros H1 H2. inversion H1; subst; inversion H2; subst; same_run; auto.
Qed.

Lemma ids_main_eq flags s o st :
  Run flags s o st -> main flags (initial s) = (o, st).
Proof.
  intros H. destruct (ids_Run_fun _ _ _ _ _ _ H (ids_main_run flags s)) as [-> ->].
  now destruct (main flags (initial s)).
Qed.

End Facts.
End InstanceIDsRunFacts.

Module PrivateIPRunFacts.
Import PrivateIP PrivateIPFacts.

Section Facts.
Context {lib : GoLib} {prov : Provider}.

Lemma ip_Run_fun flags s o st o' st' :
  Run flags s o st -> Run flags s o' st' -> o = o' /\ st = st'.
Proof.
  intros H1 H2.
  inversion H1; subst; inversion H2; subst; same_run; try contradiction; auto.
Qed.

Lemma ip_main_eq flags s o st :
  Run flags s o st -> main flags (initial s) = (o, st).
Proof.
  intros H. destruct (ip_Run_fun _ _ _ _ _ _ H (ip_main_run flags s)) as [-> ->].
  now destruct (main flags (initial s)).
Qed.

End Facts.
End PrivateIPRunFacts.

Module PeersRunFacts.
Import Peers PeersFacts.

Section Facts.
Context {lib : GoLib} {prov : Provider}.

Lemma peers_Run_fun flags s o st o' st' :
  Run flags s o st -> Run flags s o' st' -> o = o' /\ st = st'.
Proof.
  intros H1 H2. inversion H1; subst; inversion H2; subst; same_run; auto.
Qed.

Lemma peers_main_eq flags s o st :
  Run flags s o st -> main flags (initial s) = (o, st).
Proof.
  intros H. destruct (peers_Run_fun _ _ _ _ _ _ H (peers_main_run flags s)) as [-> ->].
  now destruct (main flags (initial s)).
Qed.

End Facts.
End PeersRunFacts.

(** ** Selection by instance ID *)

Ltac mut_stage :=
  repeat match goal with
  | H : Stage _ _ _ ?evs |- context [mutations ?evs] =>
      rewrite (Stage_mutations _ _ _ _ H)
  end.

Module InstanceIDsSelection.
Import InstanceIDs InstanceIDsFacts InstanceIDsRunFacts.

Section Facts.
Context {lib : GoLib} {prov : Provider}.

Lemma ids_pickNextInstance_indep ids f st st' :
  pst st = pst st' ->
  fst (pickNextInstance ids f st) = fst (pickNextInstance ids f st').
Proof.
  intros Hs.
  destruct (ids_pickNextInstance_stage ids f (pst st)) as (r & evs & HS).
  rewrite (Stage_result _ _ _ _ st HS eq_refl).
  now rewrite (Stage_result _ _ _ _ st' HS (eq_sym Hs)).
Qed.

Lemma ids_pickNextInstance_cons i rest f st :
  fst (pickNextInstance (i :: rest) f st) =
  if i =? f then fst (pickNextInstance rest f st)
  else match GetServer i (pst st) with
       | inl msg => Ret (Err (ErrProvider msg))
       | inr server =>
           if srv_Status server =? ServerStatusRunning then Ret (Ok i)
           else fst (pickNextInstance rest f st)
       end.
Proof.
  cbn [pickNextInstance]. destruct (i =? f); [reflexivity|].
  unfold bind, serverGet, read.
  destruct (GetServer i (pst st)) as [msg|server]; cbn; [reflexivity|].
  destruct (srv_Status server =? ServerStatusRunning); cbn; [reflexivity|].
  now apply ids_pickNextInstance_indep.
Qed.

Lemma ids_pickNextInstance_ok ids f st id :
  fst (pickNextInstance ids f st) = Ret (Ok id) <-> firstRunning ids f (pst st) id.
Proof.
  induction ids as [|i rest IH].
  - split; [discriminate|]. intros (pre & post & H & _). now destruct pre.
  - rewrite ids_pickNextInstance_cons.
    destruct (Z.eqb_spec i f) as [->|Hif].
    + rewrite IH. split.
      * intros (pre & post & -> & Hpre & Hid & Hrun).
        exists (f :: pre), post. repeat split; auto.
        constructor; [now left | assumption].
      * intros ([|x pre] & post & H & Hpre & Hid & Hrun); inversion H; subst.
        -- contradiction.
        -- inversion Hpre; subst. exists pre, post. auto.
    + destruct (GetServer i (pst st)) as [msg|server] eqn:HG.
      * split; [discriminate|].
        intros ([|x pre] & post & H & Hpre & Hid & Hrun); inversion H; subst.
        -- destruct Hrun as (srv & Hsrv & _). congruence.
        -- inversion Hpre as [|? ? [Hx | (srv & Hsrv & _)]]; subst; congruence.
      * destruct (Z.eqb_spec (srv_Status server) ServerStatusRunning) as [Hst|Hst].
        -- split.
           ++ intros [= <-]. exists [], rest. repeat split; auto.
              exists server. auto.
           ++ intros ([|x pre] & post & H & Hpre & Hid & Hrun); inversion H; subst.
              ** reflexivity.
              ** inversion Hpre as [|? ? [Hx | (srv & Hsrv & Hne)]]; subst;
                   congruence.
        -- rewrite IH. split.
           ++ intros (pre & post & -> & Hpre & Hid & Hrun).
              exists (i :: pre), post. repeat split; auto.
              constructor; [right; exists server; auto | assumption].
           ++ intros ([|x pre] & post & H & Hpre & Hid & Hrun); inversion H; subst.
              ** destruct Hrun as (srv & Hsrv & Hs). congruence.
              ** inversion Hpre; subst. exists pre, post. auto.
Qed.

Lemma ids_pickNextInstance_none ids f st :
  Forall (skipped f (pst st)) ids ->
  fst (pickNextInstance ids f st) = Ret (Err ErrNoAvailableInstance).
Proof.
  induction 1 as [|i rest Hi _ IH]; [reflexivity|].
  rewrite ids_pickNextInstance_cons.
  destruct (Z.eqb_spec i f) as [->|Hif]; [exact IH|].
  destruct Hi as [Hi | (server & HG & Hst)]; [contradiction|].
  rewrite HG. apply Z.eqb_neq in Hst. now rewrite Hst.
Qed.

Lemma ids_loop_ok items ip nic :
  pickNetworkInterface_loop items ip = Ok nic <-> firstInside items ip nic.
Proof.
  induction items as [|x rest IH]; cbn.
  - split; [discriminate|]. intros (pre & post & H & _). now destruct pre.
  - destruct (ParseCIDR (nic_CIDR x)) as [ipNet|] eqn:Hx.
    + destruct (Contains ipNet ip) eqn:Hc.
      * split.
        -- intros [= <-]. exists [], rest. repeat split; auto. exists ipNet; auto.
        -- intros ([|y pre] & post & H & Hpre & Hin); inversion H; subst.
           ++ reflexivity.
           ++ inversion Hpre as [|? ? (n & Hn & Hout)]; subst. congruence.
      * rewrite IH. split.
        -- intros (pre & post & -> & Hpre & Hin). exists (x :: pre), post.
           repeat split; auto. constructor; [exists ipNet; auto | assumption].
        -- intros ([|y pre] & post & H & Hpre & Hin); inversion H; subst.
           ++ destruct Hin as (n & Hn & Hin). congruence.
           ++ inversion Hpre; subst. exists pre, post. auto.
    + split; [discriminate|].
      intros ([|y pre] & post & H & Hpre & Hin); inversion H; subst.
      * destruct Hin as (n & Hn & _). congruence.
      * inversion Hpre as [|? ? (n & Hn & _)]; subst. congruence.
Qed.

Lemma ids_loop_none items ip :
  pickNetworkInterface_loop items ip = Err ErrNoNICInNetwork <->
  Forall (outside ip) items.
Proof.
  induction items as [|x rest IH]; cbn.
  - split; auto.
  - destruct (ParseCIDR (nic_CIDR x)) as [ipNet|] eqn:Hx.
    + destruct (Contains ipNet ip) eqn:Hc.
      * split; [discriminate|].
        intros H. inversion H as [|? ? (n & Hn & Hout)]; subst. congruence.
      * rewrite IH. split.
        -- intros H. constructor; [exists ipNet; auto | assumption].
        -- intros H. now inversion H.
    + split; [discriminate|].
      intros H. inversion H as [|? ? (n & Hn & _)]; subst. congruence.
Qed.

Lemma ids_loop_invalid items ip :
  pickNetworkInterface_loop items ip = Err ErrInvalidCIDR <->
  exists pre nic post,
    items = pre ++ nic :: post /\ Forall (outside ip) pre /\
    ParseCIDR (nic_CIDR nic) = None.
Proof.
  induction items as [|x rest IH]; cbn.
  - split; [discriminate|]. intros (pre & nic & post & H & _). now destruct pre.
  - destruct (ParseCIDR (nic_CIDR x)) as [ipNet|] eqn:Hx.
    + destruct (Contains ipNet ip) eqn:Hc.
      * split; [discriminate|].
        intros ([|y pre] & nic & post & H & Hpre & Hbad); inversion H; subst.
        -- congruence.
        -- inversion Hpre as [|? ? (n & Hn & Hout)]; subst. congruence.
      * rewrite IH. split.
        -- intros (pre & nic & post & -> & Hpre & Hbad).
           exists (x :: pre), nic, post. repeat split; auto.
           constructor; [exists ipNet; auto | assumption].
        -- intros ([|y pre] & nic & post & H & Hpre & Hbad); inversion H; subst.
           ++ congruence.
           ++ inversion Hpre; subst. exists pre, nic, post. auto.
    + split; [intros _ | reflexivity].
      exists [], x, rest. auto.
Qed.

Lemma ids_pickNetworkInterface_result instanceID previousPrivateIP st :
  fst (pickNetworkInterface instanceID previousPrivateIP st) =
  Ret match ListNetworkInterfaces instanceID (pst st) with
      | inl msg => Err (ErrProvider msg)
      | inr items =>
          match ParseIP previousPrivateIP with
          | None => Err ErrInvalidPrivateIP
          | Some previousIP => pickNetworkInterface_loop items previousIP
          end
      end.
Proof.
  unfold pickNetworkInterface, bind, networkInterfacesList, read.
  destruct (ListNetworkInterfaces instanceID (pst st)); cbn; [reflexivity|].
  now destruct (ParseIP previousPrivateIP).
Qed.

(** C9. While [pickNetworkInterface] scans the interfaces of the picked
    instance, an interface whose subnet does not parse ends the selection
    with the error "invalid CIDR": the interfaces after it are not looked
    at, whatever their subnets. *)
Theorem ids_invalid_CIDR_aborts_selection
  (instanceID : Z) (previousPrivateIP : string) (st : RunState)
  (previousIP : IP) (pre post : list NetworkInterface) (nic : NetworkInterface) :
  ListNetworkInterfaces instanceID (pst st) = inr (pre ++ nic :: post) ->
  ParseIP previousPrivateIP = Some previousIP ->
  Forall (outside previousIP) pre ->
  ParseCIDR (nic_CIDR nic) = None ->
  fst (pickNetworkInterface instanceID previousPrivateIP st)
    = Ret (Err ErrInvalidCIDR).
Proof.
  intros HL HP Hpre Hbad.
  rewrite ids_pickNetworkInterface_result, HL, HP. f_equal.
  apply ids_loop_invalid. exists pre, nic, post. auto.
Qed.

Lemma ids_pickNextInstance_Stage_ok ids f s id :
  firstRunning ids f s id ->
  exists evs, Stage (pickNextInstance ids f) s (Ok id) evs.
Proof.
  intros H. destruct (ids_pickNextInstance_stage ids f s) as (r & evs & HS).
  exists evs. replace (Ok id) with r; [assumption|].
  pose proof (Stage_result _ _ _ _ (initial s) HS eq_refl) as Hr.
  apply (ids_pickNextInstance_ok ids f (initial s) id) in H. congruence.
Qed.

Lemma ids_pickNextInstance_Stage_none ids f s :
  Forall (skipped f s) ids ->
  exists evs, Stage (pickNextInstance ids f) s (Err ErrNoAvailableInstance) evs.
Proof.
  intros H. destruct (ids_pickNextInstance_stage ids f s) as (r & evs & HS).
  exists evs. replace (Err ErrNoAvailableInstance) with r; [assumption|].
  pose proof (Stage_result _ _ _ _ (initial s) HS eq_refl) as Hr.
  apply (ids_pickNextInstance_none ids f (initial s)) in H. congruence.
Qed.

Lemma ids_pickNetworkInterface_Stage instanceID previousPrivateIP s r :
  fst (pickNetworkInterface instanceID previousPrivateIP (initial s)) = Ret r ->
  exists evs, Stage (pickNetworkInterface instanceID previousPrivateIP) s r evs.
Proof.
  intros H.
  destruct (ids_pickNetworkInterface_stage instanceID previousPrivateIP s)
    as (r' & evs & HS).
  exists evs. replace r with r'; [assumption|].
  pose proof (Stage_result _ _ _ _ (initial s) HS eq_refl) as Hr. congruence.
Qed.

(** The run that finds no instance to fail over to. *)
Lemma ids_run_no_instance flags s haEIP ids eip s1 :
  validated flags = Ok (haEIP, ids) ->
  Located s haEIP eip ->
  DetachElasticIP (att_ID (eip_Attachment eip)) (eip_ID eip) s = (None, s1) ->
  Forall (skipped (att_ID (eip_Attachment eip)) s1) ids ->
  exists evs,
    main flags (initial s)
      = (Exit 1,
         {| pst := s1;
            trace := [ACall CListElasticIPs true; found eip;
                      ACall (detachCall eip) true; detachedLog eip]
                     ++ evs ++ [failure ErrNoAvailableInstance] |})
    /\ mutations evs = [].
Proof.
  intros Hv Hloc HD Hskip.
  destruct (ids_pickNextInstance_Stage_none _ _ _ Hskip) as (evs & HS).
  exists evs. split; [|exact (Stage_mutations _ _ _ _ HS)].
  apply ids_main_eq. eapply RunNoInstance; eassumption.
Qed.

(** The run whose picked instance yields no interface. *)
Lemma ids_run_no_interface flags s haEIP ids eip s1 instanceID e :
  validated flags = Ok (haEIP, ids) ->
  Located s haEIP eip ->
  DetachElasticIP (att_ID (eip_Attachment eip)) (eip_ID eip) s = (None, s1) ->
  firstRunning ids (att_ID (eip_Attachment eip)) s1 instanceID ->
  fst (pickNetworkInterface instanceID (eip_PrivateIP eip) (initial s1))
    = Ret (Err e) ->
  exists evs evs2,
    main flags (initial s)
      = (Exit 1,
         {| pst := s1;
            trace := [ACall CListElasticIPs true; found eip;
                      ACall (detachCall eip) true; detachedLog eip]
                     ++ evs ++ [ALog INFO (MsgPickedInstance instanceID)]
                     ++ evs2 ++ [failure e] |})
    /\ mutations evs = [] /\ mutations evs2 = [].
Proof.
  intros Hv Hloc HD Hfirst Hnic.
  destruct (ids_pickNextInstance_Stage_ok _ _ _ _ Hfirst) as (evs & HS).
  destruct (ids_pickNetworkInterface_Stage _ _ _ _ Hnic) as (evs2 & HS2).
  exists evs, evs2. split; [|split].
  - apply ids_main_eq. eapply RunNoInterface; eassumption.
  - exact (Stage_mutations _ _ _ _ HS).
  - exact (Stage_mutations _ _ _ _ HS2).
Qed.

Lemma find_first {A} (p : A -> bool) pre x post :
  Forall (fun y => p y = false) pre -> p x = true ->
  find p (pre ++ x :: post) = Some x.
Proof.
  induction 1 as [|y pre Hy _ IH]; intros Hx; cbn.
  - now rewrite Hx.
  - rewrite Hy. auto.
Qed.

Lemma ids_inside_sharesSubnet ip nic : inside ip nic <-> sharesSubnet ip nic = true.
Proof.
  unfold inside, sharesSubnet. split.
  - intros (n & -> & H). exact H.
  - destruct (ParseCIDR (nic_CIDR nic)) as [n|]; [|discriminate]. eauto.
Qed.

(** C2, as the code has it. The instance [pickNextInstance] returns is
    the first entry of the list, in the caller's order and other than the
    failed instance, that the provider reports as running, whatever the
    order of the list is; its interfaces are not looked at for that.
    [pickNetworkInterface] then returns the first interface of that
    instance whose subnet contains the previous address, and the error
    "no network interface in same network" when all its subnets parse and
    none contains the address.  Whenever both steps succeed, the instance
    is the one the specification's property names. *)
Theorem ids_target_is_first_running
  (ids : list Z) (failed : Z) (previousPrivateIP : string) (st : RunState) :
  (forall id,
     fst (pickNextInstance ids failed st) = Ret (Ok id) <->
     firstRunning ids failed (pst st) id)
  /\ (forall id items previousIP,
        ListNetworkInterfaces id (pst st) = inr items ->
        ParseIP previousPrivateIP = Some previousIP ->
        (forall nic,
           fst (pickNetworkInterface id previousPrivateIP st) = Ret (Ok nic) <->
           firstInside items previousIP nic)
        /\ (fst (pickNetworkInterface id previousPrivateIP st)
              = Ret (Err ErrNoNICInNetwork) <->
            Forall (outside previousIP) items))
  /\ (forall id nic,
        fst (pickNextInstance ids failed st) = Ret (Ok id) ->
        fst (pickNetworkInterface id previousPrivateIP st) = Ret (Ok nic) ->
        specifiedTarget ids failed previousPrivateIP (pst st) = Some id).
Proof.
  split; [|split].
  - intros id. apply ids_pickNextInstance_ok.
  - intros id items ip HL HP. rewrite ids_pickNetworkInterface_result, HL, HP.
    split.
    + intros nic. rewrite <- ids_loop_ok. split; [now intros [= ->] | now intros ->].
    + rewrite <- ids_loop_none. split; [now intros [= ->] | now intros ->].
  - intros id nic Hid Hnic.
    apply ids_pickNextInstance_ok in Hid.
    destruct Hid as (pre & post & -> & Hpre & Hne & server & HG & Hrun).
    rewrite ids_pickNetworkInterface_result in Hnic.
    destruct (ListNetworkInterfaces id (pst st)) as [msg|items] eqn:HL;
      [discriminate|].
    destruct (ParseIP previousPrivateIP) as [ip|] eqn:HP; [|discriminate].
    injection Hnic as Hloop. apply ids_loop_ok in Hloop.
    destruct Hloop as (npre & npost & -> & _ & Hin).
    unfold specifiedTarget. apply find_first.
    + eapply Forall_impl; [|exact Hpre].
      intros x [-> | (srv & Hsrv & Hst)].
      * now rewrite Z.eqb_refl.
      * unfold isRunning. rewrite Hsrv. apply Z.eqb_neq in Hst. rewrite Hst.
        now rewrite andb_false_r.
    + apply Z.eqb_neq in Hne. rewrite Hne. unfold isRunning, hasInterfaceInSubnet.
      rewrite HG, Hrun, Z.eqb_refl, HP, HL. cbn.
      rewrite existsb_app. cbn.
      apply ids_inside_sharesSubnet in Hin. rewrite Hin.
      now rewrite orb_true_r.
Qed.

Lemma ids_main_cases flags s :
  exists o st, main flags (initial s) = (o, st) /\ Run flags s o st.
Proof.
  exists (fst (main flags (initial s))), (snd (main flags (initial s))).
  split; [now destruct (main flags (initial s)) | apply ids_main_run].
Qed.

Lemma ids_pickNextInstance_only_failed ids f st :
  Forall (fun i => i = f) ids ->
  pickNextInstance ids f st = (Ret (Err ErrNoAvailableInstance), st).
Proof.
  induction 1 as [|i rest -> _ IH]; [reflexivity|].
  cbn [pickNextInstance]. now rewrite Z.eqb_refl.
Qed.

Lemma ids_unparsable_no_interface instanceID previousPrivateIP s nic evs :
  ParseIP previousPrivateIP = None ->
  Stage (pickNetworkInterface instanceID previousPrivateIP) s (Ok nic) evs ->
  False.
Proof.
  intros HP HS. pose proof (Stage_result _ _ _ _ (initial s) HS eq_refl) as Hr.
  rewrite ids_pickNetworkInterface_result, HP in Hr.
  destruct (ListNetworkInterfaces instanceID (pst (initial s))); discriminate.
Qed.

Lemma in_prefix4 {A} (a b c d x : A) rest pre post :
  a :: b :: c :: d :: rest = pre ++ x :: post ->
  x <> a -> x <> b -> x <> c -> x <> d -> In c pre.
Proof.
  intros H Ha Hb Hc Hd.
  destruct pre as [|a' [|b' [|c' [|d' pre]]]]; cbn in H; inversion H; subst;
    try congruence.
  cbn. auto.
Qed.

(** C3. Once the elastic IP is detached, the first entry of the list that
    is running and is not the failed instance is the instance picked,
    whatever its interfaces and whatever follows it in the list; the
    interface is the first of that instance's interfaces whose subnet
    contains the previous private address; when none of them does, the run
    ends with status 1 and the error "no network interface in same
    network", having attached the elastic IP nowhere: no later candidate is
    tried.  When the list holds only the failed instance, the run ends
    with status 1 and the error "no available instance found" right after
    the detach. *)
Theorem ids_first_running_instance_wins
  (flags : Flags) (s s1 : PState) (haEIP : string) (ids : list Z)
  (eip : ElasticIP) :
  validated flags = Ok (haEIP, ids) ->
  Located s haEIP eip ->
  DetachElasticIP (att_ID (eip_Attachment eip)) (eip_ID eip) s = (None, s1) ->
  (forall st instanceID,
     pst st = s1 ->
     firstRunning ids (att_ID (eip_Attachment eip)) s1 instanceID ->
     fst (pickNextInstance ids (att_ID (eip_Attachment eip)) st)
       = Ret (Ok instanceID))
  /\ (forall st instanceID items previousIP nic,
        pst st = s1 ->
        ListNetworkInterfaces instanceID s1 = inr items ->
        ParseIP (eip_PrivateIP eip) = Some previousIP ->
        firstInside items previousIP nic ->
        fst (pickNetworkInterface instanceID (eip_PrivateIP eip) st)
          = Ret (Ok nic))
  /\ (forall instanceID items previousIP,
        firstRunning ids (att_ID (eip_Attachment eip)) s1 instanceID ->
        ListNetworkInterfaces instanceID s1 = inr items ->
        ParseIP (eip_PrivateIP eip) = Some previousIP ->
        Forall (outside previousIP) items ->
        exitCode (main flags (initial s)) = 1 /\
        (exists pre,
           trace (snd (main flags (initial s)))
             = pre ++ [failure ErrNoNICInNetwork]) /\
        mutations (trace (snd (main flags (initial s)))) = [detachCall eip])
  /\ (Forall (fun i => i = att_ID (eip_Attachment eip)) ids ->
      exitCode (main flags (initial s)) = 1 /\
      trace (snd (main flags (initial s)))
        = [ACall CListElasticIPs true; found eip;
           ACall (detachCall eip) true; detachedLog eip;
           failure ErrNoAvailableInstance]).
Proof.
  intros Hv Hloc HD. split; [|split; [|split]].
  - intros st id <- Hfirst. now apply ids_pickNextInstance_ok.
  - intros st id items ip nic <- HL HP Hin.
    rewrite ids_pickNetworkInterface_result, HL, HP. f_equal.
    now apply ids_loop_ok.
  - intros id items ip Hfirst HL HP Hout.
    assert (Hnic : fst (pickNetworkInterface id (eip_PrivateIP eip) (initial s1))
                   = Ret (Err ErrNoNICInNetwork)).
    { rewrite ids_pickNetworkInterface_result. cbn [pst initial].
      rewrite HL, HP. f_equal. now apply ids_loop_none. }
    destruct (ids_run_no_interface _ _ _ _ _ _ _ _ Hv Hloc HD Hfirst Hnic)
      as (evs & evs2 & -> & Hm & Hm2).
    split; [reflexivity|]. split.
    + cbn [snd trace]. eexists. rewrite !app_assoc. reflexivity.
    + cbn [snd trace]. rewrite !mutations_app, Hm, Hm2. reflexivity.
  - intros Hall.
    assert (HS : Stage (pickNextInstance ids (att_ID (eip_Attachment eip))) s1
                   (Err ErrNoAvailableInstance) []).
    { split.
      - intros st _. rewrite issues_nil.
        now apply ids_pickNextInstance_only_failed.
      - split; [constructor | left; constructor]. }
    rewrite (ids_main_eq _ _ _ _ (RunNoInstance _ _ _ _ _ _ _ _ Hv Hloc HD HS)).
    split; reflexivity.
Qed.

(** C10. When the private address recorded on the elastic IP does not
    parse, as the empty address of an unattached elastic IP,
    [pickNetworkInterface] answers "invalid private IP" whenever the
    interfaces could be listed; the run ends with status 1 and never calls
    attach; the interfaces are listed only after the elastic IP's detach
    call has succeeded; and when the detach succeeds, an instance is
    picked and its interfaces are listed, the run ends on that very error,
    its only detach or attach call being the detach of the elastic IP. *)
Theorem ids_unparsable_private_address_aborts_after_detach
  (flags : Flags) (s : PState) (haEIP : string) (ids : list Z)
  (eip : ElasticIP) :
  validated flags = Ok (haEIP, ids) ->
  Located s haEIP eip ->
  eip_PrivateIP eip = "" \/ ParseIP (eip_PrivateIP eip) = None ->
  (forall st instanceID items,
     ListNetworkInterfaces instanceID (pst st) = inr items ->
     fst (pickNetworkInterface instanceID (eip_PrivateIP eip) st)
       = Ret (Err ErrInvalidPrivateIP))
  /\ exitCode (main flags (initial s)) = 1
  /\ (forall c,
        In c (mutations (trace (snd (main flags (initial s))))) ->
        isAttach c = false)
  /\ (forall pre i ok post,
        trace (snd (main flags (initial s)))
          = pre ++ ACall (CListNetworkInterfaces i) ok :: post ->
        In (ACall (detachCall eip) true) pre)
  /\ (forall s1 instanceID items,
        DetachElasticIP (att_ID (eip_Attachment eip)) (eip_ID eip) s = (None, s1) ->
        firstRunning ids (att_ID (eip_Attachment eip)) s1 instanceID ->
        ListNetworkInterfaces instanceID s1 = inr items ->
        (exists pre,
           trace (snd (main flags (initial s)))
             = pre ++ [failure ErrInvalidPrivateIP]) /\
        mutations (trace (snd (main flags (initial s)))) = [detachCall eip] /\
        pst (snd (main flags (initial s))) = s1).
Proof.
  intros Hv Hloc Hbad.
  assert (HP : ParseIP (eip_PrivateIP eip) = None)
    by (destruct Hbad as [-> | H]; [apply ParseIP_empty | exact H]).
  split; [|split; [|split; [|split]]].
  - intros st id items HL. now rewrite ids_pickNetworkInterface_result, HL, HP.
  - destruct (ids_main_cases flags s) as (o & st & -> & HR).
    inversion HR; subst; same_run; try reflexivity;
      exfalso; eapply ids_unparsable_no_interface; eassumption.
  - destruct (ids_main_cases flags s) as (o & st & -> & HR). intros c.
    inversion HR; subst; same_run;
      try (exfalso; eapply ids_unparsable_no_interface; eassumption);
      cbn [snd trace]; rewrite ?mutations_app; mut_stage; cbn;
      intros Hin; repeat (destruct Hin as [<- | Hin]; [reflexivity|]);
      contradiction.
  - destruct (ids_main_cases flags s) as (o & st & -> & HR).
    intros pre i ok post.
    inversion HR; subst; same_run;
      try (exfalso; eapply ids_unparsable_no_interface; eassumption);
      cbn [snd trace app]; intros Heq;
      try (eapply in_prefix4; [exact Heq | discriminate ..]);
      repeat (destruct pre as [|? pre]; cbn in Heq; try discriminate;
              injection Heq as <- Heq).
  - intros s1 id items HD Hfirst HL.
    assert (Hnic : fst (pickNetworkInterface id (eip_PrivateIP eip) (initial s1))
                   = Ret (Err ErrInvalidPrivateIP)).
    { rewrite ids_pickNetworkInterface_result. cbn [pst initial].
      now rewrite HL, HP. }
    destruct (ids_run_no_interface _ _ _ _ _ _ _ _ Hv Hloc HD Hfirst Hnic)
      as (evs & evs2 & -> & Hm & Hm2).
    cbn [snd trace pst]. split; [|split; [|reflexivity]].
    + eexists. rewrite !app_assoc. reflexivity.
    + rewrite !mutations_app, Hm, Hm2. reflexivity.
Qed.

End Facts.

(** C2, as the specification states it, fails: with candidates 2 and 3
    both running and only instance 3 in the subnet of the previous
    address, the specification names instance 3, while the code picks
    instance 2, finds no interface on it and ends the run with status 1,
    the elastic IP detached and attached nowhere. *)
Lemma ids_later_eligible_candidate_not_chosen :
  specifiedTarget (lib := IPv4.lib) (prov := Fake.prov) [2; 3] 1 "10.0.0.1"
    (Examples.afterDetach Examples.laterEligible) = Some 3
  /\ fst (pickNextInstance [2; 3] 1
            (Examples.start (Examples.afterDetach Examples.laterEligible)))
     = Ret (Ok 2)
  /\ fst (pickNetworkInterface (lib := IPv4.lib) 2 "10.0.0.1"
            (Examples.start (Examples.afterDetach Examples.laterEligible)))
     = Ret (Err ErrNoNICInNetwork)
  /\ exitCode (Examples.runIDs "2,3" Examples.laterEligible) = 1
  /\ mutations (trace (snd (Examples.runIDs "2,3" Examples.laterEligible)))
     = [CDetach 1 7].
Proof. repeat split; vm_compute; reflexivity. Qed.

(** On instance 3 of [Examples.malformedSubnet] the first interface has
    the subnet 10.0.0.0/33: the selection ends there, although the next
    interface is in the subnet of 10.0.0.1. *)
Lemma ids_invalid_CIDR_aborts_selection_witness :
  fst (pickNetworkInterface (lib := IPv4.lib) 3 "10.0.0.1"
         (Examples.start Examples.malformedSubnet))
    = Ret (Err ErrInvalidCIDR).
Proof.
  apply (ids_invalid_CIDR_aborts_selection (lib := IPv4.lib) (prov := Fake.prov)
           3 "10.0.0.1" (Examples.start Examples.malformedSubnet)
           167772161 [] [Fake.nicC] Examples.nicMalformed).
  - reflexivity.
  - reflexivity.
  - constructor.
  - reflexivity.
Defined.

(** On [Examples.laterEligible] with candidates 2 and 3, instance 2 is
    picked, has no interface in the subnet of 10.0.0.1, and the run ends
    without trying instance 3. *)
Lemma ids_first_running_instance_wins_witness :
  exitCode (Examples.runIDs "2,3" Examples.laterEligible) = 1 /\
  (exists pre,
     trace (snd (Examples.runIDs "2,3" Examples.laterEligible))
       = pre ++ [failure ErrNoNICInNetwork]) /\
  mutations (trace (snd (Examples.runIDs "2,3" Examples.laterEligible)))
    = [detachCall Fake.haEIP].
Proof.
  assert (Hloc : Located (prov := Fake.prov) Examples.laterEligible
                   "203.0.113.9" Fake.haEIP)
    by (exists [Fake.haEIP]; split; reflexivity).
  apply (proj1 (proj2 (proj2
           (ids_first_running_instance_wins (lib := IPv4.lib) (prov := Fake.prov)
              (Examples.idsFlags "2,3") Examples.laterEligible
              (Examples.afterDetach Examples.laterEligible)
              "203.0.113.9" [2; 3] Fake.haEIP eq_refl Hloc eq_refl)))
           2 [Examples.nicElsewhere] 167772161).
  - exists [], [3]. repeat split.
    + constructor.
    + discriminate.
    + exists Examples.srvBrunning. split; reflexivity.
  - reflexivity.
  - reflexivity.
  - constructor; [|constructor].
    exists (3232235520, 4294967040). split; reflexivity.
Defined.

(** On an unattached elastic IP, with a provider that accepts its detach,
    the run ends on "invalid private IP" after that detach. *)
Lemma ids_unparsable_private_address_aborts_after_detach_witness :
  exitCode (Examples.runIDs "1,3" (Examples.unattached true)) = 1 /\
  (exists pre,
     trace (snd (Examples.runIDs "1,3" (Examples.unattached true)))
       = pre ++ [failure ErrInvalidPrivateIP]) /\
  mutations (trace (snd (Examples.runIDs "1,3" (Examples.unattached true))))
    = [detachCall (Fake.released Fake.haEIP)].
Proof.
  assert (Hloc : Located (prov := Fake.prov) (Examples.unattached true)
                   "203.0.113.9" (Fake.released Fake.haEIP))
    by (exists [Fake.released Fake.haEIP]; split; reflexivity).
  destruct (ids_unparsable_private_address_aborts_after_detach
              (lib := IPv4.lib) (prov := Fake.prov)
              (Examples.idsFlags "1,3") (Examples.unattached true)
              "203.0.113.9" [1; 3] (Fake.released Fake.haEIP)
              eq_refl Hloc (or_introl eq_refl))
    as (_ & Hexit & _ & _ & Hrun).
  split; [exact Hexit|].
  destruct (Hrun (Examples.unattached true) 1
              [Fake.withOccupant Fake.nicA zeroElasticIP]) as (Hpre & Hmut & _).
  - reflexivity.
  - exists [], [3]. repeat split.
    + constructor.
    + discriminate.
    + exists Fake.srvA. split; reflexivity.
  - reflexivity.
  - split; assumption.
Defined.

End InstanceIDsSelection.

(** ** Selection by peer address *)

Section AttachFacts.
Context {lib : GoLib} {prov : Provider}.

Lemma Stage_no_mutation {A} (m : M (result A)) s r evs c ok :
  Stage m s r evs -> In (ACall c ok) evs -> isMutation c = false.
Proof.
  intros [_ [Hread _]] Hin.
  rewrite Forall_forall in Hread. apply Hread in Hin. cbn in Hin.
  now apply negb_true_iff in Hin.
Qed.

Lemma Stage_no_attach {A} (m : M (result A)) s r evs i e n ok :
  Stage m s r evs -> In (ACall (CAttach i e n) ok) evs -> False.
Proof.
  intros HS Hin. pose proof (Stage_no_mutation _ _ _ _ _ _ HS Hin). discriminate.
Qed.

Lemma Prepared_no_attach inst occupant m s1 pevs s2 i e n ok :
  Prepared inst occupant m s1 pevs s2 ->
  In (ACall (CAttach i e n) ok) pevs -> False.
Proof.
  intros [H | s2' H HD] Hin; cbn in Hin; [contradiction|].
  destruct Hin as [Hin | [Hin | []]]; discriminate.
Qed.

End AttachFacts.

(** Where an attach call can sit in the trace of a run. *)
Ltac split_in :=
  repeat match goal with
  | H : In _ (_ ++ _) |- _ => apply in_app_or in H; destruct H as [H|H]
  | H : In _ (_ :: _) |- _ => destruct H as [H|H]; [try discriminate H|]
  | H : In _ [] |- _ => contradiction H
  | H : In (ACall (CAttach _ _ _) _) ?evs, HS : Stage _ _ _ ?evs |- _ =>
      exfalso; exact (Stage_no_attach _ _ _ _ _ _ _ _ HS H)
  | H : In (ACall (CAttach _ _ _) _) ?evs, HP : Prepared _ _ _ _ ?evs _ |- _ =>
      exfalso; exact (Prepared_no_attach _ _ _ _ _ _ _ _ _ _ HP H)
  end.

Module PeersSelection.
Import Peers PeersFacts PeersRunFacts.

Section Facts.
Context {lib : GoLib} {prov : Provider}.

Lemma filterPeers_In peers banned ip :
  In ip (filterPeers peers banned) <-> In ip peers /\ ip <> banned.
Proof.
  induction peers as [|x rest IH]; cbn; [tauto|].
  destruct (String.eqb_spec x banned) as [->|Hx].
  - rewrite IH. split; [tauto|]. intros [[<- | H] Hne]; [contradiction | auto].
  - cbn. rewrite IH. split.
    + intros [<- | [H Hne]]; auto.
    + intros [[<- | H] Hne]; auto.
Qed.

Lemma peers_inPeers peers nic :
  inPeers peers nic = true <-> In (nic_PrivateIP nic) peers.
Proof.
  unfold inPeers. rewrite existsb_exists. split.
  - intros (ip & Hin & Heq). apply String.eqb_eq in Heq. now rewrite Heq.
  - intros H. exists (nic_PrivateIP nic). split; [assumption | apply String.eqb_refl].
Qed.

Lemma peers_interfaces_some instance nics peers t :
  pickFailOverTarget_interfaces instance nics peers = Some t <->
  exists npre nic npost,
    nics = npre ++ nic :: npost /\
    Forall (fun n => ~ In (nic_PrivateIP n) peers) npre /\
    In (nic_PrivateIP nic) peers /\ t = targetOf instance nic.
Proof.
  induction nics as [|x rest IH]; cbn.
  - split; [discriminate|]. intros (npre & nic & npost & H & _). now destruct npre.
  - destruct (inPeers peers x) eqn:Hx.
    + apply peers_inPeers in Hx. split.
      * intros [= <-]. exists [], x, rest. auto.
      * intros ([|y npre] & nic & npost & H & Hpre & Hin & ->); inversion H; subst.
        -- reflexivity.
        -- inversion Hpre; subst. contradiction.
    + assert (Hx' : ~ In (nic_PrivateIP x) peers)
        by (intros H; apply peers_inPeers in H; congruence).
      rewrite IH. split.
      * intros (npre & nic & npost & -> & Hpre & Hin & ->).
        exists (x :: npre), nic, npost. auto.
      * intros ([|y npre] & nic & npost & H & Hpre & Hin & ->); inversion H; subst.
        -- contradiction.
        -- inversion Hpre; subst. exists npre, nic, npost. auto.
Qed.

Lemma peers_interfaces_none instance nics peers :
  pickFailOverTarget_interfaces instance nics peers = None <->
  Forall (fun n => ~ In (nic_PrivateIP n) peers) nics.
Proof.
  induction nics as [|x rest IH]; cbn.
  - split; auto.
  - destruct (inPeers peers x) eqn:Hx.
    + apply peers_inPeers in Hx. split; [discriminate|].
      intros H. inversion H; subst. contradiction.
    + assert (Hx' : ~ In (nic_PrivateIP x) peers)
        by (intros H; apply peers_inPeers in H; congruence).
      rewrite IH. split; [auto | intros H; now inversion H].
Qed.

Lemma peers_loop_indep items peers st st' :
  pst st = pst st' ->
  fst (pickFailOverTarget_loop items peers st)
    = fst (pickFailOverTarget_loop items peers st').
Proof.
  intros Hs.
  destruct (peers_pickFailOverTarget_loop_stage items peers (pst st))
    as (r & evs & HS).
  rewrite (Stage_result _ _ _ _ st HS eq_refl).
  now rewrite (Stage_result _ _ _ _ st' HS (eq_sym Hs)).
Qed.

Lemma peers_loop_cons instance rest peers st :
  fst (pickFailOverTarget_loop (instance :: rest) peers st) =
  if srv_Status instance =? ServerStatusRunning then
    match ListNetworkInterfaces (srv_ID instance) (pst st) with
    | inl msg => Ret (Err (ErrProvider msg))
    | inr nics =>
        match pickFailOverTarget_interfaces instance nics peers with
        | Some target => Ret (Ok target)
        | None => fst (pickFailOverTarget_loop rest peers st)
        end
    end
  else fst (pickFailOverTarget_loop rest peers st).
Proof.
  cbn [pickFailOverTarget_loop].
  destruct (srv_Status instance =? ServerStatusRunning); cbn [negb]; [|reflexivity].
  unfold bind, networkInterfacesList, read.
  destruct (ListNetworkInterfaces (srv_ID instance) (pst st)) as [msg|nics]; cbn;
    [reflexivity|].
  destruct (pickFailOverTarget_interfaces instance nics peers); cbn; [reflexivity|].
  now apply peers_loop_indep.
Qed.

Lemma peers_loop_ok items peers st t :
  fst (pickFailOverTarget_loop items peers st) = Ret (Ok t) <->
  exists pre instance post npre nic npost,
    items = pre ++ instance :: post /\
    Forall (passedOver peers (pst st)) pre /\
    srv_Status instance = ServerStatusRunning /\
    ListNetworkInterfaces (srv_ID instance) (pst st) = inr (npre ++ nic :: npost) /\
    Forall (fun n => ~ In (nic_PrivateIP n) peers) npre /\
    In (nic_PrivateIP nic) peers /\ t = targetOf instance nic.
Proof.
  induction items as [|x rest IH].
  - split; [discriminate|].
    intros (pre & instance & post & npre & nic & npost & H & _). now destruct pre.
  - rewrite peers_loop_cons.
    destruct (Z.eqb_spec (srv_Status x) ServerStatusRunning) as [Hst|Hst].
    + destruct (ListNetworkInterfaces (srv_ID x) (pst st)) as [msg|nics] eqn:HL.
      * split; [discriminate|].
        intros ([|y pre] & instance & post & npre & nic & npost & H & Hpre & Hrun
                & HL' & _); inversion H; subst.
        -- congruence.
        -- inversion Hpre as [|? ? [Hy | (ns & Hns & _)]]; subst; congruence.
      * destruct (pickFailOverTarget_interfaces x nics peers) as [t'|] eqn:Hin.
        -- apply peers_interfaces_some in Hin.
           destruct Hin as (npre & nic & npost & -> & Hnpre & Hnic & ->).
           split.
           ++ intros [= <-]. exists [], x, rest, npre, nic, npost. auto 10.
           ++ intros ([|y pre] & instance & post & npre' & nic' & npost' & H & Hpre
                      & Hrun & HL' & Hnpre' & Hnic' & ->); inversion H; subst.
              ** rewrite HL in HL'. injection HL' as HL'.
                 assert (Hsome : pickFailOverTarget_interfaces instance
                                   (npre ++ nic :: npost) peers
                                 = Some (targetOf instance nic))
                   by (apply peers_interfaces_some; eauto 10).
                 assert (Hsome' : pickFailOverTarget_interfaces instance
                                    (npre' ++ nic' :: npost') peers
                                  = Some (targetOf instance nic'))
                   by (apply peers_interfaces_some; eauto 10).
                 congruence.
              ** inversion Hpre as [|? ? [Hy | (ns & Hns & Hnone)]]; subst;
                   [congruence|].
                 rewrite HL in Hns. injection Hns as <-.
                 rewrite Forall_app in Hnone. destruct Hnone as [_ Hnone].
                 inversion Hnone; subst. contradiction.
        -- apply peers_interfaces_none in Hin. rewrite IH. split.
           ++ intros (pre & instance & post & npre & nic & npost & -> & Hpre & Hrun
                      & HL' & Hnpre & Hnic & ->).
              exists (x :: pre), instance, post, npre, nic, npost.
              repeat split; auto.
              constructor; [right; exists nics; auto | assumption].
           ++ intros ([|y pre] & instance & post & npre & nic & npost & H & Hpre
                      & Hrun & HL' & Hnpre & Hnic & ->); inversion H; subst.
              ** rewrite HL in HL'. injection HL' as ->.
                 rewrite Forall_app in Hin. destruct Hin as [_ Hin].
                 inversion Hin; subst. contradiction.
              ** inversion Hpre; subst.
                 exists pre, instance, post, npre, nic, npost. auto 10.
    + rewrite IH. split.
      * intros (pre & instance & post & npre & nic & npost & -> & Hpre & Hrun
                & HL' & Hnpre & Hnic & ->).
        exists (x :: pre), instance, post, npre, nic, npost.
        repeat split; auto. constructor; [now left | assumption].
      * intros ([|y pre] & instance & post & npre & nic & npost & H & Hpre
                & Hrun & HL' & Hnpre & Hnic & ->); inversion H; subst.
        -- contradiction.
        -- inversion Hpre; subst.
           exists pre, instance, post, npre, nic, npost. auto 10.
Qed.

Lemma peers_pickFailOverTarget_result peers st :
  fst (pickFailOverTarget peers st) =
  match ListServers (pst st) with
  | inl msg => Ret (Err (ErrProvider msg))
  | inr items => fst (pickFailOverTarget_loop items peers st)
  end.
Proof.
  unfold pickFailOverTarget, bind, serverList, read.
  destruct (ListServers (pst st)) as [msg|items]; cbn; [reflexivity|].
  now apply peers_loop_indep.
Qed.

Lemma peers_pickFailOverTarget_ok peers st t :
  fst (pickFailOverTarget peers st) = Ret (Ok t) <->
  exists instance nic,
    firstPeerInterface peers (pst st) instance nic /\ t = targetOf instance nic.
Proof.
  rewrite peers_pickFailOverTarget_result.
  destruct (ListServers (pst st)) as [msg|items] eqn:HL.
  - split; [discriminate|].
    intros (instance & nic & (pre & post & npre & npost & H & _) & _).
    rewrite HL in H. discriminate.
  - rewrite peers_loop_ok. split.
    + intros (pre & instance & post & npre & nic & npost & -> & H).
      exists instance, nic. split; [|tauto].
      exists pre, post, npre, npost. rewrite HL. tauto.
    + intros (instance & nic & (pre & post & npre & npost & H & Hrest) & ->).
      rewrite HL in H. injection H as ->.
      exists pre, instance, post, npre, nic, npost. tauto.
Qed.

Lemma peers_inPeers_ext p p' nic :
  (forall ip, In ip p' <-> In ip p) -> inPeers p' nic = inPeers p nic.
Proof.
  intros H. apply Bool.eq_iff_eq_true. rewrite !peers_inPeers. apply H.
Qed.

Lemma peers_interfaces_ext p p' instance nics :
  (forall ip, In ip p' <-> In ip p) ->
  pickFailOverTarget_interfaces instance nics p'
    = pickFailOverTarget_interfaces instance nics p.
Proof.
  intros H. induction nics as [|x rest IH]; cbn; [reflexivity|].
  now rewrite (peers_inPeers_ext p p' x H), IH.
Qed.

Lemma peers_loop_ext p p' items st :
  (forall ip, In ip p' <-> In ip p) ->
  pickFailOverTarget_loop items p' st = pickFailOverTarget_loop items p st.
Proof.
  intros H. revert st. induction items as [|x rest IH]; intros st; cbn;
    [reflexivity|].
  destruct (negb (srv_Status x =? ServerStatusRunning)); [apply IH|].
  unfold bind. destruct (networkInterfacesList (srv_ID x) st) as [[[nics|e]|c] st'];
    try reflexivity.
  rewrite (peers_interfaces_ext p p' x nics H).
  destruct (pickFailOverTarget_interfaces x nics p); [reflexivity | apply IH].
Qed.

Lemma peers_main_cases flags s :
  exists o st, main flags (initial s) = (o, st) /\ Run flags s o st.
Proof.
  exists (fst (main flags (initial s))), (snd (main flags (initial s))).
  split; [now destruct (main flags (initial s)) | apply peers_main_run].
Qed.

Lemma peers_Stage_first arg s target evs :
  Stage (pickFailOverTarget arg) s (Ok target) evs ->
  exists instance nic,
    firstPeerInterface arg s instance nic /\ target = targetOf instance nic.
Proof.
  intros HS. pose proof (Stage_result _ _ _ _ (initial s) HS eq_refl) as Hr.
  now apply peers_pickFailOverTarget_ok in Hr.
Qed.

Lemma peers_first_not_banned peers banned s instance nic :
  firstPeerInterface (filterPeers peers banned) s instance nic ->
  nic_PrivateIP nic <> banned /\ In (nic_PrivateIP nic) peers.
Proof.
  intros (pre & post & npre & npost & _ & _ & _ & _ & _ & Hin).
  apply filterPeers_In in Hin. tauto.
Qed.

(** C4. [filterPeers] removes every occurrence of the failed address and
    nothing else.  [pickFailOverTarget], given the filtered list, returns
    the first interface whose private address is in that list, going
    through the running instances in the order of the provider's listing
    and through each one's interfaces in their listing order; that address
    is never the failed one; the order of the peer list plays no part.
    In [main], the list is filtered with the elastic IP's recorded private
    address before the selection, so an attach call is only ever made for
    an interface whose private address differs from it. *)
Theorem peers_selection_skips_failed_address
  (peersPrivateIPs : list string) (bannedIP : string) (st : RunState) :
  (forall ip,
     In ip (filterPeers peersPrivateIPs bannedIP) <->
     In ip peersPrivateIPs /\ ip <> bannedIP)
  /\ (forall target,
        fst (pickFailOverTarget (filterPeers peersPrivateIPs bannedIP) st)
          = Ret (Ok target) <->
        exists instance nic,
          firstPeerInterface (filterPeers peersPrivateIPs bannedIP) (pst st)
            instance nic /\
          target = targetOf instance nic)
  /\ (forall instance nic,
        firstPeerInterface (filterPeers peersPrivateIPs bannedIP) (pst st)
          instance nic ->
        nic_PrivateIP nic <> bannedIP)
  /\ (forall peers',
        (forall ip, In ip peers' <-> In ip (filterPeers peersPrivateIPs bannedIP)) ->
        pickFailOverTarget peers' st
          = pickFailOverTarget (filterPeers peersPrivateIPs bannedIP) st)
  /\ (forall flags s i e n ok,
        In (ACall (CAttach i e n) ok) (trace (snd (main flags (initial s)))) ->
        exists haEIP haPeerIPs eip s1 instance nic,
          validated flags = Ok (haEIP, haPeerIPs) /\
          Located s haEIP eip /\
          DetachElasticIP (att_ID (eip_Attachment eip)) (eip_ID eip) s
            = (None, s1) /\
          firstPeerInterface (filterPeers haPeerIPs (eip_PrivateIP eip)) s1
            instance nic /\
          i = srv_ID instance /\ e = eip_ID eip /\ n = nic_ID nic /\
          nic_PrivateIP nic <> eip_PrivateIP eip).
Proof.
  split; [|split; [|split; [|split]]].
  - intros ip. apply filterPeers_In.
  - intros target. apply peers_pickFailOverTarget_ok.
  - intros instance nic H. now apply peers_first_not_banned in H.
  - intros peers' H. unfold pickFailOverTarget, bind.
    destruct (serverList st) as [[[items|e]|c] st']; try reflexivity.
    now apply peers_loop_ext.
  - intros flags s i e n ok.
    destruct (peers_main_cases flags s) as (o & st0 & -> & HR).
    cbn [snd]. intros Hin.
    inversion HR; subst; cbn [trace] in Hin; split_in;
      injection Hin as <- <- <- <-;
      match goal with
      | HS : Stage (pickFailOverTarget _) _ (Ok _) _ |- _ =>
          destruct (peers_Stage_first _ _ _ _ HS) as (instance & nic & Hfirst & ->)
      end;
      exists haEIP, haPeerIPs, eip, s1, instance, nic;
      repeat split; auto;
      now apply peers_first_not_banned in Hfirst.
Qed.

End Facts.

(** With the failed address 10.0.0.1 given twice among the peers, the
    run attaches to the interface of instance 3 at 10.0.0.3. *)
Lemma peers_selection_skips_failed_address_witness :
  exists haEIP haPeerIPs eip s1 instance nic,
    validated (lib := IPv4.lib)
      (Examples.peersFlags "10.0.0.1,10.0.0.3,10.0.0.1") = Ok (haEIP, haPeerIPs) /\
    Located (prov := Fake.prov) Fake.world haEIP eip /\
    Fake.detach (att_ID (eip_Attachment eip)) (eip_ID eip) Fake.world
      = (None, s1) /\
    firstPeerInterface (prov := Fake.prov)
      (filterPeers haPeerIPs (eip_PrivateIP eip)) s1 instance nic /\
    3 = srv_ID instance /\ 7 = eip_ID eip /\ 31 = nic_ID nic /\
    nic_PrivateIP nic <> eip_PrivateIP eip.
Proof.
  apply (proj2 (proj2 (proj2 (proj2
           (peers_selection_skips_failed_address (lib := IPv4.lib)
              (prov := Fake.prov) [] "" (Examples.start Fake.world)))))
           (Examples.peersFlags "10.0.0.1,10.0.0.3,10.0.0.1") Fake.world
           3 7 31 true).
  vm_compute. auto 20.
Defined.

End PeersSelection.

(** ** Whole runs: failing fast *)

Section ShapeFacts.
Context {lib : GoLib} {prov : Provider}.

Lemma Stage_ok_smooth {A} (m : M (result A)) s a evs :
  Stage m s (Ok a) evs -> Forall (fun x => smooth x = true) evs.
Proof.
  intros [_ [_ [H | (pre & c & msg & _ & _ & H)]]]; [exact H | discriminate].
Qed.

Lemma Stage_err_shape {A} (m : M (result A)) s e evs :
  Stage m s (Err e) evs ->
  Forall (fun x => smooth x = true) evs \/
  exists pre c,
    evs = pre ++ [ACall c false] /\ Forall (fun x => smooth x = true) pre.
Proof.
  intros [_ [_ [H | (pre & c & msg & -> & H & _)]]]; [now left | right; eauto].
Qed.

Lemma Prepared_smooth inst occupant m s1 pevs s2 :
  Prepared inst occupant m s1 pevs s2 -> Forall (fun x => smooth x = true) pevs.
Proof. intros [H | s2' H HD]; repeat constructor. Qed.

Lemma aborted_last text : aborted [ALog ERROR (MsgError text)].
Proof. exists [], text. split; [reflexivity | left; constructor]. Qed.

Lemma aborted_failed c text : aborted [ACall c false; ALog ERROR (MsgError text)].
Proof.
  exists [ACall c false], text. split; [reflexivity|].
  right. exists [], c. split; [reflexivity | constructor].
Qed.

Lemma aborted_cons a tr : smooth a = true -> aborted tr -> aborted (a :: tr).
Proof.
  intros Ha (pre & text & -> & [H | (pre' & c & -> & H)]).
  - exists (a :: pre), text. split; [reflexivity | left; now constructor].
  - exists (a :: pre' ++ [ACall c false]), text. split; [reflexivity|].
    right. exists (a :: pre'), c. split; [reflexivity | now constructor].
Qed.

Lemma aborted_app pre tr :
  Forall (fun x => smooth x = true) pre -> aborted tr -> aborted (pre ++ tr).
Proof.
  induction 1 as [|a pre Ha _ IH]; intros Htr; cbn; [assumption|].
  apply aborted_cons; auto.
Qed.

Lemma aborted_stage evs text :
  (Forall (fun x => smooth x = true) evs \/
   exists pre c,
     evs = pre ++ [ACall c false] /\ Forall (fun x => smooth x = true) pre) ->
  aborted (evs ++ [ALog ERROR (MsgError text)]).
Proof.
  intros [H | (pre & c & -> & H)].
  - apply aborted_app; [assumption | apply aborted_last].
  - rewrite <- app_assoc. apply aborted_app; [assumption | apply aborted_failed].
Qed.

Lemma attached_last i e n m : attached [ACall (CAttach i e n) true; ALog INFO m].
Proof. exists [], i, e, n, m. split; [reflexivity | constructor]. Qed.

Lemma attached_cons a tr : smooth a = true -> attached tr -> attached (a :: tr).
Proof.
  intros Ha (pre & i & e & n & m & -> & H).
  exists (a :: pre), i, e, n, m. split; [reflexivity | now constructor].
Qed.

Lemma attached_app pre tr :
  Forall (fun x => smooth x = true) pre -> attached tr -> attached (pre ++ tr).
Proof.
  induction 1 as [|a pre Ha _ IH]; intros Htr; cbn; [assumption|].
  apply attached_cons; auto.
Qed.

Lemma smooth_not_error pre text :
  Forall (fun x => smooth x = true) pre -> ~ In (ALog ERROR (MsgError text)) pre.
Proof.
  intros H Hin. rewrite Forall_forall in H. apply H in Hin. discriminate.
Qed.

(** A trace does not both end a failed run and end a successful one. *)
Lemma aborted_not_completed tr : aborted tr -> attached tr \/ noop tr -> False.
Proof.
  intros (pre & text & -> & _) [(pre' & i & e & n & m & Heq & H) | (pre' & Heq & H & _)].
  - change [ACall (CAttach i e n) true; ALog INFO m]
      with ([ACall (CAttach i e n) true] ++ [ALog INFO m]) in Heq.
    rewrite app_assoc in Heq. apply app_inj_tail in Heq.
    destruct Heq as [_ Heq]. discriminate.
  - apply app_inj_tail in Heq. destruct Heq as [_ Heq]. discriminate.
Qed.

Lemma failFast_exit0 (r : outcome unit * RunState) :
  failFast r ->
  (exitCode r = 0 <-> attached (trace (snd r)) \/ noop (trace (snd r))).
Proof.
  intros [[Hc Hab] | [Hc Hdone]]; split; intros H.
  - rewrite Hc in H. discriminate.
  - exfalso. exact (aborted_not_completed _ Hab H).
  - exact Hdone.
  - exact Hc.
Qed.

End ShapeFacts.

Ltac pose_shapes :=
  repeat match goal with
  | H : Stage _ _ (Ok _) ?evs |- _ =>
      lazymatch goal with
      | _ : Forall (fun x => smooth x = true) evs |- _ => fail
      | _ => pose proof (Stage_ok_smooth _ _ _ _ H)
      end
  | H : Prepared _ _ _ _ ?evs _ |- _ =>
      lazymatch goal with
      | _ : Forall (fun x => smooth x = true) evs |- _ => fail
      | _ => pose proof (Prepared_smooth _ _ _ _ _ _ H)
      end
  end.

Ltac shape :=
  cbn [snd trace]; rewrite <- ?app_assoc; cbn [app];
  repeat first
    [ apply aborted_last
    | apply aborted_failed
    | apply attached_last
    | apply aborted_stage; eapply Stage_err_shape; eassumption
    | apply aborted_cons; [reflexivity|]
    | apply attached_cons; [reflexivity|]
    | apply aborted_app; [assumption|]
    | apply attached_app; [assumption|] ].

Module InstanceIDsShape.
Import InstanceIDs InstanceIDsFacts InstanceIDsRunFacts InstanceIDsSelection.

Section Facts.
Context {lib : GoLib} {prov : Provider}.

Lemma ids_failFast flags s : failFast (main flags (initial s)).
Proof.
  destruct (ids_main_cases flags s) as (o & st & -> & HR).
  unfold failFast.
  inversion HR; subst; pose_shapes;
    first [ left; split; [reflexivity|]
          | right; split; [reflexivity | left] ];
    shape.
Qed.

End Facts.
End InstanceIDsShape.

Module PrivateIPShape.
Import PrivateIP PrivateIPFacts PrivateIPRunFacts.

Section Facts.
Context {lib : GoLib} {prov : Provider}.

Lemma ip_main_cases flags s :
  exists o st, main flags (initial s) = (o, st) /\ Run flags s o st.
Proof.
  exists (fst (main flags (initial s))), (snd (main flags (initial s))).
  split; [now destruct (main flags (initial s)) | apply ip_main_run].
Qed.

Lemma ip_failFast flags s : failFast (main flags (initial s)).
Proof.
  destruct (ip_main_cases flags s) as (o & st & -> & HR).
  unfold failFast.
  inversion HR; subst; pose_shapes;
    first [ left; split; [reflexivity|]
          | right; split; [reflexivity | left]; shape; fail
          | right; split; [reflexivity | right] ];
    shape.
  exists [ACall CListElasticIPs true; found eip].
  repeat split; repeat constructor.
Qed.

End Facts.
End PrivateIPShape.

Module PeersShape.
Import Peers PeersFacts PeersRunFacts PeersSelection.

Section Facts.
Context {lib : GoLib} {prov : Provider}.

Lemma peers_failFast flags s : failFast (main flags (initial s)).
Proof.
  destruct (peers_main_cases flags s) as (o & st & -> & HR).
  unfold failFast.
  inversion HR; subst; pose_shapes;
    first [ left; split; [reflexivity|]
          | right; split; [reflexivity | left] ];
    shape.
Qed.

End Facts.
End PeersShape.

Section FailFast.
Context {lib : GoLib} {prov : Provider}.

(** From the parsed flags on, every run of each of the three programs
    ends in one of two ways.
    Either it exits with status 1, and then its trace ends with its only
    error record, a failed provider call, if there is one, comes right
    before that record, and every call before succeeded and none is an
    attach: nothing is retried and nothing is undone.  Or it exits with
    status 0, and then every call succeeded and the trace ends with the
    attach and its record, or with the record that the elastic IP is
    already attached, no detach or attach having been called.  The two
    are exclusive, so status 0 is exactly success or the no-op.  A flag
    that fails its check ends the run before any provider call; an
    elastic IP that is not in the listing ends it right after the
    listing. *)
Lemma every_error_aborts_the_run
  (idsFlags : InstanceIDs.Flags) (ipFlags : PrivateIP.Flags)
  (peersFlags : Peers.Flags) (s : PState) :
  (failFast (InstanceIDs.main idsFlags (initial s))
   /\ failFast (PrivateIP.main ipFlags (initial s))
   /\ failFast (Peers.main peersFlags (initial s)))
  /\ (forall tr, aborted tr -> attached tr \/ noop tr -> False)
  /\ ((exitCode (InstanceIDs.main idsFlags (initial s)) = 0 <->
       attached (trace (snd (InstanceIDs.main idsFlags (initial s)))) \/
       noop (trace (snd (InstanceIDs.main idsFlags (initial s)))))
      /\ (exitCode (PrivateIP.main ipFlags (initial s)) = 0 <->
          attached (trace (snd (PrivateIP.main ipFlags (initial s)))) \/
          noop (trace (snd (PrivateIP.main ipFlags (initial s)))))
      /\ (exitCode (Peers.main peersFlags (initial s)) = 0 <->
          attached (trace (snd (Peers.main peersFlags (initial s)))) \/
          noop (trace (snd (Peers.main peersFlags (initial s))))))
  /\ ((forall e,
         InstanceIDs.validated idsFlags = Err e ->
         InstanceIDs.main idsFlags (initial s)
           = (Exit 1, {| pst := s; trace := [failure e] |}))
      /\ (forall e,
            PrivateIP.validated ipFlags = Err e ->
            PrivateIP.main ipFlags (initial s)
              = (Exit 1, {| pst := s; trace := [failure e] |}))
      /\ (forall e,
            Peers.validated peersFlags = Err e ->
            Peers.main peersFlags (initial s)
              = (Exit 1, {| pst := s; trace := [failure e] |})))
  /\ ((forall haEIP ids items,
         InstanceIDs.validated idsFlags = Ok (haEIP, ids) ->
         ListElasticIPs s = inr items ->
         Forall (fun x => eip_PublicIP x <> haEIP) items ->
         InstanceIDs.main idsFlags (initial s)
           = (Exit 1,
              {| pst := s;
                 trace := [ACall CListElasticIPs true; failure ErrEIPNotFound] |}))
      /\ (forall haEIP privateIP items,
            PrivateIP.validated ipFlags = Ok (haEIP, privateIP) ->
            ListElasticIPs s = inr items ->
            Forall (fun x => eip_PublicIP x <> haEIP) items ->
            PrivateIP.main ipFlags (initial s)
              = (Exit 1,
                 {| pst := s;
                    trace := [ACall CListElasticIPs true;
                              failure ErrEIPNotFound] |}))
      /\ (forall haEIP peers items,
            Peers.validated peersFlags = Ok (haEIP, peers) ->
            ListElasticIPs s = inr items ->
            Forall (fun x => eip_PublicIP x <> haEIP) items ->
            Peers.main peersFlags (initial s)
              = (Exit 1,
                 {| pst := s;
                    trace := [ACall CListElasticIPs true;
                              failure ErrEIPNotFound] |}))).
Proof.
  split; [|split; [|split; [|split]]].
  - split; [|split].
    + apply InstanceIDsShape.ids_failFast.
    + apply PrivateIPShape.ip_failFast.
    + apply PeersShape.peers_failFast.
  - apply aborted_not_completed.
  - split; [|split]; apply failFast_exit0.
    + apply InstanceIDsShape.ids_failFast.
    + apply PrivateIPShape.ip_failFast.
    + apply PeersShape.peers_failFast.
  - split; [|split]; intros e He.
    + apply InstanceIDsRunFacts.ids_main_eq. now constructor.
    + apply PrivateIPRunFacts.ip_main_eq. now constructor.
    + apply PeersRunFacts.peers_main_eq. now constructor.
  - split; [|split]; intros haEIP arg items Hv HL Hnone;
      assert (Hloop : findElasticIPID_loop items haEIP = Err ErrEIPNotFound)
        by (now apply findElasticIPID_loop_err).
    + apply InstanceIDsRunFacts.ids_main_eq.
      eapply InstanceIDs.RunNotFound; eassumption.
    + apply PrivateIPRunFacts.ip_main_eq.
      eapply PrivateIP.RunNotFound; eassumption.
    + apply PeersRunFacts.peers_main_eq.
      eapply Peers.RunNotFound; eassumption.
Qed.

End FailFast.

(** ** Whole runs: the order of detach, prepare and attach *)

Module PrivateIPSelection.
Import PrivateIP PrivateIPFacts PrivateIPRunFacts.

Section Facts.
Context {lib : GoLib} {prov : Provider}.

Lemma ip_interfaces_some instance nics privateIP t :
  findFailOverTarget_interfaces instance nics privateIP = Some t ->
  exists nic,
    In nic nics /\ nic_PrivateIP nic = privateIP /\
    InstanceID t = srv_ID instance /\ NetworkInterfaceID t = nic_ID nic /\
    AttachedEIP t = nic_AttachedElasticIP nic.
Proof.
  induction nics as [|x rest IH]; cbn; [discriminate|].
  destruct (String.eqb_spec (nic_PrivateIP x) privateIP) as [Hx|Hx].
  - intros [= <-]. exists x. cbn. auto.
  - intros H. destruct (IH H) as (nic & Hin & Hrest). exists nic. auto.
Qed.

Lemma ip_loop_sound items privateIP st t :
  fst (findFailOverTarget_loop items privateIP st) = Ret (Ok t) ->
  exists instance nics nic,
    In instance items /\
    ListNetworkInterfaces (srv_ID instance) (pst st) = inr nics /\
    In nic nics /\ nic_PrivateIP nic = privateIP /\
    InstanceID t = srv_ID instance /\ NetworkInterfaceID t = nic_ID nic /\
    AttachedEIP t = nic_AttachedElasticIP nic.
Proof.
  revert st. induction items as [|x rest IH]; intros st; cbn; [discriminate|].
  destruct (negb (srv_Status x =? ServerStatusRunning)).
  - intros H. destruct (IH _ H) as (instance & nics & nic & Hin & Hrest).
    exists instance, nics, nic. auto.
  - unfold bind, networkInterfacesList, read.
    destruct (ListNetworkInterfaces (srv_ID x) (pst st)) as [msg|nics] eqn:HL; cbn;
      [discriminate|].
    destruct (findFailOverTarget_interfaces x nics privateIP) as [t'|] eqn:Hin; cbn.
    + intros [= <-]. destruct (ip_interfaces_some _ _ _ _ Hin) as (nic & Hnic).
      exists x, nics, nic. tauto.
    + intros H. destruct (IH _ H) as (instance & nics' & nic & Hi & Hrest).
      exists instance, nics', nic. auto.
Qed.

Lemma ip_Stage_target privateIP s t evs :
  Stage (findFailOverTarget privateIP) s (Ok t) evs ->
  exists instance nics nic,
    ListNetworkInterfaces (srv_ID instance) s = inr nics /\
    In nic nics /\ nic_PrivateIP nic = privateIP /\
    InstanceID t = srv_ID instance /\ NetworkInterfaceID t = nic_ID nic /\
    AttachedEIP t = nic_AttachedElasticIP nic.
Proof.
  intros HS. pose proof (Stage_result _ _ _ _ (initial s) HS eq_refl) as Hr.
  unfold findFailOverTarget, bind, serverList, read in Hr. cbn [pst initial] in Hr.
  destruct (ListServers s) as [msg|items]; cbn in Hr; [discriminate|].
  apply ip_loop_sound in Hr.
  destruct Hr as (instance & nics & nic & _ & Hrest).
  exists instance, nics, nic. exact Hrest.
Qed.

End Facts.
End PrivateIPSelection.

Section Ordering.
Context {lib : GoLib} {prov : Provider}.

Lemma Prepared_mutations inst occupant m s1 pevs s2 :
  Prepared inst occupant m s1 pevs s2 ->
  mutations pevs = prepareCalls inst occupant.
Proof.
  unfold prepareCalls. intros [H | s2' H HD].
  - now rewrite H.
  - apply String.eqb_neq in H. now rewrite H.
Qed.

Lemma ids_Stage_interface instanceID previousPrivateIP s nic evs :
  Stage (InstanceIDs.pickNetworkInterface instanceID previousPrivateIP) s (Ok nic) evs ->
  exists items, ListNetworkInterfaces instanceID s = inr items /\ In nic items.
Proof.
  intros HS. pose proof (Stage_result _ _ _ _ (initial s) HS eq_refl) as Hr.
  rewrite InstanceIDsSelection.ids_pickNetworkInterface_result in Hr.
  cbn [pst initial] in Hr.
  destruct (ListNetworkInterfaces instanceID s) as [msg|items]; [discriminate|].
  destruct (ParseIP previousPrivateIP) as [ip|]; [|discriminate].
  injection Hr as Hr. apply InstanceIDsSelection.ids_loop_ok in Hr.
  destruct Hr as (pre & post & -> & _). exists (pre ++ nic :: post).
  split; [reflexivity | apply in_elt].
Qed.




End Ordering.




(** The run of [main.go] on a target interface that holds another elastic
    IP: detach of the elastic IP, detach of the occupant, attach. *)
Example ids_occupied_target_run :
  exitCode (Examples.runIDs "1,2,3" Examples.occupiedTarget) = 0 /\
  mutations (trace (snd (Examples.runIDs "1,2,3" Examples.occupiedTarget)))
    = [CDetach 1 7; CDetach 3 8; CAttach 1 7 31].
Proof. split; vm_compute; reflexivity. Qed.

(** ** Whole runs: redundant invocations *)

Section Idempotence.
Context {lib : GoLib} {prov : Provider}.

Lemma ids_detach_first flags s haEIP ids eip :
  InstanceIDs.validated flags = Ok (haEIP, ids) ->
  Located s haEIP eip ->
  exists rest,
    mutations (trace (snd (InstanceIDs.main flags (initial s))))
      = detachCall eip :: rest.
Proof.
  intros Hv Hloc.
  destruct (InstanceIDsSelection.ids_main_cases flags s) as (o & st & -> & HR).
  inversion HR; subst; same_run; cbn [snd trace];
    rewrite ?mutations_app; mut_stage; cbn; eexists; reflexivity.
Qed.

Lemma peers_detach_first flags s haEIP peers eip :
  Peers.validated flags = Ok (haEIP, peers) ->
  Located s haEIP eip ->
  exists rest,
    mutations (trace (snd (Peers.main flags (initial s))))
      = detachCall eip :: rest.
Proof.
  intros Hv Hloc.
  destruct (PeersSelection.peers_main_cases flags s) as (o & st & -> & HR).
  inversion HR; subst; same_run; cbn [snd trace];
    rewrite ?mutations_app; mut_stage; cbn; eexists; reflexivity.
Qed.

Lemma ip_detach_first flags s haEIP privateIP eip :
  PrivateIP.validated flags = Ok (haEIP, privateIP) ->
  Located s haEIP eip ->
  eip_PrivateIP eip <> privateIP ->
  exists rest,
    mutations (trace (snd (PrivateIP.main flags (initial s))))
      = detachCall eip :: rest.
Proof.
  intros Hv Hloc Hne.
  destruct (PrivateIPShape.ip_main_cases flags s) as (o & st & -> & HR).
  inversion HR; subst; same_run; try contradiction; cbn [snd trace];
    rewrite ?mutations_app; mut_stage; cbn; eexists; reflexivity.
Qed.

(** C1, as the code has it. Only the program given the target's private
    address checks whether the elastic IP is already there: when the
    elastic IP's recorded private address is that address, the run lists
    the elastic IPs, writes two records and returns, with no detach and no
    attach call and the provider's state untouched; otherwise its first
    detach or attach call is the detach of the elastic IP.  The programs
    given instance IDs or peer addresses have no such check: whenever the
    elastic IP is found, the detach of the elastic IP is called. *)
Theorem idempotent_only_with_target_address
  (s : PState) (haEIP : string) (eip : ElasticIP) :
  Located s haEIP eip ->
  (forall flags privateIP,
     PrivateIP.validated flags = Ok (haEIP, privateIP) ->
     (eip_PrivateIP eip = privateIP ->
      PrivateIP.main flags (initial s)
        = (Ret tt,
           {| pst := s;
              trace := [ACall CListElasticIPs true; found eip;
                        ALog INFO MsgAlreadyAttached] |}))
     /\ (eip_PrivateIP eip <> privateIP ->
         exists rest,
           mutations (trace (snd (PrivateIP.main flags (initial s))))
             = detachCall eip :: rest))
  /\ (forall flags ids,
        InstanceIDs.validated flags = Ok (haEIP, ids) ->
        exists rest,
          mutations (trace (snd (InstanceIDs.main flags (initial s))))
            = detachCall eip :: rest)
  /\ (forall flags peers,
        Peers.validated flags = Ok (haEIP, peers) ->
        exists rest,
          mutations (trace (snd (Peers.main flags (initial s))))
            = detachCall eip :: rest).
Proof.
  intros Hloc. split; [|split].
  - intros flags privateIP Hv. split.
    + intros Hsame. apply PrivateIPRunFacts.ip_main_eq.
      eapply PrivateIP.RunAlreadyAttached; eassumption.
    + intros Hne. eapply ip_detach_first; eassumption.
  - intros flags ids Hv. eapply ids_detach_first; eassumption.
  - intros flags peers Hv. eapply peers_detach_first; eassumption.
Qed.

End Idempotence.

(** The elastic IP of [Fake.world] is at 10.0.0.1: the program given that
    address does nothing. *)
Lemma idempotent_only_with_target_address_witness :
  Examples.runIP "10.0.0.1" Fake.world
    = (Ret tt,
       Examples.state Fake.world
         [ACall CListElasticIPs true; found Fake.haEIP;
          ALog INFO MsgAlreadyAttached]).
Proof.
  assert (Hloc : Located (prov := Fake.prov) Fake.world "203.0.113.9" Fake.haEIP)
    by (exists [Fake.haEIP]; split; reflexivity).
  apply (proj1 (proj1 (idempotent_only_with_target_address
                         (lib := IPv4.lib) (prov := Fake.prov)
                         Fake.world "203.0.113.9" Fake.haEIP Hloc)
                  (Examples.ipFlags "10.0.0.1") "10.0.0.1" eq_refl)).
  reflexivity.
Defined.

(** C1, as the specification states it, fails for the programs given
    instance IDs or peer addresses.  With the elastic IP already on
    instance 3 and candidates 1, 2 and 3, the run detaches it from
    instance 3 and attaches it to the interface of instance 1; so does
    the run given the peers 10.0.0.1 and 10.0.0.3.  And where the
    interface selected by the instance-ID program has the very private
    address recorded on the elastic IP, the run still detaches and
    attaches, and exits with status 0. *)
Lemma ids_detaches_when_already_correct :
  mutations (trace (snd (Examples.runIDs "1,2,3" Examples.alreadyOnC)))
    = [CDetach 3 7; CAttach 3 7 11]
  /\ mutations (trace (snd (Examples.runPeers "10.0.0.1,10.0.0.3"
                              Examples.alreadyOnC)))
     = [CDetach 3 7; CAttach 1 7 11]
  /\ Located (prov := Fake.prov) Examples.sameAddress "203.0.113.9"
       Examples.haEIPat3
  /\ fst (InstanceIDs.pickNetworkInterface (lib := IPv4.lib) 3
            (eip_PrivateIP Examples.haEIPat3)
            (Examples.start (Examples.afterDetach Examples.sameAddress)))
     = Ret (Ok Fake.nicC)
  /\ nic_PrivateIP Fake.nicC = eip_PrivateIP Examples.haEIPat3
  /\ exitCode (Examples.runIDs "1,3" Examples.sameAddress) = 0
  /\ mutations (trace (snd (Examples.runIDs "1,3" Examples.sameAddress)))
     = [CDetach 1 7; CAttach 1 7 31].
Proof.
  repeat split; try (vm_compute; reflexivity).
  exists [Examples.haEIPat3]. split; reflexivity.
Qed.

(** ** Whole runs: starting from an unattached elastic IP *)

Section Unattached.
Context {lib : GoLib} {prov : Provider}.

Lemma Stage_from_result {A} (m : M (result A)) s r :
  (exists r' evs, Stage m s r' evs) ->
  fst (m (initial s)) = Ret r ->
  exists evs, Stage m s r evs.
Proof.
  intros (r' & evs & HS) Hr. exists evs.
  pose proof (Stage_result _ _ _ _ (initial s) HS eq_refl) as Hr'.
  replace r with r' by congruence. exact HS.
Qed.

Lemma ids_unparsable_never_attaches flags s haEIP ids eip :
  InstanceIDs.validated flags = Ok (haEIP, ids) ->
  Located s haEIP eip ->
  ParseIP (eip_PrivateIP eip) = None ->
  exitCode (InstanceIDs.main flags (initial s)) = 1 /\
  (forall c,
     In c (mutations (trace (snd (InstanceIDs.main flags (initial s))))) ->
     isAttach c = false).
Proof.
  intros Hv Hloc HP.
  destruct (InstanceIDsSelection.ids_main_cases flags s) as (o & st & -> & HR).
  inversion HR; subst; same_run;
    try (exfalso; eapply InstanceIDsSelection.ids_unparsable_no_interface;
         eassumption);
    (split; [reflexivity|]);
    intros c; cbn [snd trace]; rewrite ?mutations_app; mut_stage; cbn;
    intros Hin; repeat (destruct Hin as [<- | Hin]; [reflexivity|]);
    contradiction.
Qed.

Lemma ids_Stage_unparsable_error instanceID previousPrivateIP s e evs :
  ParseIP previousPrivateIP = None ->
  Stage (InstanceIDs.pickNetworkInterface instanceID previousPrivateIP) s (Err e) evs ->
  (exists items,
     ListNetworkInterfaces instanceID s = inr items /\ e = ErrInvalidPrivateIP) \/
  (exists msg,
     ListNetworkInterfaces instanceID s = inl msg /\ e = ErrProvider msg).
Proof.
  intros HP HS. pose proof (Stage_result _ _ _ _ (initial s) HS eq_refl) as Hr.
  rewrite InstanceIDsSelection.ids_pickNetworkInterface_result, HP in Hr.
  cbn [pst initial] in Hr.
  destruct (ListNetworkInterfaces instanceID s) as [msg|items];
    injection Hr as <-; [right | left]; eauto.
Qed.

Lemma ids_unparsable_run_after_detach flags s haEIP ids eip s1 :
  InstanceIDs.validated flags = Ok (haEIP, ids) ->
  Located s haEIP eip ->
  ParseIP (eip_PrivateIP eip) = None ->
  DetachElasticIP (att_ID (eip_Attachment eip)) (eip_ID eip) s = (None, s1) ->
  exists evs e,
    InstanceIDs.main flags (initial s)
      = (Exit 1,
         {| pst := s1;
            trace := [ACall CListElasticIPs true; found eip;
                      ACall (detachCall eip) true; detachedLog eip]
                     ++ evs ++ [failure e] |}) /\
    mutations evs = [] /\
    (fst (InstanceIDs.pickNextInstance ids (att_ID (eip_Attachment eip))
            (initial s1)) = Ret (Err e) \/
     exists instanceID,
       fst (InstanceIDs.pickNextInstance ids (att_ID (eip_Attachment eip))
              (initial s1)) = Ret (Ok instanceID) /\
       ((exists items,
           ListNetworkInterfaces instanceID s1 = inr items /\
           e = ErrInvalidPrivateIP) \/
        (exists msg,
           ListNetworkInterfaces instanceID s1 = inl msg /\
           e = ErrProvider msg))).
Proof.
  intros Hv Hloc HP HD.
  destruct (InstanceIDsSelection.ids_main_cases flags s) as (o & st & -> & HR).
  inversion HR; subst; same_run;
    try (exfalso; eapply InstanceIDsSelection.ids_unparsable_no_interface;
         eassumption).
  - exists evs, e. repeat split.
    + eapply Stage_mutations; eassumption.
    + left. eapply Stage_result; [eassumption | reflexivity].
  - exists (evs ++ [ALog INFO (MsgPickedInstance instanceID)] ++ evs2), e.
    repeat split.
    + do 2 f_equal. now rewrite <- !app_assoc.
    + rewrite !mutations_app. mut_stage. reflexivity.
    + right. exists instanceID. split.
      * eapply Stage_result; [eassumption | reflexivity].
      * eapply ids_Stage_unparsable_error; eassumption.
Qed.

(** C6, as the code has it. Whatever the elastic IP's attachment, also
    the empty one of an unattached elastic IP, the run calls detach for it
    first.  If the provider answers that call with an error, each of the
    three programs writes the error and exits with status 1: the error is
    not tolerated and attach is not called.  If the recorded private
    address is empty, the program given instance IDs exits with status 1
    without calling attach, whatever the provider answers.  If the
    provider accepts the detach, the programs given a private address or
    peer addresses go on as in any run: when a target is selected, its
    interface freed and the attach accepted, they exit with status 0.
    The program given instance IDs, the recorded private address being
    empty and the detach accepted, makes that detach its only detach or
    attach call and exits with status 1 on one error: the error of
    [pickNextInstance] when it picks no instance; once an instance is
    picked, "invalid private IP" when its interfaces are listed, and the
    provider's error when their listing fails. *)
Theorem unattached_rerun_detaches_first
  (s : PState) (haEIP : string) (eip : ElasticIP) :
  Located s haEIP eip ->
  (forall msg s1,
     DetachElasticIP (att_ID (eip_Attachment eip)) (eip_ID eip) s
       = (Some msg, s1) ->
     (forall flags ids,
        InstanceIDs.validated flags = Ok (haEIP, ids) ->
        InstanceIDs.main flags (initial s)
          = (Exit 1,
             {| pst := s1;
                trace := [ACall CListElasticIPs true; found eip;
                          ACall (detachCall eip) false;
                          failure (ErrProvider msg)] |}))
     /\ (forall flags privateIP,
           PrivateIP.validated flags = Ok (haEIP, privateIP) ->
           eip_PrivateIP eip <> privateIP ->
           PrivateIP.main flags (initial s)
             = (Exit 1,
                {| pst := s1;
                   trace := [ACall CListElasticIPs true; found eip;
                             ACall (detachCall eip) false;
                             failure (ErrProvider msg)] |}))
     /\ (forall flags peers,
           Peers.validated flags = Ok (haEIP, peers) ->
           Peers.main flags (initial s)
             = (Exit 1,
                {| pst := s1;
                   trace := [ACall CListElasticIPs true; found eip;
                             ACall (detachCall eip) false;
                             failure (ErrProvider msg)] |})))
  /\ (forall flags ids,
        InstanceIDs.validated flags = Ok (haEIP, ids) ->
        eip_PrivateIP eip = "" ->
        exitCode (InstanceIDs.main flags (initial s)) = 1 /\
        (forall c,
           In c (mutations (trace (snd (InstanceIDs.main flags (initial s))))) ->
           isAttach c = false))
  /\ (forall s1 target pevs s2 res s3,
        DetachElasticIP (att_ID (eip_Attachment eip)) (eip_ID eip) s
          = (None, s1) ->
        Prepared (InstanceID target) (AttachedEIP target)
          (MsgPreparedTarget (eip_PublicIP (AttachedEIP target))
             (InstanceName target) (InstanceID target))
          s1 pevs s2 ->
        AttachElasticIP (InstanceID target) (eip_ID eip)
          (NetworkInterfaceID target) s2 = (inr res, s3) ->
        (forall flags privateIP,
           PrivateIP.validated flags = Ok (haEIP, privateIP) ->
           eip_PrivateIP eip <> privateIP ->
           fst (PrivateIP.findFailOverTarget privateIP (initial s1))
             = Ret (Ok target) ->
           exitCode (PrivateIP.main flags (initial s)) = 0 /\
           pst (snd (PrivateIP.main flags (initial s))) = s3 /\
           mutations (trace (snd (PrivateIP.main flags (initial s))))
             = detachCall eip
               :: prepareCalls (InstanceID target) (AttachedEIP target)
               ++ [CAttach (InstanceID target) (eip_ID eip)
                     (NetworkInterfaceID target)])
        /\ (forall flags peers,
              Peers.validated flags = Ok (haEIP, peers) ->
              fst (Peers.pickFailOverTarget
                     (filterPeers peers (eip_PrivateIP eip)) (initial s1))
                = Ret (Ok target) ->
              exitCode (Peers.main flags (initial s)) = 0 /\
              pst (snd (Peers.main flags (initial s))) = s3 /\
              mutations (trace (snd (Peers.main flags (initial s))))
                = detachCall eip
                  :: prepareCalls (InstanceID target) (AttachedEIP target)
                  ++ [CAttach (InstanceID target) (eip_ID eip)
                        (NetworkInterfaceID target)]))
  /\ (forall flags ids s1,
        InstanceIDs.validated flags = Ok (haEIP, ids) ->
        eip_PrivateIP eip = "" ->
        DetachElasticIP (att_ID (eip_Attachment eip)) (eip_ID eip) s
          = (None, s1) ->
        exists evs e,
          InstanceIDs.main flags (initial s)
            = (Exit 1,
               {| pst := s1;
                  trace := [ACall CListElasticIPs true; found eip;
                            ACall (detachCall eip) true; detachedLog eip]
                           ++ evs ++ [failure e] |}) /\
          mutations evs = [] /\
          (fst (InstanceIDs.pickNextInstance ids (att_ID (eip_Attachment eip))
                  (initial s1)) = Ret (Err e) \/
           exists instanceID,
             fst (InstanceIDs.pickNextInstance ids
                    (att_ID (eip_Attachment eip)) (initial s1))
               = Ret (Ok instanceID) /\
             ((exists items,
                 ListNetworkInterfaces instanceID s1 = inr items /\
                 e = ErrInvalidPrivateIP) \/
              (exists msg,
                 ListNetworkInterfaces instanceID s1 = inl msg /\
                 e = ErrProvider msg)))).
Proof.
  intros Hloc. split; [|split; [|split]].
  - intros msg s1 HD. split; [|split].
    + intros flags ids Hv. apply InstanceIDsRunFacts.ids_main_eq.
      eapply InstanceIDs.RunDetachFailed; eassumption.
    + intros flags privateIP Hv Hne. apply PrivateIPRunFacts.ip_main_eq.
      eapply PrivateIP.RunDetachFailed; eassumption.
    + intros flags peers Hv. apply PeersRunFacts.peers_main_eq.
      eapply Peers.RunDetachFailed; eassumption.
  - intros flags ids Hv Hempty.
    eapply ids_unparsable_never_attaches; try eassumption.
    rewrite Hempty. apply ParseIP_empty.
  - intros s1 target pevs s2 res s3 HD HP HA. split.
    + intros flags privateIP Hv Hne Hsel.
      destruct (Stage_from_result _ _ _
                  (PrivateIPFacts.ip_findFailOverTarget_stage privateIP s1) Hsel)
        as (evs & HS).
      rewrite (PrivateIPRunFacts.ip_main_eq _ _ _ _
                 (PrivateIP.RunAttached _ _ _ _ _ _ _ _ _ _ _ _
                    Hv Hloc Hne HD HS HP HA)).
      repeat split. cbn [snd trace]. rewrite !mutations_app.
      rewrite (Stage_mutations _ _ _ _ HS), (Prepared_mutations _ _ _ _ _ _ HP).
      reflexivity.
    + intros flags peers Hv Hsel.
      destruct (Stage_from_result _ _ _
                  (PeersFacts.peers_pickFailOverTarget_stage
                     (filterPeers peers (eip_PrivateIP eip)) s1) Hsel)
        as (evs & HS).
      rewrite (PeersRunFacts.peers_main_eq _ _ _ _
                 (Peers.RunAttached _ _ _ _ _ _ _ _ _ _ _ _
                    Hv Hloc HD HS HP HA)).
      repeat split. cbn [snd trace]. rewrite !mutations_app.
      rewrite (Stage_mutations _ _ _ _ HS), (Prepared_mutations _ _ _ _ _ _ HP).
      reflexivity.
  - intros flags ids s1 Hv Hempty HD.
    eapply ids_unparsable_run_after_detach; try eassumption.
    rewrite Hempty. apply ParseIP_empty.
Qed.

End Unattached.

(** With a provider that accepts the detach of an unattached elastic IP,
    the program given peer addresses attaches it to instance 1. *)
Lemma unattached_rerun_detaches_first_witness :
  exitCode (Examples.runPeers "10.0.0.1,10.0.0.3" (Examples.unattached true)) = 0 /\
  pst (snd (Examples.runPeers "10.0.0.1,10.0.0.3" (Examples.unattached true)))
    = snd (Fake.attach 1 7 11 (Examples.unattached true)) /\
  mutations (trace (snd (Examples.runPeers "10.0.0.1,10.0.0.3"
                           (Examples.unattached true))))
    = [CDetach 0 7; CAttach 1 7 11].
Proof.
  assert (Hloc : Located (prov := Fake.prov) (Examples.unattached true)
                   "203.0.113.9" (Fake.released Fake.haEIP))
    by (exists [Fake.released Fake.haEIP]; split; reflexivity).
  edestruct (proj1 (proj2 (proj2
               (unattached_rerun_detaches_first (lib := IPv4.lib)
                  (prov := Fake.prov) (Examples.unattached true) "203.0.113.9"
                  (Fake.released Fake.haEIP) Hloc)))
               (Examples.unattached true)
               (Peers.targetOf Fake.srvA
                  (Fake.withOccupant Fake.nicA zeroElasticIP))
               [] (Examples.unattached true))
    as [_ Hpeers].
  - reflexivity.
  - apply PreparedFree. reflexivity.
  - vm_compute. reflexivity.
  - apply (Hpeers (Examples.peersFlags "10.0.0.1,10.0.0.3")
             ["10.0.0.1"; "10.0.0.3"]); reflexivity.
Defined.

(** C6, as the specification states it, fails.  With the elastic IP
    attached nowhere and a provider that rejects the detach of an
    unattached elastic IP, each of the three programs stops at that
    detach with status 1.  With a provider that accepts it, the program
    given instance IDs still stops with status 1 on "invalid private IP",
    and never calls attach. *)
Lemma unattached_rerun_does_not_recover :
  Examples.runIDs "1,3" (Examples.unattached false)
    = (Exit 1,
       Examples.state (Examples.unattached false)
         [ACall CListElasticIPs true;
          ALog INFO (MsgFoundEIP "203.0.113.9" "" 0);
          ACall (CDetach 0 7) false;
          ALog ERROR (MsgError "elastic ip is not attached")])
  /\ exitCode (Examples.runIP "10.0.0.3" (Examples.unattached false)) = 1
  /\ mutations (trace (snd (Examples.runIP "10.0.0.3"
                              (Examples.unattached false))))
     = [CDetach 0 7]
  /\ exitCode (Examples.runPeers "10.0.0.1,10.0.0.3"
                 (Examples.unattached false)) = 1
  /\ mutations (trace (snd (Examples.runPeers "10.0.0.1,10.0.0.3"
                              (Examples.unattached false))))
     = [CDetach 0 7]
  /\ Examples.runIDs "1,3" (Examples.unattached true)
     = (Exit 1,
        Examples.state (Examples.unattached true)
          [ACall CListElasticIPs true;
           ALog INFO (MsgFoundEIP "203.0.113.9" "" 0);
           ACall (CDetach 0 7) true;
           ALog INFO (MsgDetached "" 0);
           ACall (CGetServer 1) true;
           ALog INFO (MsgPickedInstance 1);
           ACall (CListNetworkInterfaces 1) true;
           ALog ERROR (MsgError "invalid private IP")]).
Proof. repeat split; vm_compute; reflexivity. Qed.

(** * Further properties *)

(** ** Splitting and joining on a separator *)

Section SplitFacts.

Lemma splitOn_not_nil sep s : splitOn sep s <> [].
Proof.
  destruct s as [|c rest]; cbn; [discriminate|].
  destruct (Ascii.eqb c sep); [discriminate|].
  destruct (splitOn sep rest); discriminate.
Qed.

Lemma joinOn_splitOn sep s : joinOn sep (splitOn sep s) = s.
Proof.
  induction s as [|c rest IH]; [reflexivity|].
  cbn [splitOn]. destruct (Ascii.eqb_spec c sep) as [->|Hc].
  - pose proof (splitOn_not_nil sep rest) as Hne.
    cbn [joinOn]. destruct (splitOn sep rest) as [|h t]; [contradiction|].
    now rewrite IH.
  - pose proof (splitOn_not_nil sep rest) as Hne.
    destruct (splitOn sep rest) as [|h t]; [contradiction|].
    cbn [joinOn] in *. destruct t; cbn; now rewrite <- IH.
Qed.

Lemma length_splitOn sep s : List.length (splitOn sep s) = S (countChar sep s).
Proof.
  induction s as [|c rest IH]; [reflexivity|].
  cbn [splitOn countChar]. destruct (Ascii.eqb c sep); cbn [List.length].
  - now rewrite IH.
  - pose proof (splitOn_not_nil sep rest) as Hne.
    destruct (splitOn sep rest) as [|h t]; [contradiction|]. exact IH.
Qed.

Lemma splitOn_pieces sep s :
  Forall (fun v => occurs sep v = false) (splitOn sep s).
Proof.
  induction s as [|c rest IH]; [repeat constructor|].
  cbn [splitOn]. destruct (Ascii.eqb c sep) eqn:Hc.
  - constructor; [reflexivity | exact IH].
  - pose proof (splitOn_not_nil sep rest) as Hne.
    destruct (splitOn sep rest) as [|h t]; [contradiction|].
    inversion IH; subst. constructor; [|assumption].
    cbn. now rewrite Hc.
Qed.

Lemma splitOn_piece sep v : occurs sep v = false -> splitOn sep v = [v].
Proof.
  induction v as [|c rest IH]; [reflexivity|].
  cbn. intros H. apply orb_false_iff in H. destruct H as [Hc Hrest].
  rewrite Hc, (IH Hrest). reflexivity.
Qed.

Lemma splitOn_app_sep sep v rest :
  occurs sep v = false ->
  splitOn sep (v ++ String sep rest) = v :: splitOn sep rest.
Proof.
  induction v as [|c v IH]; cbn.
  - intros _. now rewrite Ascii.eqb_refl.
  - intros H. apply orb_false_iff in H. destruct H as [Hc Hv].
    rewrite Hc, (IH Hv). reflexivity.
Qed.

Lemma splitOn_joinOn sep vals :
  vals <> [] ->
  Forall (fun v => occurs sep v = false) vals ->
  splitOn sep (joinOn sep vals) = vals.
Proof.
  induction vals as [|v rest IH]; [contradiction|].
  intros _ H. inversion H as [|? ? Hv Hrest]; subst.
  cbn [joinOn]. destruct rest as [|w rest'].
  - now apply splitOn_piece.
  - rewrite (splitOn_app_sep _ _ _ Hv). f_equal. apply IH; [discriminate | exact Hrest].
Qed.

Lemma splitOn_trailing sep s :
  splitOn sep (s ++ String sep "") = splitOn sep s ++ [""].
Proof.
  induction s as [|c rest IH]; cbn.
  - now rewrite Ascii.eqb_refl.
  - destruct (Ascii.eqb c sep); rewrite IH; [reflexivity|].
    pose proof (splitOn_not_nil sep rest) as Hne.
    destruct (splitOn sep rest); [contradiction | reflexivity].
Qed.

Lemma joinOn_empty sep vals : joinOn sep vals = "" -> vals = [] \/ vals = [""].
Proof.
  destruct vals as [|v [|w rest]]; cbn; auto.
  - intros ->. auto.
  - destruct v; discriminate.
Qed.

End SplitFacts.

(** ** The flag checks *)

Module FlagFacts.

Section Facts.
Context {lib : GoLib}.

Lemma ids_loop_accepts vals ids :
  InstanceIDs.checkFlagInstances_loop vals = Ok ids <->
  Forall2 (fun v i => Atoi v = Some i) vals ids.
Proof.
  revert ids. induction vals as [|v rest IH]; intros ids; cbn.
  - split; [intros [= <-]; constructor | intros H; now inversion H].
  - destruct (Atoi v) as [n|] eqn:Hv.
    + destruct (InstanceIDs.checkFlagInstances_loop rest) as [l|e] eqn:Hrest.
      * split.
        -- intros [= <-]. constructor; [assumption | now apply IH].
        -- intros H. inversion H as [|? ? ? ? Hh Ht]; subst.
           apply IH in Ht. congruence.
      * split; [discriminate|].
        intros H. inversion H as [|? ? ? ? Hh Ht]; subst.
        apply IH in Ht. discriminate.
    + split; [discriminate|].
      intros H. inversion H; subst. congruence.
Qed.

Lemma ids_loop_rejects vals e :
  InstanceIDs.checkFlagInstances_loop vals = Err e <->
  exists pre v post,
    vals = pre ++ v :: post /\ Forall (fun x => Atoi x <> None) pre /\
    Atoi v = None /\ e = ErrInvalidInstanceID v.
Proof.
  revert e. induction vals as [|x rest IH]; intros e; cbn.
  - split; [discriminate|]. intros (pre & v & post & H & _). now destruct pre.
  - destruct (Atoi x) as [n|] eqn:Hx.
    + destruct (InstanceIDs.checkFlagInstances_loop rest) as [l|e'] eqn:Hrest.
      * split; [discriminate|].
        intros ([|y pre] & v & post & H & Hpre & Hv & ->); inversion H; subst.
        -- congruence.
        -- assert (Hc : Ok l = Err (ErrInvalidInstanceID v) :> result (list Z))
             by (apply IH; inversion Hpre; eauto 10).
           discriminate.
      * split.
        -- intros [= <-]. destruct (proj1 (IH e') eq_refl)
             as (pre & v & post & -> & Hpre & Hv & ->).
           exists (x :: pre), v, post. repeat split; auto.
           constructor; [congruence | assumption].
        -- intros ([|y pre] & v & post & H & Hpre & Hv & ->); inversion H; subst.
           ++ congruence.
           ++ assert (Hc : Err e' = Err (ErrInvalidInstanceID v) :> result (list Z))
                by (apply IH; inversion Hpre; eauto 10).
              congruence.
    + split.
      * intros [= <-]. exists [], x, rest. auto.
      * intros ([|y pre] & v & post & H & Hpre & Hv & ->); inversion H; subst.
        -- reflexivity.
        -- inversion Hpre; subst. congruence.
Qed.

(** X1. A list of instance IDs written as integers separated by commas
    is read back as that list: when no piece contains a comma and
    [strconv.Atoi] reads each piece as the corresponding ID,
    [checkFlagInstances] returns the IDs in their order. *)
Theorem ids_checkFlagInstances_reads_joined_list
  (vals : list string) (ids : list Z) :
  Atoi "" = None ->
  vals <> [] ->
  Forall (fun v => occurs ","%char v = false) vals ->
  Forall2 (fun v i => Atoi v = Some i) vals ids ->
  InstanceIDs.checkFlagInstances (joinOn ","%char vals) = Ok ids.
Proof.
  intros Hempty Hne Hvals Hids. unfold InstanceIDs.checkFlagInstances.
  destruct (String.eqb_spec (joinOn ","%char vals) "") as [Hj|Hj].
  - apply joinOn_empty in Hj. destruct Hj as [-> | ->]; [contradiction|].
    inversion Hids; subst. congruence.
  - unfold splitComma. rewrite (splitOn_joinOn _ _ Hne Hvals).
    now apply ids_loop_accepts.
Qed.

(** X2. An accepted [-instance_ids] flag yields one ID for each
    comma-separated piece, in order: the list is never empty, holds one
    more ID than the flag has commas, and the flag is its pieces joined by
    commas. *)
Theorem ids_checkFlagInstances_accepted (flag : string) (ids : list Z) :
  InstanceIDs.checkFlagInstances flag = Ok ids ->
  flag <> "" /\
  ids <> [] /\
  List.length ids = S (countChar ","%char flag) /\
  Forall2 (fun v i => Atoi v = Some i) (splitComma flag) ids /\
  joinOn ","%char (splitComma flag) = flag.
Proof.
  unfold InstanceIDs.checkFlagInstances.
  destruct (String.eqb_spec flag "") as [->|Hflag]; [discriminate|].
  intros H. apply ids_loop_accepts in H.
  assert (Hlen : List.length ids = S (countChar ","%char flag)).
  { rewrite <- (Forall2_length H). apply length_splitOn. }
  repeat split; auto.
  - intros ->. discriminate.
  - apply joinOn_splitOn.
Qed.

(** X3. [checkFlagInstances] rejects exactly the empty flag, as missing,
    and a flag with a piece that [strconv.Atoi] does not read; the error
    then names the first such piece.  So a flag that ends with a comma is
    rejected, naming the empty piece, when all pieces before it are
    integers and [strconv.Atoi] does not read the empty string. *)
Theorem ids_checkFlagInstances_rejected (flag : string) :
  (forall e,
     InstanceIDs.checkFlagInstances flag = Err e <->
     (flag = "" /\ e = ErrMissingInstanceIDs) \/
     (flag <> "" /\
      exists pre v post,
        splitComma flag = pre ++ v :: post /\
        Forall (fun x => Atoi x <> None) pre /\
        Atoi v = None /\ e = ErrInvalidInstanceID v))
  /\ (Atoi "" = None ->
      Forall (fun x => Atoi x <> None) (splitComma flag) ->
      InstanceIDs.checkFlagInstances (flag ++ ",")
        = Err (ErrInvalidInstanceID "")).
Proof.
  split.
  - intros e. unfold InstanceIDs.checkFlagInstances.
    destruct (String.eqb_spec flag "") as [->|Hflag].
    + split.
      * intros [= <-]. auto.
      * intros [[_ ->] | [H _]]; [reflexivity | contradiction].
    + rewrite ids_loop_rejects. split.
      * intros H. right. auto.
      * intros [[H _] | [_ H]]; [contradiction | exact H].
  - intros Hempty Hall. unfold InstanceIDs.checkFlagInstances.
    destruct (String.eqb_spec (flag ++ ",") "") as [H|_].
    + destruct flag; discriminate.
    + apply ids_loop_rejects. unfold splitComma in *.
      rewrite splitOn_trailing. exists (splitOn ","%char flag), "", [].
      auto.
Qed.

Lemma peers_loop_accepts vals ips :
  Peers.checkFlagIPs_loop vals = Ok ips <->
  Forall2 (fun v s => exists ip, ParseIP v = Some ip /\ s = IPString ip) vals ips.
Proof.
  revert ips. induction vals as [|v rest IH]; intros ips; cbn.
  - split; [intros [= <-]; constructor | intros H; now inversion H].
  - destruct (ParseIP v) as [ip|] eqn:Hv.
    + destruct (Peers.checkFlagIPs_loop rest) as [l|e] eqn:Hrest.
      * split.
        -- intros [= <-]. constructor; [eauto | now apply IH].
        -- intros H. inversion H as [|? ? ? ? (ip' & Hip & ->) Ht]; subst.
           apply IH in Ht. congruence.
      * split; [discriminate|].
        intros H. inversion H as [|? ? ? ? Hh Ht]; subst.
        apply IH in Ht. discriminate.
    + split; [discriminate|].
      intros H. inversion H as [|? ? ? ? (ip' & Hip & _) Ht]; subst. congruence.
Qed.

Lemma peers_loop_rejects vals e :
  Peers.checkFlagIPs_loop vals = Err e <->
  exists pre v post,
    vals = pre ++ v :: post /\ Forall (fun x => ParseIP x <> None) pre /\
    ParseIP v = None /\ e = ErrInvalidIP v.
Proof.
  revert e. induction vals as [|x rest IH]; intros e; cbn.
  - split; [discriminate|]. intros (pre & v & post & H & _). now destruct pre.
  - destruct (ParseIP x) as [n|] eqn:Hx.
    + destruct (Peers.checkFlagIPs_loop rest) as [l|e'] eqn:Hrest.
      * split; [discriminate|].
        intros ([|y pre] & v & post & H & Hpre & Hv & ->); inversion H; subst.
        -- congruence.
        -- assert (Hc : Ok l = Err (ErrInvalidIP v) :> result (list string))
             by (apply IH; inversion Hpre; eauto 10).
           discriminate.
      * split.
        -- intros [= <-]. destruct (proj1 (IH e') eq_refl)
             as (pre & v & post & -> & Hpre & Hv & ->).
           exists (x :: pre), v, post. repeat split; auto.
           constructor; [congruence | assumption].
        -- intros ([|y pre] & v & post & H & Hpre & Hv & ->); inversion H; subst.
           ++ congruence.
           ++ assert (Hc : Err e' = Err (ErrInvalidIP v) :> result (list string))
                by (apply IH; inversion Hpre; eauto 10).
              congruence.
    + split.
      * intros [= <-]. exists [], x, rest. auto.
      * intros ([|y pre] & v & post & H & Hpre & Hv & ->); inversion H; subst.
        -- reflexivity.
        -- inversion Hpre; subst. congruence.
Qed.

(** X4. [checkFlagIPs] accepts a [-peers] flag exactly when every
    comma-separated piece parses as an IP address, and then returns the
    addresses in their canonical text, one per piece; otherwise the error
    names the first piece that does not parse.  The flag has no check for
    being missing: the empty flag, and a flag that ends with a comma after
    valid addresses, are rejected as the invalid address with empty
    text. *)
Theorem peers_checkFlagIPs_result (flag : string) :
  (forall ips,
     Peers.checkFlagIPs flag = Ok ips <->
     Forall2 (fun v s => exists ip, ParseIP v = Some ip /\ s = IPString ip)
       (splitComma flag) ips)
  /\ (forall e,
        Peers.checkFlagIPs flag = Err e <->
        exists pre v post,
          splitComma flag = pre ++ v :: post /\
          Forall (fun x => ParseIP x <> None) pre /\
          ParseIP v = None /\ e = ErrInvalidIP v)
  /\ Peers.checkFlagIPs "" = Err (ErrInvalidIP "")
  /\ (Forall (fun x => ParseIP x <> None) (splitComma flag) ->
      Peers.checkFlagIPs (flag ++ ",") = Err (ErrInvalidIP "")).
Proof.
  unfold Peers.checkFlagIPs. split; [|split; [|split]].
  - intros ips. apply peers_loop_accepts.
  - intros e. apply peers_loop_rejects.
  - cbn. now rewrite ParseIP_empty.
  - intros Hall. apply peers_loop_rejects. unfold splitComma in *.
    rewrite splitOn_trailing. exists (splitOn ","%char flag), "", [].
    repeat split; auto. apply ParseIP_empty.
Qed.

End Facts.

(** The flag "1,2,3" on the IPv4 library. *)
Lemma ids_checkFlagInstances_reads_joined_list_witness :
  InstanceIDs.checkFlagInstances (lib := IPv4.lib) "1,2,3" = Ok [1; 2; 3].
Proof.
  apply (ids_checkFlagInstances_reads_joined_list (lib := IPv4.lib)
           ["1"; "2"; "3"] [1; 2; 3]).
  - reflexivity.
  - discriminate.
  - repeat constructor.
  - repeat constructor.
Defined.

(** The flag "42,7" on the IPv4 library. *)
Lemma ids_checkFlagInstances_accepted_witness :
  "42,7" <> "" /\
  [42; 7] <> [] /\
  List.length [42; 7] = S (countChar ","%char "42,7") /\
  Forall2 (fun v i => Atoi (GoLib := IPv4.lib) v = Some i) (splitComma "42,7") [42; 7] /\
  joinOn ","%char (splitComma "42,7") = "42,7".
Proof.
  apply (ids_checkFlagInstances_accepted (lib := IPv4.lib) "42,7" [42; 7]).
  reflexivity.
Defined.

End FlagFacts.

(** ** Selection by address: errors, and the two variants side by side *)

Module AddressSelection.
Import PeersSelection.

Section Facts.
Context {lib : GoLib} {prov : Provider}.

Lemma peers_loop_none items peers st :
  fst (Peers.pickFailOverTarget_loop items peers st)
    = Ret (Err ErrNoAvailableInstance) <->
  Forall (Peers.passedOver peers (pst st)) items.
Proof.
  induction items as [|x rest IH].
  - split; [constructor | reflexivity].
  - rewrite peers_loop_cons.
    destruct (Z.eqb_spec (srv_Status x) ServerStatusRunning) as [Hst|Hst].
    + destruct (ListNetworkInterfaces (srv_ID x) (pst st)) as [msg|nics] eqn:HL.
      * split; [discriminate|].
        intros H. inversion H as [|? ? [Hx | (ns & Hns & _)]]; subst; congruence.
      * destruct (Peers.pickFailOverTarget_interfaces x nics peers) as [t|] eqn:Hin.
        -- split; [discriminate|].
           intros H. inversion H as [|? ? [Hx | (ns & Hns & Hnone)]]; subst;
             [congruence|].
           rewrite HL in Hns. injection Hns as <-.
           first [ apply (proj2 (peers_interfaces_none x _ _)) in Hnone
                   | apply (proj2 (peers_interfaces_none y _ _)) in Hnone ].
           congruence.
        -- apply peers_interfaces_none in Hin. rewrite IH. split.
           ++ intros H. constructor; [right; exists nics; auto | assumption].
           ++ intros H. now inversion H.
    + rewrite IH. split.
      * intros H. constructor; [now left | assumption].
      * intros H. now inversion H.
Qed.

Lemma peers_loop_provider items peers st msg :
  fst (Peers.pickFailOverTarget_loop items peers st)
    = Ret (Err (ErrProvider msg)) <->
  exists pre instance post,
    items = pre ++ instance :: post /\
    Forall (Peers.passedOver peers (pst st)) pre /\
    srv_Status instance = ServerStatusRunning /\
    ListNetworkInterfaces (srv_ID instance) (pst st) = inl msg.
Proof.
  induction items as [|x rest IH].
  - split; [discriminate|]. intros (pre & i & post & H & _). now destruct pre.
  - rewrite peers_loop_cons.
    destruct (Z.eqb_spec (srv_Status x) ServerStatusRunning) as [Hst|Hst].
    + destruct (ListNetworkInterfaces (srv_ID x) (pst st)) as [msg'|nics] eqn:HL.
      * split.
        -- intros [= ->]. exists [], x, rest. auto.
        -- intros ([|y pre] & i & post & H & Hpre & Hrun & HL'); inversion H; subst.
           ++ congruence.
           ++ inversion Hpre as [|? ? [Hy | (ns & Hns & _)]]; subst; congruence.
      * destruct (Peers.pickFailOverTarget_interfaces x nics peers) as [t|] eqn:Hin.
        -- split; [discriminate|].
           intros ([|y pre] & i & post & H & Hpre & Hrun & HL'); inversion H; subst.
           ++ congruence.
           ++ inversion Hpre as [|? ? [Hy | (ns & Hns & Hnone)]]; subst;
                [congruence|].
              rewrite HL in Hns. injection Hns as <-.
              first [ apply (proj2 (peers_interfaces_none x _ _)) in Hnone
                   | apply (proj2 (peers_interfaces_none y _ _)) in Hnone ].
           congruence.
        -- apply peers_interfaces_none in Hin. rewrite IH. split.
           ++ intros (pre & i & post & -> & Hpre & Hrun & HL').
              exists (x :: pre), i, post. repeat split; auto.
              constructor; [right; exists nics; auto | assumption].
           ++ intros ([|y pre] & i & post & H & Hpre & Hrun & HL'); inversion H; subst.
              ** congruence.
              ** inversion Hpre; subst. exists pre, i, post. auto.
    + rewrite IH. split.
      * intros (pre & i & post & -> & Hpre & Hrun & HL').
        exists (x :: pre), i, post. repeat split; auto.
        constructor; [now left | assumption].
      * intros ([|y pre] & i & post & H & Hpre & Hrun & HL'); inversion H; subst.
        -- contradiction.
        -- inversion Hpre; subst. exists pre, i, post. auto.
Qed.

Lemma peers_loop_error_kinds items peers st e :
  fst (Peers.pickFailOverTarget_loop items peers st) = Ret (Err e) ->
  e = ErrNoAvailableInstance \/ exists msg, e = ErrProvider msg.
Proof.
  induction items as [|x rest IH].
  - intros [= <-]. now left.
  - rewrite peers_loop_cons.
    destruct (srv_Status x =? ServerStatusRunning); [|exact IH].
    destruct (ListNetworkInterfaces (srv_ID x) (pst st)) as [msg|nics].
    + intros [= <-]. right. eauto.
    + destruct (Peers.pickFailOverTarget_interfaces x nics peers);
        [discriminate | exact IH].
Qed.

Lemma peers_pick_none peers st :
  fst (Peers.pickFailOverTarget peers st) = Ret (Err ErrNoAvailableInstance) <->
  exists items,
    ListServers (pst st) = inr items /\
    Forall (Peers.passedOver peers (pst st)) items.
Proof.
  rewrite peers_pickFailOverTarget_result.
  destruct (ListServers (pst st)) as [msg|items].
  - split; [discriminate | intros (items & H & _); discriminate].
  - rewrite peers_loop_none. split.
    + intros H. eauto.
    + intros (items' & [= <-] & H). exact H.
Qed.

Lemma peers_pick_error_kinds peers st e :
  fst (Peers.pickFailOverTarget peers st) = Ret (Err e) ->
  e = ErrNoAvailableInstance \/ exists msg, e = ErrProvider msg.
Proof.
  rewrite peers_pickFailOverTarget_result.
  destruct (ListServers (pst st)) as [msg|items].
  - intros [= <-]. right. eauto.
  - apply peers_loop_error_kinds.
Qed.

(** X5. [pickFailOverTarget] reports "no available instance found"
    exactly when the servers are listed and every one of them is not
    running or has its interfaces listed with no address of the peer list.
    It returns the provider's error exactly when the listing of the
    servers fails, or the listing of the interfaces of a running instance
    fails before any match: the instances after it are not tried.  It has
    no other error, and with an empty peer list it never returns a
    target. *)
Theorem peers_pickFailOverTarget_errors (peers : list string) (st : RunState) :
  (fst (Peers.pickFailOverTarget peers st) = Ret (Err ErrNoAvailableInstance) <->
   exists items,
     ListServers (pst st) = inr items /\
     Forall (Peers.passedOver peers (pst st)) items)
  /\ (forall msg,
        fst (Peers.pickFailOverTarget peers st) = Ret (Err (ErrProvider msg)) <->
        ListServers (pst st) = inl msg \/
        exists pre instance post,
          ListServers (pst st) = inr (pre ++ instance :: post) /\
          Forall (Peers.passedOver peers (pst st)) pre /\
          srv_Status instance = ServerStatusRunning /\
          ListNetworkInterfaces (srv_ID instance) (pst st) = inl msg)
  /\ (forall e,
        fst (Peers.pickFailOverTarget peers st) = Ret (Err e) ->
        e = ErrNoAvailableInstance \/ exists msg, e = ErrProvider msg)
  /\ (peers = [] ->
      forall target, fst (Peers.pickFailOverTarget peers st) <> Ret (Ok target)).
Proof.
  split; [apply peers_pick_none|].
  split; [|split; [exact (peers_pick_error_kinds peers st)|]].
  - intros msg. rewrite peers_pickFailOverTarget_result. destruct (ListServers (pst st)) as [msg'|items].
    + split.
      * intros [= ->]. now left.
      * intros [[= ->] | (pre & i & post & H & _)]; [reflexivity | discriminate].
    + rewrite peers_loop_provider. split.
      * intros (pre & i & post & -> & H). right. exists pre, i, post. auto.
      * intros [H | (pre & i & post & [= ->] & H)]; [discriminate|].
        exists pre, i, post. auto.
  - intros -> target H.
    apply peers_pickFailOverTarget_ok in H.
    destruct H as (instance & nic & (pre & post & npre & npost & H) & _).
    destruct H as (_ & _ & _ & _ & _ & []).
Qed.

Lemma ip_interfaces_agree instance nics privateIP :
  PrivateIP.findFailOverTarget_interfaces instance nics privateIP
    = Peers.pickFailOverTarget_interfaces instance nics [privateIP].
Proof.
  induction nics as [|x rest IH]; cbn; [reflexivity|].
  unfold Peers.inPeers. cbn. rewrite orb_false_r.
  destruct (nic_PrivateIP x =? privateIP)%string; [reflexivity | exact IH].
Qed.

Lemma ip_loop_agrees items privateIP st :
  PrivateIP.findFailOverTarget_loop items privateIP st
    = notFoundAs privateIP (Peers.pickFailOverTarget_loop items [privateIP] st).
Proof.
  revert st. induction items as [|x rest IH]; intros st; cbn; [reflexivity|].
  destruct (negb (srv_Status x =? ServerStatusRunning)); [apply IH|].
  unfold bind, networkInterfacesList, read.
  destruct (ListNetworkInterfaces (srv_ID x) (pst st)) as [msg|nics]; cbn;
    [reflexivity|].
  rewrite ip_interfaces_agree.
  destruct (Peers.pickFailOverTarget_interfaces x nics [privateIP]);
    [reflexivity | apply IH].
Qed.

Lemma ip_pick_agreement privateIP st :
  PrivateIP.findFailOverTarget privateIP st
    = notFoundAs privateIP (Peers.pickFailOverTarget [privateIP] st).
Proof.
  unfold PrivateIP.findFailOverTarget, Peers.pickFailOverTarget, bind,
    serverList, read.
  destruct (ListServers (pst st)) as [msg|items]; cbn; [reflexivity|].
  apply ip_loop_agrees.
Qed.

(** X6. The two selections by address agree: [findFailOverTarget] given
    an address does what [pickFailOverTarget] does given the list holding
    just that address, with the same provider calls and the same target
    or provider error, except that it words the failure to find a target
    as "fail over instance with private ip ... not found". *)
Theorem ip_findFailOverTarget_agrees_with_peers
  (privateIP : string) (st : RunState) :
  PrivateIP.findFailOverTarget privateIP st
    = notFoundAs privateIP (Peers.pickFailOverTarget [privateIP] st).
Proof. apply ip_pick_agreement. Qed.

Lemma notFoundAs_ok p r t :
  fst (notFoundAs p r) = Ret (Ok t) <-> fst r = Ret (Ok t).
Proof.
  destruct r as [[[a|e]|c] st]; cbn; try tauto.
  destruct e; cbn; try tauto. split; discriminate.
Qed.

Lemma notFoundAs_none p r :
  (forall e, fst r = Ret (Err e) ->
             e = ErrNoAvailableInstance \/ exists msg, e = ErrProvider msg) ->
  (fst (notFoundAs p r) = Ret (Err (ErrFailOverNotFound p)) <->
   fst r = Ret (Err ErrNoAvailableInstance)).
Proof.
  intros Hkinds. destruct r as [[[a|e]|c] st]; cbn in *; try (split; discriminate).
  destruct (Hkinds e eq_refl) as [-> | (msg & ->)]; cbn.
  - tauto.
  - split; discriminate.
Qed.

Lemma single_not_in (p x : string) : ~ In x [p] <-> x <> p.
Proof. cbn. split; [intros H Heq; subst; auto | intros H [Heq | []]; auto]. Qed.

Lemma Forall_single_not_in p (nics : list NetworkInterface) :
  Forall (fun n => ~ In (nic_PrivateIP n) [p]) nics <->
  Forall (fun n => nic_PrivateIP n <> p) nics.
Proof.
  split; apply Forall_impl; intros n; apply single_not_in.
Qed.

Lemma passedOver_single p s instance :
  Peers.passedOver [p] s instance <-> hasNoInterfaceAt p s instance.
Proof.
  unfold Peers.passedOver, hasNoInterfaceAt. split.
  - intros [H | (nics & HL & H)]; [now left | right].
    exists nics. split; [assumption | now apply Forall_single_not_in].
  - intros [H | (nics & HL & H)]; [now left | right].
    exists nics. split; [assumption | now apply Forall_single_not_in].
Qed.

Lemma Forall_passedOver_single p s items :
  Forall (Peers.passedOver [p] s) items <-> Forall (hasNoInterfaceAt p s) items.
Proof. split; apply Forall_impl; intros i; apply passedOver_single. Qed.

Lemma firstPeerInterface_single p s instance nic :
  Peers.firstPeerInterface [p] s instance nic <-> firstInterfaceAt p s instance nic.
Proof.
  unfold Peers.firstPeerInterface, firstInterfaceAt. split.
  - intros (pre & post & npre & npost & HL & Hpre & Hrun & HN & Hnpre & Hin).
    exists pre, post, npre, npost. repeat split; auto.
    + now apply Forall_passedOver_single.
    + now apply Forall_single_not_in.
    + destruct Hin as [H | []]. now symmetry.
  - intros (pre & post & npre & npost & HL & Hpre & Hrun & HN & Hnpre & Hin).
    exists pre, post, npre, npost. repeat split; auto.
    + now apply Forall_passedOver_single.
    + now apply Forall_single_not_in.
    + left. now symmetry.
Qed.

(** X7. [findFailOverTarget] returns the target built from the first
    interface whose private address is exactly the given one, going
    through the running instances in the provider's listing order and
    through each one's interfaces in their order; instances that are not
    running are passed over.  It reports "fail over instance ... not
    found" exactly when the servers are listed and every one of them is
    not running or has its interfaces listed with none at that
    address. *)
Theorem ip_findFailOverTarget_first_at_address
  (privateIP : string) (st : RunState) :
  (forall target,
     fst (PrivateIP.findFailOverTarget privateIP st) = Ret (Ok target) <->
     exists instance nic,
       firstInterfaceAt privateIP (pst st) instance nic /\
       target = {| InstanceID := srv_ID instance;
                   InstanceName := srv_Name instance;
                   NetworkInterfaceID := nic_ID nic;
                   AttachedEIP := nic_AttachedElasticIP nic |})
  /\ (fst (PrivateIP.findFailOverTarget privateIP st)
        = Ret (Err (ErrFailOverNotFound privateIP)) <->
      exists items,
        ListServers (pst st) = inr items /\
        Forall (hasNoInterfaceAt privateIP (pst st)) items).
Proof.
  rewrite ip_pick_agreement. split.
  - intros target. rewrite notFoundAs_ok, peers_pickFailOverTarget_ok.
    split; intros (instance & nic & H & ->); exists instance, nic;
      (split; [now apply firstPeerInterface_single | reflexivity]).
  - rewrite notFoundAs_none.
    + rewrite peers_pick_none.
      split; intros (items & HL & H); exists items;
        (split; [assumption | now apply Forall_passedOver_single]).
    + apply peers_pick_error_kinds.
Qed.

End Facts.
End AddressSelection.

(** ** Selection by instance ID: the calls made and the errors *)

Module InstanceIDsQueries.
Import InstanceIDs InstanceIDsSelection.

Section Facts.
Context {lib : GoLib} {prov : Provider}.

Lemma issues_issues (st : RunState) evs evs' :
  issues (issues st evs) evs' = issues st (evs ++ evs').
Proof. unfold issues. cbn. now rewrite <- app_assoc. Qed.

Lemma statusQueries_app f xs ys :
  statusQueries f (xs ++ ys) = statusQueries f xs ++ statusQueries f ys.
Proof. unfold statusQueries. now rewrite filter_app, map_app. Qed.

Lemma pst_issues (st : RunState) evs : pst (issues st evs) = pst st.
Proof. reflexivity. Qed.

Lemma record_issues a (st : RunState) evs :
  record a (issues st evs) = issues st (evs ++ [a]).
Proof. unfold issues, record. cbn. now rewrite <- app_assoc. Qed.

Lemma statusQueries_single f i :
  (i =? f) = false -> statusQueries f [i] = [ACall (CGetServer i) true].
Proof. intros H. unfold statusQueries. cbn. now rewrite H. Qed.

Lemma ids_pickNextInstance_skips pre rest f st :
  Forall (skipped f (pst st)) pre ->
  pickNextInstance (pre ++ rest) f st
    = pickNextInstance rest f (issues st (statusQueries f pre)).
Proof.
  revert st. induction pre as [|i pre IH]; intros st Hpre.
  - cbn. now rewrite issues_nil.
  - inversion Hpre as [|? ? Hi Hpre']; subst.
    cbn [app pickNextInstance]. unfold statusQueries. cbn [filter].
    destruct (Z.eqb_spec i f) as [->|Hif]; cbn [negb].
    + now apply IH.
    + destruct Hi as [Hi | (server & HG & Hst)]; [contradiction|].
      unfold bind, serverGet, read. rewrite HG. cbn [wrap isOk].
      apply Z.eqb_neq in Hst. rewrite Hst. cbn [negb map].
      rewrite IH by exact Hpre'. now rewrite issues_record.
Qed.

(** X8. When [pickNextInstance] returns an instance, it has asked the
    provider for the status of the candidates before it and of the
    instance itself, one query each in list order, leaving out the
    entries equal to the failed instance; the candidates after the
    returned one are not queried. *)
Theorem ids_pickNextInstance_queries_up_to_choice
  (pre post : list Z) (instanceID unavailableInstanceID : Z) (st : RunState) :
  Forall (skipped unavailableInstanceID (pst st)) pre ->
  instanceID <> unavailableInstanceID ->
  runningAt (pst st) instanceID ->
  pickNextInstance (pre ++ instanceID :: post) unavailableInstanceID st
    = (Ret (Ok instanceID),
       issues st (statusQueries unavailableInstanceID (pre ++ [instanceID]))).
Proof.
  intros Hpre Hne (server & HG & Hst).
  rewrite ids_pickNextInstance_skips by exact Hpre.
  cbn [pickNextInstance]. apply Z.eqb_neq in Hne. rewrite Hne.
  unfold bind, serverGet, read. rewrite pst_issues, HG. cbn [wrap isOk].
  apply Z.eqb_eq in Hst. rewrite Hst. cbn [negb].
  rewrite statusQueries_app, (statusQueries_single _ _ Hne).
  unfold ret. now rewrite record_issues.
Qed.

(** X9. A status query the provider fails ends [pickNextInstance] with the
    provider's error, after the queries of the candidates passed over
    before it: the candidates after it are not tried, whether or not one
    of them is running. *)
Theorem ids_pickNextInstance_failed_query_aborts
  (pre post : list Z) (instanceID unavailableInstanceID : Z) (msg : string)
  (st : RunState) :
  Forall (skipped unavailableInstanceID (pst st)) pre ->
  instanceID <> unavailableInstanceID ->
  GetServer instanceID (pst st) = inl msg ->
  pickNextInstance (pre ++ instanceID :: post) unavailableInstanceID st
    = (Ret (Err (ErrProvider msg)),
       issues st (statusQueries unavailableInstanceID pre
                  ++ [ACall (CGetServer instanceID) false])).
Proof.
  intros Hpre Hne HG.
  rewrite ids_pickNextInstance_skips by exact Hpre.
  cbn [pickNextInstance]. apply Z.eqb_neq in Hne. rewrite Hne.
  unfold bind, serverGet, read. rewrite pst_issues, HG. cbn [wrap isOk].
  unfold ret. now rewrite record_issues.
Qed.

Lemma statusQuery_cons i ids f a :
  statusQuery ids f a -> statusQuery (i :: ids) f a.
Proof.
  intros (j & ok & -> & Hin & Hne). exists j, ok. repeat split; auto.
  now right.
Qed.

Lemma ids_pickNextInstance_calls ids f st :
  exists r evs,
    pickNextInstance ids f st = (Ret r, issues st evs) /\
    Forall (statusQuery ids f) evs /\
    (List.length evs <= List.length ids)%nat.
Proof.
  revert st. induction ids as [|i rest IH]; intros st.
  - exists (Err ErrNoAvailableInstance), []. cbn. rewrite issues_nil. auto.
  - cbn [pickNextInstance].
    destruct (Z.eqb_spec i f) as [->|Hif].
    + destruct (IH st) as (r & evs & HR & Hq & Hlen).
      exists r, evs. repeat split; [exact HR | | cbn; lia].
      revert Hq. apply Forall_impl. intros a. apply statusQuery_cons.
    + unfold bind, serverGet, read.
      assert (Hq0 : forall ok, statusQuery (i :: rest) f (ACall (CGetServer i) ok)).
      { intros ok. exists i, ok. repeat split; auto. now left. }
      destruct (GetServer i (pst st)) as [msg|server]; cbn [wrap isOk].
      * exists (Err (ErrProvider msg)), [ACall (CGetServer i) false].
        unfold ret. rewrite <- issues_record, issues_nil.
        repeat split; [auto | cbn; lia].
      * destruct (srv_Status server =? ServerStatusRunning); cbn [negb].
        -- exists (Ok i), [ACall (CGetServer i) true].
           unfold ret. rewrite <- issues_record, issues_nil.
           repeat split; [auto | cbn; lia].
        -- destruct (IH (record (ACall (CGetServer i) true) st))
             as (r & evs & HR & Hq & Hlen).
           exists r, (ACall (CGetServer i) true :: evs).
           rewrite HR, issues_record. repeat split; [ | cbn; lia].
           constructor; [apply Hq0|].
           revert Hq. apply Forall_impl. intros a. apply statusQuery_cons.
Qed.

Lemma ids_pickNextInstance_no_instance ids f st :
  fst (pickNextInstance ids f st) = Ret (Err ErrNoAvailableInstance) <->
  Forall (skipped f (pst st)) ids.
Proof.
  split; [|apply ids_pickNextInstance_none].
  induction ids as [|i rest IH]; [constructor|].
  rewrite ids_pickNextInstance_cons.
  destruct (Z.eqb_spec i f) as [->|Hif].
  - intros H. constructor; [now left | auto].
  - destruct (GetServer i (pst st)) as [msg|server] eqn:HG; [discriminate|].
    destruct (Z.eqb_spec (srv_Status server) ServerStatusRunning) as [Hst|Hst];
      [discriminate|].
    intros H. constructor; [right; exists server; auto | auto].
Qed.

Lemma statusQueries_cons_failed f pre :
  statusQueries f (f :: pre) = statusQueries f pre.
Proof. unfold statusQueries. cbn. now rewrite Z.eqb_refl. Qed.

Lemma statusQueries_cons_other f i pre :
  i <> f ->
  statusQueries f (i :: pre) = ACall (CGetServer i) true :: statusQueries f pre.
Proof.
  intros H. apply Z.eqb_neq in H. unfold statusQueries. cbn. now rewrite H.
Qed.

Lemma ids_pickNextInstance_prefix ids f st :
  exists r evs queried rest,
    pickNextInstance ids f st = (Ret r, issues st evs) /\
    ids = queried ++ rest /\
    (evs = statusQueries f queried \/
     exists i rest',
       rest = i :: rest' /\ i <> f /\
       evs = statusQueries f queried ++ [ACall (CGetServer i) false]).
Proof.
  revert st. induction ids as [|i ids IH]; intros st.
  - exists (Err ErrNoAvailableInstance), [], [], []. cbn.
    rewrite issues_nil. auto.
  - cbn [pickNextInstance].
    destruct (Z.eqb_spec i f) as [->|Hif].
    + destruct (IH st) as (r & evs & queried & rest & HR & -> & Hevs).
      exists r, evs, (f :: queried), rest.
      rewrite statusQueries_cons_failed. auto.
    + unfold bind, serverGet, read.
      destruct (GetServer i (pst st)) as [msg|server]; cbn [wrap isOk].
      * exists (Err (ErrProvider msg)), [ACall (CGetServer i) false], [], (i :: ids).
        unfold ret. rewrite <- issues_record, issues_nil.
        repeat split. right. exists i, ids. auto.
      * destruct (srv_Status server =? ServerStatusRunning); cbn [negb].
        -- exists (Ok i), [ACall (CGetServer i) true], [i], ids.
           unfold ret. rewrite <- issues_record, issues_nil.
           rewrite (statusQueries_cons_other _ _ _ Hif). auto.
        -- destruct (IH (record (ACall (CGetServer i) true) st))
             as (r & evs & queried & rest & HR & -> & Hevs).
           exists r, (ACall (CGetServer i) true :: evs), (i :: queried), rest.
           rewrite HR, issues_record, (statusQueries_cons_other _ _ _ Hif).
           repeat split.
           destruct Hevs as [-> | (j & rest' & -> & Hj & ->)]; [now left|].
           right. exists j, rest'. auto.
Qed.

(** X10. Whatever the provider holds, [pickNextInstance] never changes
    its state and calls it only with status queries, at most one per
    entry of the candidate list: for the entries of a prefix of the list,
    one successful query for each entry other than the failed instance,
    in list order, followed at most by one failed query, of the next
    entry.  It reports "no available instance found" exactly when every
    entry is the failed instance or is reported as not running, which is
    the case of the empty list. *)
Theorem ids_pickNextInstance_queries_candidates_only
  (haInstanceIDs : list Z) (unavailableInstanceID : Z) (st : RunState) :
  (exists r evs queried rest,
     pickNextInstance haInstanceIDs unavailableInstanceID st
       = (Ret r, issues st evs) /\
     haInstanceIDs = queried ++ rest /\
     (evs = statusQueries unavailableInstanceID queried \/
      exists i rest',
        rest = i :: rest' /\ i <> unavailableInstanceID /\
        evs = statusQueries unavailableInstanceID queried
              ++ [ACall (CGetServer i) false]))
  /\ (exists r evs,
        pickNextInstance haInstanceIDs unavailableInstanceID st
          = (Ret r, issues st evs) /\
        Forall (statusQuery haInstanceIDs unavailableInstanceID) evs /\
        (List.length evs <= List.length haInstanceIDs)%nat)
  /\ (fst (pickNextInstance haInstanceIDs unavailableInstanceID st)
        = Ret (Err ErrNoAvailableInstance) <->
      Forall (skipped unavailableInstanceID (pst st)) haInstanceIDs).
Proof.
  split; [apply ids_pickNextInstance_prefix|].
  split; [apply ids_pickNextInstance_calls | apply ids_pickNextInstance_no_instance].
Qed.

Lemma ids_loop_error_kinds items ip e :
  pickNetworkInterface_loop items ip = Err e ->
  e = ErrInvalidCIDR \/ e = ErrNoNICInNetwork.
Proof.
  induction items as [|x rest IH]; cbn.
  - intros [= <-]. now right.
  - destruct (ParseCIDR (nic_CIDR x)) as [ipNet|].
    + destruct (Contains ipNet ip); [discriminate | exact IH].
    + intros [= <-]. now left.
Qed.

(** X11. The errors of [pickNetworkInterface], each with the exact case
    it arises in.  The listing of the interfaces is the only call, made
    whatever the address; its failure is returned as it is.  With the
    interfaces listed, an address that does not parse gives "invalid
    private IP" whatever the interfaces are; otherwise the first
    interface whose subnet does not parse, with no interface before it
    containing the address, gives "invalid CIDR"; and "no network
    interface in same network ..." is returned exactly when every subnet
    parses and none contains the address. *)
Theorem ids_pickNetworkInterface_errors
  (instanceID : Z) (previousPrivateIP : string) (st : RunState) :
  let r := pickNetworkInterface instanceID previousPrivateIP st in
  (forall msg,
     fst r = Ret (Err (ErrProvider msg)) <->
     ListNetworkInterfaces instanceID (pst st) = inl msg)
  /\ (fst r = Ret (Err ErrInvalidPrivateIP) <->
      exists items,
        ListNetworkInterfaces instanceID (pst st) = inr items /\
        ParseIP previousPrivateIP = None)
  /\ (fst r = Ret (Err ErrInvalidCIDR) <->
      exists previousIP pre nic post,
        ListNetworkInterfaces instanceID (pst st) = inr (pre ++ nic :: post) /\
        ParseIP previousPrivateIP = Some previousIP /\
        Forall (outside previousIP) pre /\
        ParseCIDR (nic_CIDR nic) = None)
  /\ (fst r = Ret (Err ErrNoNICInNetwork) <->
      exists previousIP items,
        ListNetworkInterfaces instanceID (pst st) = inr items /\
        ParseIP previousPrivateIP = Some previousIP /\
        Forall (outside previousIP) items)
  /\ snd r = record (ACall (CListNetworkInterfaces instanceID)
                       (match ListNetworkInterfaces instanceID (pst st) with
                        | inr _ => true
                        | inl _ => false
                        end)) st.
Proof.
  cbv zeta.
  repeat split; try rewrite ids_pickNetworkInterface_result.
  - destruct (ListNetworkInterfaces instanceID (pst st)) as [m|items].
    + now intros [= ->].
    + destruct (ParseIP previousPrivateIP) as [ip|]; [|discriminate].
      intros [= H]. apply ids_loop_error_kinds in H. destruct H; discriminate.
  - now intros ->.
  - destruct (ListNetworkInterfaces instanceID (pst st)) as [m|items];
      [discriminate|].
    destruct (ParseIP previousPrivateIP) as [ip|]; [|eauto].
    intros [= H]. apply ids_loop_error_kinds in H. destruct H; discriminate.
  - now intros (items & -> & ->).
  - destruct (ListNetworkInterfaces instanceID (pst st)) as [m|items];
      [discriminate|].
    destruct (ParseIP previousPrivateIP) as [ip|]; [|discriminate].
    intros [= H]. apply ids_loop_invalid in H.
    destruct H as (pre & nic & post & -> & Hpre & Hbad).
    exists ip, pre, nic, post. auto.
  - intros (ip & pre & nic & post & -> & -> & Hpre & Hbad). f_equal.
    apply ids_loop_invalid. exists pre, nic, post. auto.
  - destruct (ListNetworkInterfaces instanceID (pst st)) as [m|items];
      [discriminate|].
    destruct (ParseIP previousPrivateIP) as [ip|]; [|discriminate].
    intros [= H]. apply ids_loop_none in H. exists ip, items. auto.
  - intros (ip & items & -> & -> & H). f_equal. now apply ids_loop_none.
  - unfold pickNetworkInterface, bind, networkInterfacesList, read.
    destruct (ListNetworkInterfaces instanceID (pst st)) as [m|items]; cbn;
      [reflexivity|].
    now destruct (ParseIP previousPrivateIP).
Qed.

End Facts.

Import Fake Examples.

Lemma ids_pickNextInstance_queries_up_to_choice_witness :
  pickNextInstance (prov := Fake.prov) [1; 2; 3; 2] 1 (start world)
    = (Ret (Ok 3),
       state world [ACall (CGetServer 2) true; ACall (CGetServer 3) true]).
Proof.
  apply (ids_pickNextInstance_queries_up_to_choice (prov := Fake.prov)
           [1; 2] [2] 3 1 (start world)).
  - constructor; [left; reflexivity|].
    constructor; [right; exists srvB; split; [reflexivity | discriminate]|].
    constructor.
  - discriminate.
  - exists srvC. split; reflexivity.
Defined.

Lemma ids_pickNextInstance_failed_query_aborts_witness :
  pickNextInstance (prov := Fake.prov) [1; 2; 9; 3] 1 (start world)
    = (Ret (Err (ErrProvider "server not found")),
       state world [ACall (CGetServer 2) true; ACall (CGetServer 9) false]).
Proof.
  apply (ids_pickNextInstance_failed_query_aborts (prov := Fake.prov)
           [1; 2] [3] 9 1 "server not found" (start world)).
  - constructor; [left; reflexivity|].
    constructor; [right; exists srvB; split; [reflexivity | discriminate]|].
    constructor.
  - discriminate.
  - reflexivity.
Defined.

End InstanceIDsQueries.

(** ** Whole runs: where the attach call goes, and the calls that change
    the provider's state *)

Section AttachEndpoint.
Context {lib : GoLib} {prov : Provider}.

Lemma checkFlagEIP_ok flag haEIP : checkFlagEIP flag = Ok haEIP -> haEIP = flag.
Proof.
  unfold checkFlagEIP. destruct (flag =? "")%string; [discriminate|].
  destruct (ParseIP flag); [now intros [= <-] | discriminate].
Qed.

Lemma ids_validated_eip flags haEIP ids :
  InstanceIDs.validated flags = Ok (haEIP, ids) ->
  haEIP = InstanceIDs.flagEIP flags.
Proof.
  unfold InstanceIDs.validated.
  destruct (checkFlagToken _); [|discriminate].
  destruct (checkFlagEIP _) as [h|] eqn:He; [|discriminate].
  destruct (InstanceIDs.checkFlagInstances _); [|discriminate].
  intros [= <- _]. now apply checkFlagEIP_ok.
Qed.

Lemma ip_validated_eip flags haEIP privateIP :
  PrivateIP.validated flags = Ok (haEIP, privateIP) ->
  haEIP = PrivateIP.flagEIP flags.
Proof.
  unfold PrivateIP.validated.
  destruct (checkFlagToken _); [|discriminate].
  destruct (checkFlagEIP _) as [h|] eqn:He; [|discriminate].
  destruct (PrivateIP.checkFlagIP _); [|discriminate].
  intros [= <- _]. now apply checkFlagEIP_ok.
Qed.

Lemma peers_validated_eip flags haEIP haPeerIPs :
  Peers.validated flags = Ok (haEIP, haPeerIPs) ->
  haEIP = Peers.flagEIP flags.
Proof.
  unfold Peers.validated.
  destruct (checkFlagToken _); [|discriminate].
  destruct (checkFlagEIP _) as [h|] eqn:He; [|discriminate].
  destruct (Peers.checkFlagIPs _); [|discriminate].
  intros [= <- _]. now apply checkFlagEIP_ok.
Qed.

Lemma Located_public s haEIP eip : Located s haEIP eip -> eip_PublicIP eip = haEIP.
Proof.
  intros (items & _ & H). apply findElasticIPID_loop_ok in H.
  now destruct H as (pre & post & _ & _ & H).
Qed.

Lemma ids_Stage_running ids f s instanceID evs :
  Stage (InstanceIDs.pickNextInstance ids f) s (Ok instanceID) evs ->
  instanceID <> f /\ InstanceIDs.runningAt s instanceID.
Proof.
  intros HS. pose proof (Stage_result _ _ _ _ (initial s) HS eq_refl) as Hr.
  apply InstanceIDsSelection.ids_pickNextInstance_ok in Hr.
  destruct Hr as (pre & post & _ & _ & Hne & Hrun). auto.
Qed.

(** X12. In a run of [main.go], an attach call is addressed to the
    instance the elastic IP was detached from, the one recorded as its
    attachment when the run located it under the [-eip] flag's text; the
    interface it names is listed under another instance, the running one
    that [pickNextInstance] returned. *)
Theorem ids_attach_goes_through_failed_instance
  (flags : InstanceIDs.Flags) (s : PState) (i e n : Z) (ok : bool) :
  In (ACall (CAttach i e n) ok)
    (trace (snd (InstanceIDs.main flags (initial s)))) ->
  exists eip s1 instanceID,
    Located s (InstanceIDs.flagEIP flags) eip /\
    eip_PublicIP eip = InstanceIDs.flagEIP flags /\
    DetachElasticIP (att_ID (eip_Attachment eip)) (eip_ID eip) s = (None, s1) /\
    i = att_ID (eip_Attachment eip) /\ e = eip_ID eip /\
    InstanceIDs.runningAt s1 instanceID /\
    listedUnder s1 instanceID n /\
    instanceID <> i.
Proof.
  destruct (InstanceIDsSelection.ids_main_cases flags s) as (o & st & -> & HR).
  cbn [snd]. intros Hin.
  inversion HR; subst; cbn [trace] in Hin; split_in;
    injection Hin as <- <- <- <-;
    match goal with
    | HV : InstanceIDs.validated _ = Ok _ |- _ =>
        apply ids_validated_eip in HV; subst
    end;
    match goal with
    | HS : Stage (InstanceIDs.pickNextInstance _ _) _ (Ok _) _ |- _ =>
        destruct (ids_Stage_running _ _ _ _ _ HS) as [Hne Hrun]
    end;
    match goal with
    | HS : Stage (InstanceIDs.pickNetworkInterface _ _) _ (Ok _) _ |- _ =>
        destruct (ids_Stage_interface _ _ _ _ _ HS) as (items & HL & Hnic)
    end;
    exists eip, s1, instanceID;
    (repeat split; auto;
     [ eapply Located_public; eassumption
     | exists items, nic; auto ]).
Qed.

(** X13. In a run of the [-ip] and of the [-peers] program, an attach call
    is addressed to the instance under which the provider lists the
    interface it names, and carries the elastic IP located under the
    [-eip] flag's text. *)
Theorem address_attach_goes_through_owner :
  (forall flags s i e n ok,
     In (ACall (CAttach i e n) ok)
       (trace (snd (PrivateIP.main flags (initial s)))) ->
     exists eip s1,
       Located s (PrivateIP.flagEIP flags) eip /\
       eip_PublicIP eip = PrivateIP.flagEIP flags /\
       DetachElasticIP (att_ID (eip_Attachment eip)) (eip_ID eip) s
         = (None, s1) /\
       e = eip_ID eip /\ listedUnder s1 i n)
  /\ (forall flags s i e n ok,
        In (ACall (CAttach i e n) ok)
          (trace (snd (Peers.main flags (initial s)))) ->
        exists eip s1,
          Located s (Peers.flagEIP flags) eip /\
          eip_PublicIP eip = Peers.flagEIP flags /\
          DetachElasticIP (att_ID (eip_Attachment eip)) (eip_ID eip) s
            = (None, s1) /\
          e = eip_ID eip /\ listedUnder s1 i n).
Proof.
  split.
  - intros flags s i e n ok.
    destruct (PrivateIPShape.ip_main_cases flags s) as (o & st & -> & HR).
    cbn [snd]. intros Hin.
    inversion HR; subst; cbn [trace] in Hin; split_in;
      injection Hin as <- <- <- <-;
      match goal with
      | HV : PrivateIP.validated _ = Ok _ |- _ =>
          apply ip_validated_eip in HV; subst
      end;
      match goal with
      | HS : Stage (PrivateIP.findFailOverTarget _) _ (Ok _) _ |- _ =>
          destruct (PrivateIPSelection.ip_Stage_target _ _ _ _ HS)
            as (instance & nics & nic & HL & Hnic & _ & Hi & Hn & _)
      end;
      exists eip, s1;
      (repeat split; auto;
       [ eapply Located_public; eassumption
       | exists nics, nic; rewrite Hi, Hn; auto ]).
  - intros flags s i e n ok.
    destruct (PeersSelection.peers_main_cases flags s) as (o & st & -> & HR).
    cbn [snd]. intros Hin.
    inversion HR; subst; cbn [trace] in Hin; split_in;
      injection Hin as <- <- <- <-;
      match goal with
      | HV : Peers.validated _ = Ok _ |- _ =>
          apply peers_validated_eip in HV; subst
      end;
      match goal with
      | HS : Stage (Peers.pickFailOverTarget _) _ (Ok _) _ |- _ =>
          destruct (PeersSelection.peers_Stage_first _ _ _ _ HS)
            as (instance & nic & (pre & post & npre & npost & _ & _ & _ & HL & _)
                & ->)
      end;
      exists eip, s1;
      (repeat split; auto;
       [ eapply Located_public; eassumption
       | exists (npre ++ nic :: npost), nic; cbn;
         repeat split; [exact HL | apply in_elt] ]).
Qed.

Lemma shape_nil : detachesThenAttach [].
Proof. exists [], []. cbn. repeat split; auto; lia. Qed.

Lemma shape_d i e : detachesThenAttach [CDetach i e].
Proof.
  exists [CDetach i e], []. cbn. repeat split; try lia; try discriminate; try (intros _; discriminate);
    repeat (constructor; eauto).
Qed.

Lemma shape_dd i e i' e' : detachesThenAttach [CDetach i e; CDetach i' e'].
Proof.
  exists [CDetach i e; CDetach i' e'], []. cbn. repeat split; try lia; try discriminate; try (intros _; discriminate);
    repeat (constructor; eauto).
Qed.

Lemma shape_prepared d inst occupant i e n :
  (exists j f, d = CDetach j f) ->
  detachesThenAttach (d :: prepareCalls inst occupant ++ [CAttach i e n]).
Proof.
  intros Hd. unfold prepareCalls.
  destruct (eip_PublicIP occupant =? "")%string; cbn.
  - exists [d], [CAttach i e n]. cbn. repeat split; try lia; try discriminate; try (intros _; discriminate);
    repeat (constructor; eauto).
  - exists [d; CDetach inst (eip_ID occupant)], [CAttach i e n]. cbn.
    repeat split; try lia; try discriminate; try (intros _; discriminate);
    repeat (constructor; eauto).
Qed.

Ltac run_mutations :=
  cbn [trace]; rewrite ?mutations_app; mut_stage;
  repeat match goal with
  | HP : Prepared _ _ _ _ ?pevs _ |- context [mutations ?pevs] =>
      rewrite (Prepared_mutations _ _ _ _ _ _ HP)
  end;
  cbn;
  first [ apply shape_nil | apply shape_d | apply shape_dd
        | apply shape_prepared; unfold detachCall; eauto ].

(** X14. The calls of a run that change the provider's state, in each of
    the three programs and whatever the provider answers: at most two
    detach calls followed by at most one attach call.  No run attaches
    before it has detached, attaches twice, or detaches after its
    attach. *)
Theorem runs_detach_then_attach :
  (forall flags s,
     detachesThenAttach
       (mutations (trace (snd (InstanceIDs.main flags (initial s))))))
  /\ (forall flags s,
        detachesThenAttach
          (mutations (trace (snd (PrivateIP.main flags (initial s))))))
  /\ (forall flags s,
        detachesThenAttach
          (mutations (trace (snd (Peers.main flags (initial s)))))).
Proof.
  split; [|split]; intros flags s.
  - destruct (InstanceIDsSelection.ids_main_cases flags s) as (o & st & -> & HR).
    cbn [snd]. inversion HR; subst; run_mutations.
  - destruct (PrivateIPShape.ip_main_cases flags s) as (o & st & -> & HR).
    cbn [snd]. inversion HR; subst; run_mutations.
  - destruct (PeersSelection.peers_main_cases flags s) as (o & st & -> & HR).
    cbn [snd]. inversion HR; subst; run_mutations.
Qed.

End AttachEndpoint.

Lemma ids_attach_goes_through_failed_instance_witness :
  exists eip s1 instanceID,
    Located (prov := Fake.prov) Fake.world "203.0.113.9" eip /\
    eip_PublicIP eip = "203.0.113.9" /\
    Fake.detach (att_ID (eip_Attachment eip)) (eip_ID eip) Fake.world
      = (None, s1) /\
    1 = att_ID (eip_Attachment eip) /\ 7 = eip_ID eip /\
    InstanceIDs.runningAt (prov := Fake.prov) s1 instanceID /\
    listedUnder (prov := Fake.prov) s1 instanceID 31 /\
    instanceID <> 1.
Proof.
  apply (ids_attach_goes_through_failed_instance (lib := IPv4.lib)
           (prov := Fake.prov) (Examples.idsFlags "1,2,3") Fake.world
           1 7 31 true).
  vm_compute. auto 20.
Defined.

Lemma address_attach_goes_through_owner_witness :
  exists eip s1,
    Located (prov := Fake.prov) Fake.world "203.0.113.9" eip /\
    eip_PublicIP eip = "203.0.113.9" /\
    Fake.detach (att_ID (eip_Attachment eip)) (eip_ID eip) Fake.world
      = (None, s1) /\
    7 = eip_ID eip /\ listedUnder (prov := Fake.prov) s1 3 31.
Proof.
  apply (proj1 (address_attach_goes_through_owner (lib := IPv4.lib)
                  (prov := Fake.prov))
           (Examples.ipFlags "10.0.0.3") Fake.world 3 7 31 true).
  vm_compute. auto 20.
Defined.

(** ** Whole runs of the [-peers] program: what the peer list is used for *)

Module PeersRuns.
Import Peers PeersSelection PeersRunFacts.

Section Facts.
Context {lib : GoLib} {prov : Provider}.

Lemma peers_pick_ext p p' st :
  (forall ip, In ip p' <-> In ip p) ->
  pickFailOverTarget p' st = pickFailOverTarget p st.
Proof.
  intros H. unfold pickFailOverTarget, bind.
  destruct (serverList st) as [[[items|e]|c] st']; try reflexivity.
  now apply peers_loop_ext.
Qed.

Lemma Stage_ext {A} (m m' : M (result A)) s r evs :
  (forall st, m' st = m st) -> Stage m s r evs -> Stage m' s r evs.
Proof.
  intros H [Hrun Hread]. split; [|exact Hread].
  intros st Hs. rewrite H. now apply Hrun.
Qed.

Lemma filterPeers_ext p p' banned :
  (forall ip, In ip p' <-> In ip p) ->
  forall ip, In ip (filterPeers p' banned) <-> In ip (filterPeers p banned).
Proof. intros H ip. rewrite !filterPeers_In, H. tauto. Qed.

Lemma peers_Stage_ext p p' banned s r evs :
  (forall ip, In ip p' <-> In ip p) ->
  Stage (pickFailOverTarget (filterPeers p banned)) s r evs ->
  Stage (pickFailOverTarget (filterPeers p' banned)) s r evs.
Proof.
  intros H. apply Stage_ext. intros st.
  apply peers_pick_ext. now apply filterPeers_ext.
Qed.

Lemma peers_Run_ext flags flags' s haEIP p p' o st :
  validated flags = Ok (haEIP, p) ->
  validated flags' = Ok (haEIP, p') ->
  (forall ip, In ip p' <-> In ip p) ->
  Run flags s o st -> Run flags' s o st.
Proof.
  intros HV HV' Hmem HR.
  inversion HR; subst;
    match goal with
    | H : validated flags = _ |- _ =>
        rewrite HV in H; first [discriminate H | injection H as <- <-]
    end;
    repeat match goal with
    | HS : Stage (pickFailOverTarget (filterPeers p _)) _ _ _ |- _ =>
        apply (peers_Stage_ext p p' _ _ _ _ Hmem) in HS
    end.
  - eapply RunListFailed; eassumption.
  - eapply RunNotFound; eassumption.
  - eapply RunDetachFailed; eassumption.
  - eapply RunNoTarget; eassumption.
  - eapply RunPrepareFailed; eassumption.
  - eapply RunAttachFailed; eassumption.
  - eapply RunAttached; eassumption.
Qed.

(** X15. A run of the [-peers] program depends on the peer list only
    through the set of its addresses: two invocations with the same
    token and the same [-eip] whose peer lists hold the same addresses,
    in any order and with any repetitions, make the same calls, write
    the same records and end alike. *)
Theorem peers_run_ignores_order_and_repeats
  (flags flags' : Flags) (s : PState) (haEIP : string)
  (haPeerIPs haPeerIPs' : list string) :
  flagToken flags' = flagToken flags ->
  validated flags = Ok (haEIP, haPeerIPs) ->
  validated flags' = Ok (haEIP, haPeerIPs') ->
  (forall ip, In ip haPeerIPs' <-> In ip haPeerIPs) ->
  main flags' (initial s) = main flags (initial s).
Proof.
  intros _ HV HV' Hmem.
  destruct (peers_main_cases flags s) as (o & st & -> & HR).
  apply peers_main_eq.
  exact (peers_Run_ext flags flags' s haEIP haPeerIPs haPeerIPs' o st
           HV HV' Hmem HR).
Qed.

Lemma filterPeers_all p banned :
  Forall (fun ip => ip = banned) p -> filterPeers p banned = [].
Proof.
  induction 1 as [|x rest -> _ IH]; cbn; [reflexivity|].
  now rewrite String.eqb_refl.
Qed.

Lemma peers_Stage_no_peers s target evs :
  Stage (pickFailOverTarget []) s (Ok target) evs -> False.
Proof.
  intros HS. apply peers_Stage_first in HS.
  destruct HS as (instance & nic & (pre & post & npre & npost & H) & _).
  destruct H as (_ & _ & _ & _ & _ & []).
Qed.

Lemma peers_Stage_error_kinds arg s e evs :
  Stage (pickFailOverTarget arg) s (Err e) evs ->
  e = ErrNoAvailableInstance \/ exists msg, e = ErrProvider msg.
Proof.
  intros HS. pose proof (Stage_result _ _ _ _ (initial s) HS eq_refl) as Hr.
  now apply AddressSelection.peers_pick_error_kinds in Hr.
Qed.

(** X16. When every address of the peer list is the private address the
    elastic IP is recorded at, the run of the [-peers] program still
    detaches the elastic IP and then fails: it exits with code 1 and
    makes no attach call; when the detach succeeded, its calls that
    change the provider's state are that one detach, and the error
    reported is "no available instance found" or the provider's. *)
Theorem peers_only_failed_address_never_attaches
  (flags : Flags) (s : PState) (haEIP : string) (haPeerIPs : list string)
  (eip : ElasticIP) :
  validated flags = Ok (haEIP, haPeerIPs) ->
  Located s haEIP eip ->
  Forall (fun ip => ip = eip_PrivateIP eip) haPeerIPs ->
  exitCode (main flags (initial s)) = 1
  /\ (forall i e n ok,
        ~ In (ACall (CAttach i e n) ok) (trace (snd (main flags (initial s)))))
  /\ (forall s1,
        DetachElasticIP (att_ID (eip_Attachment eip)) (eip_ID eip) s
          = (None, s1) ->
        exists evs e,
          main flags (initial s)
            = (Exit 1,
               {| pst := s1;
                  trace := [ACall CListElasticIPs true; found eip;
                            ACall (detachCall eip) true; detachedLog eip]
                           ++ evs ++ [failure e] |}) /\
          mutations evs = [] /\
          (e = ErrNoAvailableInstance \/ exists msg, e = ErrProvider msg)).
Proof.
  intros HV HL Hall.
  destruct (peers_main_cases flags s) as (o & st & -> & HR).
  pose proof (filterPeers_all _ _ Hall) as Hnil.
  inversion HR; subst; same_run;
    repeat match goal with
    | HS : Stage (pickFailOverTarget (filterPeers _ _)) _ _ _ |- _ =>
        rewrite Hnil in HS
    end;
    try match goal with
    | HS : Stage (pickFailOverTarget []) _ (Ok _) _ |- _ =>
        exfalso; exact (peers_Stage_no_peers _ _ _ HS)
    end;
    (split; [reflexivity|]);
    (split;
     [ intros i0 e0 n0 ok0 Hin; cbn [snd trace] in Hin; split_in
     | intros s1' HD; same_run ]).
  exists evs, e. repeat split.
  - eapply Stage_mutations; eassumption.
  - eapply peers_Stage_error_kinds; eassumption.
Qed.

End Facts.

Import Fake Examples.

Lemma peers_run_ignores_order_and_repeats_witness :
  runPeers "10.0.0.2,10.0.0.3,10.0.0.2" world = runPeers "10.0.0.3,10.0.0.2" world.
Proof.
  apply (peers_run_ignores_order_and_repeats (lib := IPv4.lib) (prov := Fake.prov)
           (peersFlags "10.0.0.3,10.0.0.2")
           (peersFlags "10.0.0.2,10.0.0.3,10.0.0.2") world
           "203.0.113.9" ["10.0.0.3"; "10.0.0.2"]
           ["10.0.0.2"; "10.0.0.3"; "10.0.0.2"]).
  - reflexivity.
  - vm_compute. reflexivity.
  - vm_compute. reflexivity.
  - intros ip. cbn. tauto.
Defined.

Lemma peers_only_failed_address_never_attaches_witness :
  exitCode (runPeers "10.0.0.1,10.0.0.1" world) = 1
  /\ (forall i e n ok,
        ~ In (ACall (CAttach i e n) ok)
            (trace (snd (runPeers "10.0.0.1,10.0.0.1" world))))
  /\ (forall s1,
        Fake.detach 1 7 world = (None, s1) ->
        exists evs e,
          runPeers "10.0.0.1,10.0.0.1" world
            = (Exit 1,
               state s1
                 ([ACall CListElasticIPs true; found Fake.haEIP;
                   ACall (detachCall Fake.haEIP) true; detachedLog Fake.haEIP]
                  ++ evs ++ [failure e])) /\
          mutations evs = [] /\
          (e = ErrNoAvailableInstance \/ exists msg, e = ErrProvider msg)).
Proof.
  apply (peers_only_failed_address_never_attaches (lib := IPv4.lib)
           (prov := Fake.prov) (peersFlags "10.0.0.1,10.0.0.1") world
           "203.0.113.9" ["10.0.0.1"; "10.0.0.1"] Fake.haEIP).
  - vm_compute. reflexivity.
  - exists [Fake.haEIP]. split; reflexivity.
  - repeat constructor.
Defined.

End PeersRuns.

(** ** Whole runs: the flag checks *)

Section FlagOrder.
Context {lib : GoLib} {prov : Provider}.

Lemma checkFlagToken_ok flag : flag <> "" -> checkFlagToken flag = Ok flag.
Proof.
  intros H. unfold checkFlagToken. apply String.eqb_neq in H. now rewrite H.
Qed.

Lemma checkFlagToken_missing flag : flag = "" -> checkFlagToken flag = Err ErrMissingToken.
Proof. now intros ->. Qed.

(** X17. [main] of [main.go] checks its flags in the order token, elastic
    IP, instance IDs, and reports the first one that fails: the run then
    consists of that one error record and exit code 1, with no call to
    the provider, whatever the later flags hold.  With the three flags
    accepted, the first action of the run is the listing of the elastic
    IPs. *)
Theorem ids_flag_errors_come_first (flags : InstanceIDs.Flags) (s : PState) :
  (InstanceIDs.flagToken flags = "" ->
   InstanceIDs.main flags (initial s)
     = (Exit 1, {| pst := s; trace := [failure ErrMissingToken] |}))
  /\ (forall e,
        InstanceIDs.flagToken flags <> "" ->
        checkFlagEIP (InstanceIDs.flagEIP flags) = Err e ->
        InstanceIDs.main flags (initial s)
          = (Exit 1, {| pst := s; trace := [failure e] |}))
  /\ (forall haEIP e,
        InstanceIDs.flagToken flags <> "" ->
        checkFlagEIP (InstanceIDs.flagEIP flags) = Ok haEIP ->
        InstanceIDs.checkFlagInstances (InstanceIDs.flagInstances flags) = Err e ->
        InstanceIDs.main flags (initial s)
          = (Exit 1, {| pst := s; trace := [failure e] |}))
  /\ (forall haEIP ids,
        InstanceIDs.flagToken flags <> "" ->
        checkFlagEIP (InstanceIDs.flagEIP flags) = Ok haEIP ->
        InstanceIDs.checkFlagInstances (InstanceIDs.flagInstances flags) = Ok ids ->
        exists ok rest,
          trace (snd (InstanceIDs.main flags (initial s)))
            = ACall CListElasticIPs ok :: rest).
Proof.
  split; [|split; [|split]].
  - intros Htok. apply InstanceIDsRunFacts.ids_main_eq.
    apply InstanceIDs.RunBadFlags. unfold InstanceIDs.validated.
    now rewrite (checkFlagToken_missing _ Htok).
  - intros e Htok Heip. apply InstanceIDsRunFacts.ids_main_eq.
    apply InstanceIDs.RunBadFlags. unfold InstanceIDs.validated.
    now rewrite (checkFlagToken_ok _ Htok), Heip.
  - intros haEIP e Htok Heip Hids. apply InstanceIDsRunFacts.ids_main_eq.
    apply InstanceIDs.RunBadFlags. unfold InstanceIDs.validated.
    now rewrite (checkFlagToken_ok _ Htok), Heip, Hids.
  - intros haEIP ids Htok Heip Hids.
    assert (HV : InstanceIDs.validated flags = Ok (haEIP, ids)).
    { unfold InstanceIDs.validated.
      now rewrite (checkFlagToken_ok _ Htok), Heip, Hids. }
    destruct (InstanceIDsSelection.ids_main_cases flags s) as (o & st & -> & HR).
    cbn [snd].
    inversion HR; subst; cbn [trace app]; try (eexists; eexists; reflexivity).
    congruence.
Qed.

(** X18. In the [-ip] program, an [-ip] flag that does not parse as an
    address, the empty one included, ends the run before any call to the
    provider with the one error record "invalid ip: <nil>": the message
    does not show the flag's text.  The flag is checked after the token
    and the elastic IP. *)
Theorem ip_unparsable_flag_reported_as_nil
  (flags : PrivateIP.Flags) (s : PState) (haEIP : string) :
  PrivateIP.flagToken flags <> "" ->
  checkFlagEIP (PrivateIP.flagEIP flags) = Ok haEIP ->
  ParseIP (PrivateIP.flagIP flags) = None ->
  PrivateIP.main flags (initial s)
    = (Exit 1,
       {| pst := s; trace := [ALog ERROR (MsgError "invalid ip: <nil>")] |}).
Proof.
  intros Htok Heip Hip.
  apply (PrivateIPRunFacts.ip_main_eq flags s (Exit 1)
           {| pst := s; trace := [failure ErrInvalidIPNil] |}).
  apply PrivateIP.RunBadFlags. unfold PrivateIP.validated, PrivateIP.checkFlagIP.
  now rewrite (checkFlagToken_ok _ Htok), Heip, Hip.
Qed.

End FlagOrder.

Lemma ip_unparsable_flag_reported_as_nil_witness :
  Examples.runIP "10.0.0" Fake.world
    = (Exit 1,
       Examples.state Fake.world [ALog ERROR (MsgError "invalid ip: <nil>")]).
Proof.
  apply (ip_unparsable_flag_reported_as_nil (lib := IPv4.lib) (prov := Fake.prov)
           (Examples.ipFlags "10.0.0") Fake.world "203.0.113.9").
  - discriminate.
  - vm_compute. reflexivity.
  - vm_compute. reflexivity.
Defined.

(** ** Whole programs, from the command line *)

Section ConfigurationErrors.
Context {lib : GoLib} {prov : Provider}.









End ConfigurationErrors.

Section ProgramEnds.
Context {lib : GoLib} {prov : Provider}.


Section Generic.
Variables (F : Type) (formal : list string)
  (flagsOf : list (string * string) -> F) (main : F -> M unit).
Hypothesis main_failFast : forall flags s, failFast (main flags (initial s)).





End Generic.









End ProgramEnds.


(** The command lines of the three programs on the example setting: the
    flags in any order, with one or two dashes, the value after ['='] or
    as the next argument; parsing stops at the first argument that is not
    a flag. *)
Example command_lines_of_the_examples :
  idsMain (lib := IPv4.lib) (prov := Fake.prov)
    ["-token"; "secret"; "--eip=203.0.113.9"; "-instance_ids"; "1,2,3"]
    Fake.world
    = ([], Examples.runIDs "1,2,3" Fake.world)
  /\ ipMain (lib := IPv4.lib) (prov := Fake.prov)
       ["--ip"; "10.0.0.3"; "-eip"; "203.0.113.9"; "-token=secret"; "rest"; "-h"]
       Fake.world
     = ([], Examples.runIP "10.0.0.3" Fake.world)
  /\ peersMain (lib := IPv4.lib) (prov := Fake.prov)
       ["-eip"; "203.0.113.9"; "-peers"; "10.0.0.2,10.0.0.3"]
       Fake.world
     = ([], (Exit 1,
             Examples.state Fake.world
               [ALog ERROR (MsgError "missing required flag: --token")])).
Proof. repeat split; vm_compute; reflexivity. Qed.
